(** * Student/Course repository (db.py): a shallow embedding and its properties

    The repository is a thin data-access layer over a relational store.  The
    Python functions are embedded as functions over an explicit store; the SQL
    statements they send are embedded one definition per statement. *)

From Stdlib Require Import List NArith ZArith Bool Lia String Ascii.
From Stdlib Require Import Permutation Sorted.
Import ListNotations.

Open Scope N_scope.

(** ** Python strings

    A Python [str] is a sequence of Unicode code points. *)

Definition codepoint := N.
Definition str := list codepoint.

(** [py "abc"] is the [str] of an ASCII literal. *)
Definition py (s : string) : str := map N_of_ascii (list_ascii_of_string s).

Definition str_eqb (a b : str) : bool :=
  if list_eq_dec N.eq_dec a b then true else false.

(** [str.isspace] for one code point: the white-space set [str.strip()] removes. *)
Definition is_space (c : codepoint) : bool :=
  ((9 <=? c) && (c <=? 13)) || ((28 <=? c) && (c <=? 32))
  || (c =? 133) || (c =? 160) || (c =? 5760)
  || ((8192 <=? c) && (c <=? 8202))
  || (c =? 8232) || (c =? 8233) || (c =? 8239) || (c =? 8287) || (c =? 12288).

Fixpoint dropwhile {A} (p : A -> bool) (l : list A) : list A :=
  match l with
  | [] => []
  | x :: r => if p x then dropwhile p r else l
  end.

Definition lstrip (s : str) : str := dropwhile is_space s.
Definition rstrip (s : str) : str := rev (dropwhile is_space (rev s)).
(** [s.strip()] *)
Definition strip (s : str) : str := rstrip (lstrip s).

(** [s.split(sep)] for a one-character separator: never the empty list. *)
Fixpoint split (sep : codepoint) (s : str) : list str :=
  match s with
  | [] => [[]]
  | c :: r =>
      if c =? sep then [] :: split sep r
      else match split sep r with
           | [] => [[c]]
           | t :: ts => (c :: t) :: ts
           end
  end.

(** [sep.join(l)] *)
Fixpoint join (sep : str) (l : list str) : str :=
  match l with
  | [] => []
  | [x] => x
  | x :: r => x ++ sep ++ join sep r
  end.

Definition comma : codepoint := 44.
Definition comma_space : str := [44; 32].

(** Lexicographic order of two strings by code point. *)
Fixpoint str_leb (a b : str) : bool :=
  match a, b with
  | [], _ => true
  | _ :: _, [] => false
  | x :: a', y :: b' => if x <? y then true else if y <? x then false else str_leb a' b'
  end.

(** ** The relational store

    The tables of the schema: Student, StudentDetails, Course, StudentCourse.
    A nullable column is an [option]. *)

Record Student := mkStudent
  { StudentID : Z; Name : str; Age : Z; Email : str }.

Record StudentDetails := mkDetails
  { d_StudentID : Z; PhoneNumber : option str; CourseS : option str }.

Record Course := mkCourse
  { CourseID : Z; CourseName : str }.

Record StudentCourse := mkEnrollment
  { sc_StudentID : Z; sc_CourseID : Z }.

(** Modelled from the spec: how the store compares and orders
    Course.CourseName, by exact string or ignoring case.  The schema fixes it;
    db.py does not. *)
Inductive collation := Binary | CaseInsensitive.

Record store := mkStore
  { db_collation : collation;
    students : list Student;
    details : list StudentDetails;
    courses : list Course;
    enrollments : list StudentCourse;
    auto_increment : Z }.

Definition empty_store (c : collation) : store := mkStore c [] [] [] [] 1.

Definition with_students (l : list Student) (s : store) : store :=
  mkStore (db_collation s) l (details s) (courses s) (enrollments s) (auto_increment s).
Definition with_details (l : list StudentDetails) (s : store) : store :=
  mkStore (db_collation s) (students s) l (courses s) (enrollments s) (auto_increment s).
Definition with_courses (l : list Course) (s : store) : store :=
  mkStore (db_collation s) (students s) (details s) l (enrollments s) (auto_increment s).
Definition with_enrollments (l : list StudentCourse) (s : store) : store :=
  mkStore (db_collation s) (students s) (details s) (courses s) l (auto_increment s).
Definition with_auto_increment (n : Z) (s : store) : store :=
  mkStore (db_collation s) (students s) (details s) (courses s) (enrollments s) n.

(** ** The exceptions and the query executor

    A repository function is a sequence of statements sent one by one, with no
    transaction around them: what the statements before a failure did stays. *)

Inductive error := IntegrityError | StateError.

Inductive outcome (A : Type) :=
| Ok (a : A)
| Raise (e : error).
Arguments Ok {A} a.
Arguments Raise {A} e.

Definition M (A : Type) : Type := store -> outcome A * store.

Definition ret {A} (a : A) : M A := fun s => (Ok a, s).
Definition raise {A} (e : error) : M A := fun s => (Raise e, s).
Definition bind {A B} (m : M A) (k : A -> M B) : M B :=
  fun s => match m s with
           | (Ok a, s') => k a s'
           | (Raise e, s') => (Raise e, s')
           end.

Notation "x <- m ;; k" := (bind m (fun x => k))
  (at level 61, m at next level, right associativity).
Notation "m ;;; k" := (bind m (fun _ => k))
  (at level 61, right associativity).

(** A statement either changes the store or is refused as a whole. *)
Definition statement := store -> outcome store.

Definition execute (st : statement) : M unit :=
  fun s => match st s with
           | Ok s' => (Ok tt, s')
           | Raise e => (Raise e, s)
           end.
Definition fetch_one {A} (q : store -> list A) : M (option A) :=
  fun s => (Ok (hd_error (q s)), s).
Definition fetch_all {A} (q : store -> list A) : M (list A) :=
  fun s => (Ok (q s), s).

Fixpoint for_each {A} (l : list A) (body : A -> M unit) : M unit :=
  match l with
  | [] => ret tt
  | a :: r => body a ;;; for_each r body
  end.

(** The store a computation leaves, and its result. *)
Definition run {A} (m : M A) (s : store) : store := snd (m s).
Definition result {A} (m : M A) (s : store) : outcome A := fst (m s).

(** ** Relational operators used by the two SELECT statements *)

Definition left_join {A B} (on : A -> B -> bool) (l : list A) (r : list B)
  : list (A * option B) :=
  flat_map (fun a => match filter (on a) r with
                     | [] => [(a, None)]
                     | m => map (fun b => (a, Some b)) m
                     end) l.

(** The first occurrence of every element, up to [eqb]. *)
Fixpoint distinct {A} (eqb : A -> A -> bool) (l : list A) : list A :=
  match l with
  | [] => []
  | x :: r => x :: filter (fun y => negb (eqb x y)) (distinct eqb r)
  end.

(** GROUP BY: one group per distinct key, holding the rows of that key. *)
Definition group_by {A K} (keqb : K -> K -> bool) (key : A -> K) (l : list A)
  : list (K * list A) :=
  map (fun k => (k, filter (fun a => keqb k (key a)) l)) (distinct keqb (map key l)).

(** ORDER BY: a stable insertion sort. *)
Fixpoint insert_sorted {A} (leb : A -> A -> bool) (x : A) (l : list A) : list A :=
  match l with
  | [] => [x]
  | y :: r => if leb x y then x :: l else y :: insert_sorted leb x r
  end.
Definition order_by {A} (leb : A -> A -> bool) (l : list A) : list A :=
  fold_right (insert_sorted leb) [] l.

Definition option_eqb {A} (eqb : A -> A -> bool) (a b : option A) : bool :=
  match a, b with
  | Some x, Some y => eqb x y
  | None, None => true
  | _, _ => false
  end.

(** The rows [list_students] and [list_courses] return. *)
Record student_row := mkStudentRow
  { r_StudentID : Z; r_Name : str; r_Age : Z; r_Email : str;
    r_PhoneNumber : option str; r_Courses : option str }.

Record course_row := mkCourseRow
  { r_CourseID : Z; r_CourseName : str; r_StudentCount : Z }.

(** A folding table that leaves every code point outside ASCII as it is. *)
Definition nofold (c : codepoint) : list codepoint := [c].

(** ** Sample stores

    The stores the examples below start from, written out row by row. *)

(** Student 1 enrolled in Math, as [insert_student] leaves a new store. *)
Definition math_store (c : collation) : store :=
  mkStore c
    [mkStudent 1 (py "Alice") 20 (py "a@x.com")]
    [mkDetails 1 (Some (py "555-1234")) (Some (py "Math"))]
    [mkCourse 1 (py "Math")]
    [mkEnrollment 1 1]
    2.

(** The same store after course 1 was renamed to Physics. *)
Definition renamed_store (c : collation) : store :=
  mkStore c
    [mkStudent 1 (py "Alice") 20 (py "a@x.com")]
    [mkDetails 1 (Some (py "555-1234")) (Some (py "Math"))]
    [mkCourse 1 (py "Physics")]
    [mkEnrollment 1 1]
    2.

(** Student 1 enrolled in Math and Art. *)
Definition math_art_store (c : collation) : store :=
  mkStore c
    [mkStudent 1 (py "Alice") 20 (py "a@x.com")]
    [mkDetails 1 (Some (py "555-1234")) (Some (py "Math, Art"))]
    [mkCourse 1 (py "Math"); mkCourse 2 (py "Art")]
    [mkEnrollment 1 1; mkEnrollment 1 2]
    3.

(** The same store after course 1 was deleted. *)
Definition art_left_store (c : collation) : store :=
  mkStore c
    [mkStudent 1 (py "Alice") 20 (py "a@x.com")]
    [mkDetails 1 (Some (py "555-1234")) (Some (py "Math, Art"))]
    [mkCourse 2 (py "Art")]
    [mkEnrollment 1 2]
    3.

(** Student 1 with the legacy field "Biology" and no enrollment row. *)
Definition biology_store (c : collation) : store :=
  mkStore c
    [mkStudent 1 (py "Alice") 20 (py "a@x.com")]
    [mkDetails 1 (Some (py "555-1234")) (Some (py "Biology"))]
    []
    []
    2.

(** Two students and three courses, one of them without enrollment. *)
Definition campus_store (c : collation) : store :=
  mkStore c
    [mkStudent 1 (py "Alice") 20 (py "a@x.com");
     mkStudent 2 (py "Bob") 21 (py "b@x.com")]
    [mkDetails 1 (Some (py "555-1234")) (Some (py "Math, Art"));
     mkDetails 2 (Some (py "555-9876")) (Some (py "Math"))]
    [mkCourse 1 (py "Math"); mkCourse 2 (py "Art"); mkCourse 3 (py "Zoology")]
    [mkEnrollment 1 1; mkEnrollment 1 2; mkEnrollment 2 1]
    4.

(** Student 1 enrolled in Art and in art, two courses of a store that compares
    names exactly: what rename_course(2, "art") leaves after
    insert_student(1, ..., "Art, Math"). *)
Definition art_twice_store : store :=
  mkStore Binary
    [mkStudent 1 (py "Alice") 20 (py "a@x.com")]
    [mkDetails 1 (Some (py "555-1234")) (Some (py "Art, Math"))]
    [mkCourse 1 (py "Art"); mkCourse 2 (py "art")]
    [mkEnrollment 1 1; mkEnrollment 1 2]
    3.

Section Repository.

(** [str.casefold()] folds each code point on its own.  On ASCII it lowers the
    letters A-Z; the folding of the other code points is the table of the
    Unicode database shipped with the interpreter. *)
Variable unicode_fold : codepoint -> list codepoint.

Definition fold_cp (c : codepoint) : list codepoint :=
  if (65 <=? c) && (c <=? 90) then [c + 32]
  else if c <? 128 then [c]
  else unicode_fold c.

Definition casefold (s : str) : str := flat_map fold_cp s.

(** *** [_normalize_courses] (db.py, lines 8-20) *)

(** One round of the [for p in parts] loop on the pair [(dedup, seen)]. *)
Definition normalize_step (st : list str * list str) (p : str) : list str * list str :=
  let '(dedup, seen) := st in
  match p with
  | [] => st
  | _ =>
      let key := casefold p in
      if existsb (str_eqb key) seen then st
      else (dedup ++ [p], key :: seen)
  end.

Definition _normalize_courses (courses : option str) : list str :=
  let parts := map strip (split comma (match courses with Some s => s | None => [] end)) in
  fst (fold_left normalize_step parts ([], [])).

(** The same result in the words of the specification: trimmed tokens, empty
    ones dropped, and of several tokens equal up to case only the first kept. *)
Definition same_fold (a b : str) : bool := str_eqb (casefold a) (casefold b).

Fixpoint keep_first_seen (l : list str) : list str :=
  match l with
  | [] => []
  | x :: r => x :: filter (fun y => negb (same_fold x y)) (keep_first_seen r)
  end.

Definition nonempty (s : str) : bool := match s with [] => false | _ => true end.

Definition tokens (courses : option str) : list str :=
  filter nonempty (map strip (split comma (match courses with Some s => s | None => [] end))).

(** [normalize_to_csv]: the rendering written to the legacy field. *)
Definition normalize_to_csv (courses : option str) : str :=
  join comma_space (_normalize_courses courses).

(** ** The statements db.py sends

    Each definition below is one SQL statement of db.py.  The schema the
    statements run against is not part of db.py: what it contributes (the keys,
    the collation, the cascades) is modelled from section 6 of the
    specification in the definitions marked so.  Limits of the server on the
    length of a column or of a GROUP_CONCAT result are not modelled. *)

(** Modelled from the spec: the collation of Course.CourseName, which the
    schema fixes and db.py does not.  The spec speaks of exact-string
    uniqueness (section 8) and of case-insensitive aggregation (section 4.5);
    [coll_key] is the key two names are compared and ordered by, the name
    itself or its case folding. *)
Definition coll_key (c : collation) (n : str) : str :=
  match c with
  | Binary => n
  | CaseInsensitive => casefold n
  end.
Definition name_eqb (c : collation) (a b : str) : bool :=
  str_eqb (coll_key c a) (coll_key c b).
Definition name_leb (c : collation) (a b : str) : bool :=
  str_leb (coll_key c a) (coll_key c b).

(** Modelled from the spec: the primary key of Student, also the parent key of
    the foreign keys StudentDetails.StudentID and StudentCourse.StudentID. *)
Definition has_student (sid : Z) (s : store) : bool :=
  existsb (fun x => Z.eqb (StudentID x) sid) (students s).
(** Modelled from the spec: the primary key of Course, the parent key of the
    foreign key StudentCourse.CourseID. *)
Definition has_course (cid : Z) (s : store) : bool :=
  existsb (fun c => Z.eqb (CourseID c) cid) (courses s).
(** Modelled from the spec: the unique key on Course.CourseName. *)
Definition has_course_named (name : str) (s : store) : bool :=
  existsb (fun c => name_eqb (db_collation s) (CourseName c) name) (courses s).
(** Modelled from the spec: the primary key of StudentDetails. *)
Definition has_details (sid : Z) (s : store) : bool :=
  existsb (fun d => Z.eqb (d_StudentID d) sid) (details s).
(** Modelled from the spec: the unique pair of StudentCourse. *)
Definition has_enrollment (sid cid : Z) (s : store) : bool :=
  existsb (fun e => Z.eqb (sc_StudentID e) sid && Z.eqb (sc_CourseID e) cid)
    (enrollments s).
(** Modelled from the spec: the cascading deletes of the foreign keys, which
    the repository relies on (sections 3 and 4.5) and does not perform itself. *)
Definition cascade_student (sid : Z) (s : store) : store :=
  with_details (filter (fun d => negb (Z.eqb (d_StudentID d) sid)) (details s))
    (with_enrollments
       (filter (fun e => negb (Z.eqb (sc_StudentID e) sid)) (enrollments s)) s).
Definition cascade_course (cid : Z) (s : store) : store :=
  with_enrollments
    (filter (fun e => negb (Z.eqb (sc_CourseID e) cid)) (enrollments s)) s.

(** [INSERT IGNORE INTO Course (CourseName) VALUES (%s)] *)
Definition insert_ignore_course (name : str) : statement := fun s =>
  Ok (if has_course_named name s then s
      else with_auto_increment (auto_increment s + 1)
             (with_courses (courses s ++ [mkCourse (auto_increment s) name]) s)).

(** [SELECT CourseID FROM Course WHERE CourseName = %s] *)
Definition select_course_id (name : str) (s : store) : list Z :=
  map CourseID
    (filter (fun c => name_eqb (db_collation s) (CourseName c) name) (courses s)).

(** [DELETE FROM StudentCourse WHERE StudentID = %s] *)
Definition delete_student_courses (sid : Z) : statement := fun s =>
  Ok (with_enrollments
        (filter (fun e => negb (Z.eqb (sc_StudentID e) sid)) (enrollments s)) s).

(** [INSERT IGNORE INTO StudentCourse (StudentID, CourseID) VALUES (%s, %s)]:
    IGNORE skips the row on a duplicate pair and on a missing parent row. *)
Definition insert_ignore_student_course (sid cid : Z) : statement := fun s =>
  Ok (if has_enrollment sid cid s
         || negb (has_student sid s) || negb (has_course cid s)
      then s
      else with_enrollments (enrollments s ++ [mkEnrollment sid cid]) s).

(** [UPDATE StudentDetails SET CourseS = %s WHERE StudentID = %s] *)
Definition update_details_courses (csv : str) (sid : Z) : statement := fun s =>
  Ok (with_details
        (map (fun d => if Z.eqb (d_StudentID d) sid
                       then mkDetails (d_StudentID d) (PhoneNumber d) (Some csv)
                       else d) (details s)) s).

(** [INSERT INTO StudentDetails (StudentID, PhoneNumber, CourseS) VALUES (...)
    ON DUPLICATE KEY UPDATE PhoneNumber = ..., CourseS = ...]: refused when the
    row is new and its student is missing. *)
Definition upsert_details (sid : Z) (phone : option str) (csv : option str)
  : statement := fun s =>
  if has_details sid s
  then Ok (with_details
             (map (fun d => if Z.eqb (d_StudentID d) sid
                            then mkDetails sid phone csv else d) (details s)) s)
  else if has_student sid s
       then Ok (with_details (details s ++ [mkDetails sid phone csv]) s)
       else Raise IntegrityError.

(** [INSERT INTO Student (StudentID, Name, Age, Email) VALUES (...)]: refused
    when the identifier is taken. *)
Definition insert_student_row (sid : Z) (name : str) (age : Z) (email : str)
  : statement := fun s =>
  if has_student sid s then Raise IntegrityError
  else Ok (with_students (students s ++ [mkStudent sid name age email]) s).

(** [UPDATE Student SET Name = %s, Age = %s, Email = %s WHERE StudentID = %s] *)
Definition update_student_row (name : str) (age : Z) (email : str) (sid : Z)
  : statement := fun s =>
  Ok (with_students
        (map (fun x => if Z.eqb (StudentID x) sid
                       then mkStudent sid name age email else x) (students s)) s).

(** [DELETE FROM Student WHERE StudentID = %s] *)
Definition delete_student_row (sid : Z) : statement := fun s =>
  Ok (with_students (filter (fun x => negb (Z.eqb (StudentID x) sid)) (students s))
       (cascade_student sid s)).

(** [UPDATE Course SET CourseName = %s WHERE CourseID = %s]: refused when
    another course already has the name. *)
Definition update_course_name (name : str) (cid : Z) : statement := fun s =>
  if has_course cid s
     && existsb (fun c => negb (Z.eqb (CourseID c) cid)
                          && name_eqb (db_collation s) (CourseName c) name) (courses s)
  then Raise IntegrityError
  else Ok (with_courses
             (map (fun c => if Z.eqb (CourseID c) cid then mkCourse cid name else c)
                (courses s)) s).

(** [DELETE FROM Course WHERE CourseID = %s] *)
Definition delete_course_row (cid : Z) : statement := fun s =>
  Ok (with_courses (filter (fun c => negb (Z.eqb (CourseID c) cid)) (courses s))
       (cascade_course cid s)).

(** *** The SELECT of [list_students] (db.py, lines 70-91) *)

Definition joined_row : Type :=
  ((Student * option StudentDetails) * option StudentCourse) * option Course.

Definition jr_student (r : joined_row) : Student := fst (fst (fst r)).
Definition jr_details (r : joined_row) : option StudentDetails := snd (fst (fst r)).
Definition jr_enrollment (r : joined_row) : option StudentCourse := snd (fst r).
Definition jr_course (r : joined_row) : option Course := snd r.

(** [ON d.StudentID = s.StudentID] *)
Definition on_details (x : Student) (d : StudentDetails) : bool :=
  Z.eqb (d_StudentID d) (StudentID x).
(** [ON sc.StudentID = s.StudentID] *)
Definition on_enrollment (r : Student * option StudentDetails) (e : StudentCourse)
  : bool :=
  Z.eqb (sc_StudentID e) (StudentID (fst r)).
(** [ON c.CourseID = sc.CourseID]: never true on a NULL sc. *)
Definition on_course (r : (Student * option StudentDetails) * option StudentCourse)
  (c : Course) : bool :=
  match snd r with
  | Some e => Z.eqb (CourseID c) (sc_CourseID e)
  | None => false
  end.

(** [FROM Student s LEFT JOIN StudentDetails d ... LEFT JOIN StudentCourse sc ...
    LEFT JOIN Course c ...] *)
Definition student_join (s : store) : list joined_row :=
  left_join on_course
    (left_join on_enrollment
       (left_join on_details (students s) (details s))
       (enrollments s))
    (courses s).

(** The GROUP BY key: s.StudentID, s.Name, s.Age, s.Email, d.PhoneNumber, d.CourseS. *)
Definition group_key : Type := Z * str * Z * str * option str * option str.

Definition student_group_key (r : joined_row) : group_key :=
  (StudentID (jr_student r), Name (jr_student r), Age (jr_student r),
   Email (jr_student r),
   match jr_details r with Some d => PhoneNumber d | None => None end,
   match jr_details r with Some d => CourseS d | None => None end).

Definition group_key_eqb (a b : group_key) : bool :=
  let '(i1, n1, a1, e1, p1, c1) := a in
  let '(i2, n2, a2, e2, p2, c2) := b in
  Z.eqb i1 i2 && str_eqb n1 n2 && Z.eqb a1 a2 && str_eqb e1 e2
  && option_eqb str_eqb p1 p2 && option_eqb str_eqb c1 c2.

(** The non-NULL values of c.CourseName in a group. *)
Definition group_course_names (rows : list joined_row) : list str :=
  flat_map (fun r => match jr_course r with
                     | Some c => [CourseName c]
                     | None => []
                     end) rows.

(** [GROUP_CONCAT(DISTINCT c.CourseName ORDER BY c.CourseName SEPARATOR ', ')]:
    NULL when the group has no non-NULL name. *)
Definition group_concat_distinct (c : collation) (names : list str) : option str :=
  match names with
  | [] => None
  | _ => Some (join comma_space (order_by (name_leb c) (distinct (name_eqb c) names)))
  end.

(** [NULLIF(x, '')] *)
Definition nullif_empty (v : option str) : option str :=
  match v with
  | Some [] => None
  | _ => v
  end.

(** [COALESCE(a, b)] *)
Definition coalesce {A} (a b : option A) : option A :=
  match a with
  | Some _ => a
  | None => b
  end.

Definition student_row_of_group (c : collation) (g : group_key * list joined_row)
  : student_row :=
  let '(i, n, a, e, p, legacy) := fst g in
  mkStudentRow i n a e p
    (coalesce (nullif_empty (group_concat_distinct c (group_course_names (snd g))))
       legacy).

Definition select_students (student_id : option Z) (s : store) : list student_row :=
  let joined := student_join s in
  let selected :=
    match student_id with
    | Some i => filter (fun r => Z.eqb (StudentID (jr_student r)) i) joined
    | None => joined
    end in
  order_by (fun a b => Z.leb (r_StudentID b) (r_StudentID a))
    (map (student_row_of_group (db_collation s))
       (group_by group_key_eqb student_group_key selected)).

(** *** The SELECT of [list_courses] (db.py, lines 119-130) *)

Definition course_group_eqb (a b : Z * str) : bool :=
  Z.eqb (fst a) (fst b) && str_eqb (snd a) (snd b).

(** [ON sc.CourseID = c.CourseID] *)
Definition on_course_enrollment (c : Course) (e : StudentCourse) : bool :=
  Z.eqb (sc_CourseID e) (CourseID c).

Definition course_group_key (r : Course * option StudentCourse) : Z * str :=
  (CourseID (fst r), CourseName (fst r)).

(** [COUNT(sc.StudentID)]: the rows of the group whose sc is not NULL. *)
Definition count_enrollment (rows : list (Course * option StudentCourse)) : Z :=
  Z.of_nat (List.length
              (filter (fun r : Course * option StudentCourse =>
                         match snd r with Some _ => true | None => false end) rows)).

Definition course_row_of_group (g : (Z * str) * list (Course * option StudentCourse))
  : course_row :=
  mkCourseRow (fst (fst g)) (snd (fst g)) (count_enrollment (snd g)).

Definition select_courses (s : store) : list course_row :=
  let joined := left_join on_course_enrollment (courses s) (enrollments s) in
  order_by (fun a b => name_leb (db_collation s) (r_CourseName a) (r_CourseName b))
    (map course_row_of_group (group_by course_group_eqb course_group_key joined)).

(** ** The repository functions of db.py *)

(** [ensure_course] (lines 23-29).  The body is written over the two statements
    it sends, so that it can be read against any answers of the store; the
    function is the body at the INSERT IGNORE and the SELECT of the Course
    table. *)
Definition ensure_course_with (insert : str -> statement)
    (lookup : str -> store -> list Z) (name : str) : M Z :=
  execute (insert name) ;;;
  row <- fetch_one (lookup name) ;;
  match row with
  | None => raise StateError
  | Some cid => ret cid
  end.

Definition ensure_course (name : str) : M Z :=
  ensure_course_with insert_ignore_course select_course_id name.

(** [set_student_courses] (lines 32-46) *)
Definition set_student_courses (student_id : Z) (courses_csv : option str) : M unit :=
  let courses := _normalize_courses courses_csv in
  execute (delete_student_courses student_id) ;;;
  for_each courses (fun c =>
    cid <- ensure_course c ;;
    execute (insert_ignore_student_course student_id cid)) ;;;
  execute (update_details_courses (join comma_space courses) student_id).

(** [upsert_student_details] (lines 49-61) *)
Definition upsert_student_details (student_id : Z) (phone : str)
  (courses_csv : option str) : M unit :=
  execute (upsert_details student_id (Some phone) courses_csv) ;;;
  set_student_courses student_id courses_csv.

(** [list_students] (lines 64-91) *)
Definition list_students (student_id : option Z) : M (list student_row) :=
  fetch_all (select_students student_id).

(** [get_student] (lines 94-96) *)
Definition get_student (student_id : Z) : M (option student_row) :=
  rows <- list_students (Some student_id) ;;
  ret (match rows with
       | r :: _ => Some r
       | [] => None
       end).

(** [insert_student] (lines 99-104) *)
Definition insert_student (student_id : Z) (name : str) (age : Z) (email : str)
  (phone : str) (courses_csv : option str) : M unit :=
  execute (insert_student_row student_id name age email) ;;;
  upsert_student_details student_id phone courses_csv.

(** [update_student] (lines 107-111) *)
Definition update_student (student_id : Z) (name : str) (age : Z) (email : str)
  : M unit :=
  execute (update_student_row name age email student_id).

(** [delete_student] (lines 114-115) *)
Definition delete_student (student_id : Z) : M unit :=
  execute (delete_student_row student_id).


(** [create_course] (lines 133-134) *)
Definition create_course (course_name : str) : M unit :=
  _ <- ensure_course (strip course_name) ;; ret tt.

(** [rename_course] (lines 137-138) *)
Definition rename_course (course_id : Z) (new_name : str) : M unit :=
  execute (update_course_name (strip new_name) course_id).

(** [delete_course] (lines 141-142) *)
Definition delete_course (course_id : Z) : M unit :=
  execute (delete_course_row course_id).


(** ** Notions the properties are stated with *)

(** A string with no white space at either end. *)
Definition trimmed (t : str) : Prop := lstrip t = t /\ rstrip t = t.


(** The enrollment rows of one student, in table order. *)
Definition student_enrollments (sid : Z) (s : store) : list StudentCourse :=
  filter (fun e => Z.eqb (sc_StudentID e) sid) (enrollments s).

(** The names of the course rows with a given identifier. *)
Definition course_names_of (cid : Z) (s : store) : list str :=
  map CourseName (filter (fun c => Z.eqb (CourseID c) cid) (courses s)).

(** The CourseName values reachable from a student through StudentCourse. *)
Definition enrolled_names (sid : Z) (s : store) : list str :=
  flat_map (fun e => course_names_of (sc_CourseID e) s) (student_enrollments sid s).

(** The StudentDetails row of a student, if any, and its two columns. *)
Definition details_of (sid : Z) (s : store) : option StudentDetails :=
  find (fun d => Z.eqb (d_StudentID d) sid) (details s).
Definition legacy_courses (sid : Z) (s : store) : option str :=
  match details_of sid s with
  | Some d => CourseS d
  | None => None
  end.
Definition phone_number (sid : Z) (s : store) : option str :=
  match details_of sid s with
  | Some d => PhoneNumber d
  | None => None
  end.

(** The key constraints of the schema, and the bound that keeps the
    auto-assigned course identifiers fresh. *)
Record wf_store (s : store) : Prop := mk_wf
  { wf_student_pk : NoDup (map StudentID (students s));
    wf_details_pk : NoDup (map d_StudentID (details s));
    wf_course_pk : NoDup (map CourseID (courses s));
    wf_course_name :
      NoDup (map (fun c => coll_key (db_collation s) (CourseName c)) (courses s));
    wf_enrollment_pair : NoDup (enrollments s);
    wf_details_fk :
      forall d, In d (details s) -> has_student (d_StudentID d) s = true;
    wf_enrollment_fk :
      forall e, In e (enrollments s) ->
                has_student (sc_StudentID e) s = true
                /\ has_course (sc_CourseID e) s = true;
    wf_auto_increment :
      forall c, In c (courses s) -> (CourseID c < auto_increment s)%Z }.

(** The identifier [SELECT CourseID ... WHERE CourseName = name] finds first. *)
Definition course_id_of (name : str) (s : store) : Z :=
  hd 0%Z (select_course_id name s).

(** The store a statement leaves when it is sent on its own. *)
Definition apply_statement (st : statement) (s : store) : store :=
  run (execute st) s.

(** One round of the loop of [set_student_courses]: ensure the course, then
    insert the enrollment pair. *)
Definition enroll_one (sid : Z) (s : store) (c : str) : store :=
  let s1 := apply_statement (insert_ignore_course c) s in
  apply_statement (insert_ignore_student_course sid (course_id_of c s1)) s1.

(** The calls that change the store, and the stores they can produce from an
    empty one. *)
Inductive mutation :=
| EnsureCourse (name : str)
| SetStudentCourses (sid : Z) (csv : option str)
| UpsertStudentDetails (sid : Z) (phone : str) (csv : option str)
| InsertStudent (sid : Z) (name : str) (age : Z) (email phone : str) (csv : option str)
| UpdateStudent (sid : Z) (name : str) (age : Z) (email : str)
| DeleteStudent (sid : Z)
| CreateCourse (name : str)
| RenameCourse (cid : Z) (name : str)
| DeleteCourse (cid : Z).

Definition perform (op : mutation) : M unit :=
  match op with
  | EnsureCourse name => _ <- ensure_course name ;; ret tt
  | SetStudentCourses sid csv => set_student_courses sid csv
  | UpsertStudentDetails sid phone csv => upsert_student_details sid phone csv
  | InsertStudent sid name age email phone csv =>
      insert_student sid name age email phone csv
  | UpdateStudent sid name age email => update_student sid name age email
  | DeleteStudent sid => delete_student sid
  | CreateCourse name => create_course name
  | RenameCourse cid name => rename_course cid name
  | DeleteCourse cid => delete_course cid
  end.

Inductive reachable : store -> Prop :=
| reach_empty c : reachable (empty_store c)
| reach_step s op : reachable s -> reachable (run (perform op) s).

(** A computation that keeps the key constraints, whatever it returns. *)
Definition keeps_wf {A} (m : M A) : Prop :=
  forall s, wf_store s -> wf_store (run m s).

(** An enrollment row of a student with a course matching a name. *)
Definition enrolled_in_named (sid : Z) (c : str) (s : store) : Prop :=
  exists crow, In crow (courses s)
               /\ coll_key (db_collation s) (CourseName crow)
                  = coll_key (db_collation s) c
               /\ In (mkEnrollment sid (CourseID crow)) (enrollments s).

(** The rows of the join of [list_students] that come from one student. *)
Definition student_rows (s : store) (x : Student) : list joined_row :=
  left_join on_course
    (left_join on_enrollment (left_join on_details [x] (details s)) (enrollments s))
    (courses s).

(** The Courses column for a student: the aggregation over the names reached
    through the enrollment rows, or else the legacy field. *)
Definition courses_value (sid : Z) (s : store) : option str :=
  coalesce (nullif_empty (group_concat_distinct (db_collation s) (enrolled_names sid s)))
    (legacy_courses sid s).

(** The record [list_students] reports for a Student row. *)
Definition student_report (s : store) (x : Student) : student_row :=
  mkStudentRow (StudentID x) (Name x) (Age x) (Email x)
    (phone_number (StudentID x) s) (courses_value (StudentID x) s).

(** The distinct students enrolled in a course, and the record [list_courses]
    reports for a Course row. *)
Definition enrolled_students (cid : Z) (s : store) : list Z :=
  nodup Z.eq_dec
    (map sc_StudentID (filter (fun e => Z.eqb (sc_CourseID e) cid) (enrollments s))).

Definition course_report (s : store) (c : Course) : course_row :=
  mkCourseRow (CourseID c) (CourseName c)
    (Z.of_nat (List.length (enrolled_students (CourseID c) s))).

(** *** The invariant between the join table and the legacy field *)

(** Two lists of names are the same set up to case. *)
Definition fold_set_eq (a b : list str) : Prop :=
  forall k, In k (map casefold a) <-> In k (map casefold b).

(** The names the legacy CourseS field of a student implies. *)
Definition legacy_names (sid : Z) (s : store) : list str :=
  _normalize_courses (legacy_courses sid s).

(** The invariant for one student: the names reached through StudentCourse are,
    up to case and order, the names CourseS implies. *)
Definition in_sync (sid : Z) (s : store) : Prop :=
  fold_set_eq (enrolled_names sid s) (legacy_names sid s).

(** What a store shows of the fallback case, in which only the legacy field was
    ever set: the join table is empty. *)
Definition join_table_empty (s : store) : Prop := enrollments s = [].

(** Every Student row has its StudentDetails row. *)
Definition students_have_details (s : store) : Prop :=
  forall k, has_student k s = true -> has_details k s = true.

(** The two calls that edit a course row in place. *)
Definition course_edit (op : mutation) : bool :=
  match op with
  | RenameCourse _ _ | DeleteCourse _ => true
  | _ => false
  end.

(** The stores reachable without [rename_course] and [delete_course]. *)
Inductive reachable_without_course_edit : store -> Prop :=
| reach0_empty c : reachable_without_course_edit (empty_store c)
| reach0_step s op :
    reachable_without_course_edit s -> course_edit op = false ->
    reachable_without_course_edit (run (perform op) s).


(** * Properties *)

(** ** Strings *)

Lemma str_eqb_eq (a b : str) : str_eqb a b = true <-> a = b.
Proof.
  unfold str_eqb. destruct (list_eq_dec N.eq_dec a b); split; congruence.
Qed.

Lemma str_eqb_refl (a : str) : str_eqb a a = true.
Proof. now apply str_eqb_eq. Qed.

Lemma str_eqb_sym (a b : str) : str_eqb a b = str_eqb b a.
Proof.
  destruct (str_eqb a b) eqn:E, (str_eqb b a) eqn:F; trivial.
  - apply str_eqb_eq in E. subst. now rewrite str_eqb_refl in F.
  - apply str_eqb_eq in F. subst. now rewrite str_eqb_refl in E.
Qed.

Lemma str_eqb_neq (a b : str) : str_eqb a b = false <-> a <> b.
Proof.
  split.
  - intros E H. apply str_eqb_eq in H. congruence.
  - intros H. destruct (str_eqb a b) eqn:E; trivial. now apply str_eqb_eq in E.
Qed.

Lemma filter_twice {A} (f g : A -> bool) (l : list A) :
  filter f (filter g l) = filter (fun x => g x && f x) l.
Proof.
  induction l as [|x l IH]; simpl; trivial.
  destruct (g x); simpl; [destruct (f x)|]; now rewrite IH.
Qed.

Lemma filter_all {A} (f : A -> bool) (l : list A) :
  (forall x, In x l -> f x = true) -> filter f l = l.
Proof.
  induction l as [|x l IH]; simpl; intros H; trivial.
  rewrite (H x) by now left. f_equal. apply IH. intros; apply H; now right.
Qed.

Lemma dropwhile_suffix {A} (p : A -> bool) (l : list A) :
  exists pre, l = pre ++ dropwhile p l /\ forallb p pre = true.
Proof.
  induction l as [|x l [pre [E F]]]; simpl.
  - now exists [].
  - destruct (p x) eqn:Px.
    + exists (x :: pre). simpl. rewrite Px, F. split; [now f_equal | trivial].
    + now exists [].
Qed.

Lemma dropwhile_In {A} (p : A -> bool) (l : list A) (x : A) :
  In x (dropwhile p l) -> In x l.
Proof.
  destruct (dropwhile_suffix p l) as [pre [E _]]. intros H.
  rewrite E. apply in_or_app. now right.
Qed.

Lemma dropwhile_stop {A} (p : A -> bool) (l t : list A) (h : A) :
  p h = false -> dropwhile p (l ++ h :: t) = dropwhile p l ++ h :: t.
Proof.
  intros Ph. induction l as [|x l IH]; simpl.
  - now rewrite Ph.
  - destruct (p x); trivial.
Qed.

Lemma dropwhile_idem {A} (p : A -> bool) (l : list A) :
  dropwhile p (dropwhile p l) = dropwhile p l.
Proof.
  induction l as [|x l IH]; simpl; trivial.
  destruct (p x) eqn:Px; trivial. simpl. now rewrite Px.
Qed.

Lemma dropwhile_head {A} (p : A -> bool) (l : list A) :
  match dropwhile p l with
  | [] => True
  | h :: _ => p h = false
  end.
Proof.
  induction l as [|x l IH]; simpl; trivial.
  destruct (p x) eqn:Px; trivial.
Qed.

Lemma strip_In (s : str) (c : codepoint) : In c (strip s) -> In c s.
Proof.
  unfold strip, rstrip, lstrip. intros H.
  apply in_rev in H. apply dropwhile_In in H. apply in_rev in H.
  now apply dropwhile_In in H.
Qed.

Lemma rstrip_idem (s : str) : rstrip (rstrip s) = rstrip s.
Proof.
  unfold rstrip. now rewrite rev_involutive, dropwhile_idem.
Qed.

Lemma rstrip_keeps_head (h : codepoint) (r : str) :
  is_space h = false -> exists r', rstrip (h :: r) = h :: r'.
Proof.
  intros Hh. unfold rstrip. simpl.
  rewrite (dropwhile_stop is_space (rev r) [] h Hh).
  rewrite rev_app_distr. simpl. now eexists.
Qed.

Lemma strip_trimmed (s : str) : trimmed (strip s).
Proof.
  unfold trimmed, strip. split.
  - pose proof (dropwhile_head is_space s) as Hh.
    fold (lstrip s) in Hh. destruct (lstrip s) as [|h r].
    + reflexivity.
    + destruct (rstrip_keeps_head h r Hh) as [r' Er]. rewrite Er.
      unfold lstrip. simpl. now rewrite Hh.
  - apply rstrip_idem.
Qed.

Lemma strip_of_trimmed (t : str) : trimmed t -> strip t = t.
Proof.
  intros [L R]. unfold strip. now rewrite L.
Qed.

Lemma strip_idem (s : str) : strip (strip s) = strip s.
Proof. apply strip_of_trimmed, strip_trimmed. Qed.

Lemma strip_leading_space (t : str) : strip (32 :: t) = strip t.
Proof. reflexivity. Qed.

Lemma strip_nil : strip [] = [].
Proof. reflexivity. Qed.

(** *** [split] and [join] *)

Lemma split_not_nil (sep : codepoint) (s : str) : split sep s <> [].
Proof.
  destruct s as [|c r]; simpl; [discriminate|].
  destruct (c =? sep); [discriminate|].
  destruct (split sep r); discriminate.
Qed.

Lemma split_no_sep (sep : codepoint) (t : str) :
  ~ In sep t -> split sep t = [t].
Proof.
  induction t as [|c t IH]; simpl; intros H; trivial.
  destruct (N.eqb_spec c sep) as [->|_]; [tauto|].
  rewrite IH by tauto. reflexivity.
Qed.

Lemma split_app_sep (sep : codepoint) (t r : str) :
  ~ In sep t -> split sep (t ++ sep :: r) = t :: split sep r.
Proof.
  induction t as [|c t IH]; simpl; intros H.
  - now rewrite N.eqb_refl.
  - destruct (N.eqb_spec c sep) as [->|_]; [tauto|].
    rewrite IH by tauto. reflexivity.
Qed.

Lemma split_parts_no_sep (sep : codepoint) (s p : str) :
  In p (split sep s) -> ~ In sep p.
Proof.
  revert p. induction s as [|c s IH]; simpl; intros p H.
  - destruct H as [<-|[]]. simpl; tauto.
  - destruct (N.eqb_spec c sep) as [->|Hc].
    + destruct H as [<-|H]; [simpl; tauto | now apply IH].
    + destruct (split sep s) as [|t ts] eqn:E.
      * destruct H as [<-|[]]. simpl. intros [?|[]]. congruence.
      * destruct H as [<-|H].
        -- simpl. intros [?|?]; [congruence|]. apply (IH t); [now left | trivial].
        -- apply IH. now right.
Qed.

Lemma join_cons (sep x : str) (y : str) (r : list str) :
  join sep (x :: y :: r) = x ++ sep ++ join sep (y :: r).
Proof. reflexivity. Qed.

(** Splitting the comma-space rendering of comma-free names gives the names
    back, each but the first behind one space. *)
Lemma split_join (l : list str) :
  (forall t, In t l -> ~ In comma t) ->
  split comma (join comma_space l) =
  match l with
  | [] => [[]]
  | x :: r => x :: map (cons 32) r
  end.
Proof.
  induction l as [|x l IH]; intros H; trivial.
  destruct l as [|y r].
  - simpl. apply split_no_sep. apply H. now left.
  - rewrite join_cons. unfold comma_space at 1.
    change ([44; 32] ++ join comma_space (y :: r))
      with (comma :: 32 :: join comma_space (y :: r)).
    rewrite split_app_sep by (apply H; now left).
    f_equal.
    assert (E : split comma (32 :: join comma_space (y :: r))
                = match split comma (join comma_space (y :: r)) with
                  | [] => [[32]]
                  | t :: ts => (32 :: t) :: ts
                  end) by reflexivity.
    rewrite E, IH by (intros t Ht; apply H; now right).
    reflexivity.
Qed.

(** ** The course-list normalizer *)

Lemma normalize_step_fold (l : list str) (acc seen : list str) :
  fst (fold_left normalize_step l (acc, seen)) =
  acc ++ filter (fun p => negb (existsb (str_eqb (casefold p)) seen))
           (keep_first_seen (filter nonempty l)).
Proof.
  revert acc seen. induction l as [|x l IH]; intros acc seen.
  - simpl. now rewrite app_nil_r.
  - destruct x as [|c x]; [apply IH|].
    change (filter nonempty ((c :: x) :: l)) with ((c :: x) :: filter nonempty l).
    cbn [fold_left normalize_step keep_first_seen filter].
    destruct (existsb (str_eqb (casefold (c :: x))) seen) eqn:E.
    + cbn [negb]. rewrite IH. f_equal. rewrite filter_twice.
      apply filter_ext_in. intros y _.
      destruct (existsb (str_eqb (casefold y)) seen) eqn:F; cbn [negb];
        [now rewrite andb_false_r|]. rewrite andb_true_r.
      unfold same_fold. destruct (str_eqb (casefold (c :: x)) (casefold y)) eqn:G; trivial.
      apply str_eqb_eq in G. congruence.
    + cbn [negb]. rewrite IH, <- app_assoc. cbn [app]. do 2 f_equal.
      rewrite filter_twice. apply filter_ext. intros y. cbn [existsb].
      unfold same_fold. rewrite (str_eqb_sym (casefold y)).
      now rewrite negb_orb.
Qed.

Lemma normalize_keep_first_seen (courses : option str) :
  _normalize_courses courses = keep_first_seen (tokens courses).
Proof.
  unfold _normalize_courses, tokens. rewrite normalize_step_fold.
  cbn [app]. now apply filter_all.
Qed.

Lemma keep_first_seen_In (l : list str) (x : str) :
  In x (keep_first_seen l) -> In x l.
Proof.
  revert x. induction l as [|y l IH]; simpl; intros x H; trivial.
  destruct H as [->|H]; [now left|].
  apply filter_In in H. right. now apply IH.
Qed.


Lemma keep_first_seen_NoDup (l : list str) :
  NoDup (map casefold (keep_first_seen l)).
Proof.
  induction l as [|y l IH]; simpl; constructor.
  - intros H. apply in_map_iff in H. destruct H as [z [E H]].
    apply filter_In in H. destruct H as [_ H]. unfold same_fold in H.
    rewrite E, str_eqb_refl in H. discriminate.
  - clear -IH. induction (keep_first_seen l) as [|z k IHk]; simpl; [constructor|].
    inversion IH; subst.
    destruct (negb (same_fold y z)); simpl; [|now apply IHk].
    constructor; [|now apply IHk].
    intros H. apply in_map_iff in H. destruct H as [w [E H]].
    apply filter_In in H. destruct H as [H _].
    apply H1. rewrite <- E. now apply in_map.
Qed.


Lemma keep_first_seen_covers (l : list str) (x : str) :
  In x l -> exists y, In y (keep_first_seen l) /\ casefold y = casefold x.
Proof.
  induction l as [|z l IH]; simpl; intros H; [destruct H|].
  destruct H as [->|H]; [exists x; split; [now left | trivial]|].
  destruct (IH H) as [y [Hy E]].
  destruct (same_fold z y) eqn:F.
  - exists z. split; [now left|]. apply str_eqb_eq in F. congruence.
  - exists y. split; trivial. right. apply filter_In. split; trivial. now rewrite F.
Qed.

Lemma keep_first_seen_fixed (l : list str) :
  NoDup (map casefold l) -> keep_first_seen l = l.
Proof.
  induction l as [|x l IH]; simpl; intros H; trivial.
  inversion H as [|? ? Hx Hl]; subst. rewrite (IH Hl). f_equal.
  apply filter_all. intros y Hy. unfold same_fold.
  apply negb_true_iff, str_eqb_neq. intros E. apply Hx. rewrite E. now apply in_map.
Qed.

Lemma tokens_spec (courses : option str) (t : str) :
  In t (tokens courses) -> t <> [] /\ trimmed t /\ ~ In comma t.
Proof.
  unfold tokens. intros H. apply filter_In in H. destruct H as [H Ne].
  apply in_map_iff in H. destruct H as [p [<- Hp]].
  split; [|split].
  - intros E. rewrite E in Ne. discriminate.
  - apply strip_trimmed.
  - intros Hc. apply strip_In in Hc. now apply split_parts_no_sep in Hp.
Qed.

Lemma normalize_elements (courses : option str) (t : str) :
  In t (_normalize_courses courses) -> t <> [] /\ trimmed t /\ ~ In comma t.
Proof.
  rewrite normalize_keep_first_seen. intros H.
  apply keep_first_seen_In in H. now apply tokens_spec in H.
Qed.

Lemma normalize_NoDup (courses : option str) :
  NoDup (map casefold (_normalize_courses courses)).
Proof. rewrite normalize_keep_first_seen. apply keep_first_seen_NoDup. Qed.

(** Normalizing a list that is already normal, rendered as CSV. *)
Lemma tokens_of_join (l : list str) :
  (forall t, In t l -> t <> [] /\ trimmed t /\ ~ In comma t) ->
  tokens (Some (join comma_space l)) = l.
Proof.
  intros H. unfold tokens. rewrite split_join by (intros t Ht; now apply H).
  destruct l as [|x r]; trivial.
  cbn [map]. rewrite map_map.
  assert (Hx : strip x = x) by (apply strip_of_trimmed, H; now left).
  assert (Hr : map (fun t => strip (32 :: t)) r = r).
  { rewrite <- (map_id r) at 2. apply map_ext_in. intros t Ht.
    rewrite strip_leading_space. apply strip_of_trimmed, H. now right. }
  rewrite Hx, Hr. apply filter_all. intros t Ht.
  destruct (H t Ht) as [Ne _]. destruct t; [congruence | reflexivity].
Qed.


Lemma normalize_of_rendering (x : option str) :
  _normalize_courses (Some (normalize_to_csv x)) = _normalize_courses x.
Proof.
  unfold normalize_to_csv.
  rewrite (normalize_keep_first_seen (Some _)).
  rewrite tokens_of_join by apply normalize_elements.
  apply keep_first_seen_fixed, normalize_NoDup.
Qed.

(** C8. Normalization is idempotent through its own CSV rendering: normalizing
    the comma-space-joined rendering of a normalized list gives the list back. *)
Theorem normalize_idempotent (x : option str) :
  _normalize_courses (Some (normalize_to_csv x)) = _normalize_courses x
  /\ tokens (Some (normalize_to_csv x)) = _normalize_courses x.
Proof.
  split; [apply normalize_of_rendering|].
  unfold normalize_to_csv. apply tokens_of_join, normalize_elements.
Qed.

(** ** The statements keep the key constraints *)

Lemma existsb_Zeqb_map {A} (f : A -> Z) (k : Z) (l : list A) :
  existsb (fun x => Z.eqb (f x) k) l = true <-> In k (map f l).
Proof.
  rewrite existsb_exists, in_map_iff. split; intros [x [H1 H2]]; exists x.
  - apply Z.eqb_eq in H2. tauto.
  - split; [tauto|]. now apply Z.eqb_eq.
Qed.

Lemma has_student_In (sid : Z) (s : store) :
  has_student sid s = true <-> In sid (map StudentID (students s)).
Proof. apply existsb_Zeqb_map. Qed.

Lemma has_course_In (cid : Z) (s : store) :
  has_course cid s = true <-> In cid (map CourseID (courses s)).
Proof. apply existsb_Zeqb_map. Qed.

Lemma name_eqb_eq (c : collation) (a b : str) :
  name_eqb c a b = true <-> coll_key c a = coll_key c b.
Proof. apply str_eqb_eq. Qed.

Lemma name_eqb_refl (c : collation) (a : str) : name_eqb c a a = true.
Proof. apply str_eqb_refl. Qed.

Lemma has_course_named_In (name : str) (s : store) :
  has_course_named name s = true <->
  In (coll_key (db_collation s) name)
     (map (fun c => coll_key (db_collation s) (CourseName c)) (courses s)).
Proof.
  unfold has_course_named. rewrite existsb_exists, in_map_iff.
  split; intros [x [H1 H2]]; exists x.
  - apply name_eqb_eq in H2. tauto.
  - split; [tauto|]. now apply name_eqb_eq.
Qed.

Lemma NoDup_map_snoc {A B} (f : A -> B) (l : list A) (x : A) :
  NoDup (map f l) -> ~ In (f x) (map f l) -> NoDup (map f (l ++ [x])).
Proof.
  intros H Hx. rewrite map_app. simpl.
  apply NoDup_app; trivial.
  - repeat constructor. simpl; tauto.
  - intros y Hy [<-|[]]. tauto.
Qed.

(** Deleting rows keeps a key unique. *)
Lemma NoDup_map_filter {Row Key} (key : Row -> Key) (keep : Row -> bool)
  (rows : list Row) (Huniq : NoDup (map key rows)) :
  NoDup (map key (filter keep rows)).
Proof.
  induction rows as [|r rows IH]; simpl; trivial.
  simpl in Huniq. apply NoDup_cons_iff in Huniq. destruct Huniq as [Hr Hrows].
  destruct (keep r); simpl; [|now apply IH].
  constructor; [|now apply IH].
  intros Hin. apply Hr. apply in_map_iff in Hin. destruct Hin as [y [E Hy]].
  apply filter_In in Hy. rewrite <- E. apply in_map. tauto.
Qed.

Lemma map_key_update {A} (f : A -> Z) (k : Z) (g : A -> A) (l : list A) :
  (forall x, f x = k -> f (g x) = k) ->
  map f (map (fun x => if Z.eqb (f x) k then g x else x) l) = map f l.
Proof.
  intros H. rewrite map_map. apply map_ext. intros x.
  destruct (Z.eqb_spec (f x) k) as [E|_]; trivial. rewrite E. now apply H.
Qed.

Ltac store_simpl :=
  unfold cascade_student, cascade_course, has_details, has_enrollment in *;
  cbn [db_collation students details courses enrollments auto_increment
       with_students with_details with_courses with_enrollments
       with_auto_increment] in *.

Lemma wf_empty (c : collation) : wf_store (empty_store c).
Proof.
  constructor; simpl; try (now constructor); intros ? [].
Qed.

Lemma wf_insert_ignore_course (name : str) (s s' : store) :
  wf_store s -> insert_ignore_course name s = Ok s' -> wf_store s'.
Proof.
  intros W E. unfold insert_ignore_course in E. injection E as <-.
  destruct (has_course_named name s) eqn:Hn; trivial.
  destruct W. constructor; store_simpl; trivial.
  - apply NoDup_map_snoc; trivial. simpl. intros Hin.
    apply in_map_iff in Hin. destruct Hin as [c [Ec Hc]].
    apply wf_auto_increment0 in Hc. lia.
  - apply NoDup_map_snoc; trivial. simpl. intros Hin.
    apply has_course_named_In in Hin. congruence.
  - intros e He. destruct (wf_enrollment_fk0 e He) as [H1 H2]. split; trivial.
    unfold has_course in *. store_simpl. rewrite existsb_app, H2. reflexivity.
  - intros c Hc. apply in_app_iff in Hc. destruct Hc as [Hc|[<-|[]]].
    + apply wf_auto_increment0 in Hc. lia.
    + simpl. lia.
Qed.

Lemma wf_delete_student_courses (sid : Z) (s s' : store) :
  wf_store s -> delete_student_courses sid s = Ok s' -> wf_store s'.
Proof.
  intros W E. injection E as <-. destruct W. constructor; store_simpl; trivial.
  - now apply NoDup_filter.
  - intros e He. apply filter_In in He. now apply wf_enrollment_fk0.
Qed.

Lemma wf_insert_ignore_student_course (sid cid : Z) (s s' : store) :
  wf_store s -> insert_ignore_student_course sid cid s = Ok s' -> wf_store s'.
Proof.
  intros W E. unfold insert_ignore_student_course in E. injection E as <-.
  destruct (has_enrollment sid cid s) eqn:Hd; [trivial|].
  unfold has_enrollment in Hd.
  destruct (has_student sid s) eqn:Hs; [|trivial].
  destruct (has_course cid s) eqn:Hc; [|trivial].
  cbn [orb negb]. destruct W. constructor; store_simpl; trivial.
  - apply NoDup_app; trivial.
    + repeat constructor. simpl; tauto.
    + intros e He [<-|[]].
      assert (X : existsb (fun e => Z.eqb (sc_StudentID e) sid && Z.eqb (sc_CourseID e) cid)
                    (enrollments s) = true).
      { apply existsb_exists. eexists. split; [exact He|]. simpl.
        now rewrite !Z.eqb_refl. }
      congruence.
  - intros e He. apply in_app_iff in He. destruct He as [He|[<-|[]]].
    + now apply wf_enrollment_fk0.
    + simpl. tauto.
Qed.

Lemma wf_update_details_courses (csv : str) (sid : Z) (s s' : store) :
  wf_store s -> update_details_courses csv sid s = Ok s' -> wf_store s'.
Proof.
  intros W E. injection E as <-. destruct W. constructor; store_simpl; trivial.
  - rewrite (map_key_update d_StudentID sid
               (fun d => mkDetails (d_StudentID d) (PhoneNumber d) (Some csv))); trivial.
  - intros d Hd. apply in_map_iff in Hd. destruct Hd as [d0 [<- Hd0]].
    apply wf_details_fk0 in Hd0.
    destruct (Z.eqb (d_StudentID d0) sid); trivial.
Qed.

Lemma wf_upsert_details (sid : Z) (phone csv : option str) (s s' : store) :
  wf_store s -> upsert_details sid phone csv s = Ok s' -> wf_store s'.
Proof.
  intros W E. unfold upsert_details in E.
  destruct (has_details sid s) eqn:Hd.
  - injection E as <-. destruct W. constructor; store_simpl; trivial.
    + rewrite (map_key_update d_StudentID sid (fun _ => mkDetails sid phone csv)); trivial.
    + intros d Hin. apply in_map_iff in Hin. destruct Hin as [d0 [<- Hd0]].
      apply wf_details_fk0 in Hd0.
      destruct (Z.eqb_spec (d_StudentID d0) sid) as [Ed|_]; trivial.
      simpl. now rewrite <- Ed.
  - destruct (has_student sid s) eqn:Hs; [|discriminate].
    injection E as <-. destruct W. constructor; store_simpl; trivial.
    + apply NoDup_map_snoc; trivial. simpl. intros Hin.
      apply existsb_Zeqb_map in Hin. congruence.
    + intros d Hin. apply in_app_iff in Hin. destruct Hin as [Hin|[<-|[]]].
      * now apply wf_details_fk0.
      * exact Hs.
Qed.

Lemma wf_insert_student_row sid name age email (s s' : store) :
  wf_store s -> insert_student_row sid name age email s = Ok s' -> wf_store s'.
Proof.
  intros W E. unfold insert_student_row in E.
  destruct (has_student sid s) eqn:Hs; [discriminate|].
  injection E as <-. destruct W. constructor; store_simpl; trivial.
  - apply NoDup_map_snoc; trivial. simpl. intros Hin.
    apply has_student_In in Hin. congruence.
  - intros d Hd. apply wf_details_fk0 in Hd.
    unfold has_student in *. store_simpl. now rewrite existsb_app, Hd.
  - intros e He. destruct (wf_enrollment_fk0 e He) as [H1 H2]. split; trivial.
    unfold has_student in *. store_simpl. now rewrite existsb_app, H1.
Qed.

Lemma has_student_update name age email sid k (s : store) :
  has_student k
    (with_students
       (map (fun x => if Z.eqb (StudentID x) sid
                      then mkStudent sid name age email else x) (students s)) s)
  = has_student k s.
Proof.
  destruct (has_student k s) eqn:H.
  - apply has_student_In. apply has_student_In in H. store_simpl.
    now rewrite (map_key_update StudentID sid (fun _ => mkStudent sid name age email)).
  - destruct (has_student k (with_students _ s)) eqn:H'; trivial.
    apply has_student_In in H'. store_simpl.
    rewrite (map_key_update StudentID sid (fun _ => mkStudent sid name age email)) in H';
      trivial.
    apply has_student_In in H'. congruence.
Qed.

Lemma wf_update_student_row name age email sid (s s' : store) :
  wf_store s -> update_student_row name age email sid s = Ok s' -> wf_store s'.
Proof.
  intros W E. injection E as <-. destruct W. constructor; trivial.
  - store_simpl.
    now rewrite (map_key_update StudentID sid (fun _ => mkStudent sid name age email)).
  - intros d Hd. rewrite has_student_update. now apply wf_details_fk0.
  - intros e He. rewrite has_student_update. now apply wf_enrollment_fk0.
Qed.

Lemma existsb_filter_other {A} (f : A -> Z) (sid k : Z) (l : list A) :
  k <> sid ->
  existsb (fun x => Z.eqb (f x) k) (filter (fun x => negb (Z.eqb (f x) sid)) l)
  = existsb (fun x => Z.eqb (f x) k) l.
Proof.
  intros Hk. induction l as [|x l IH]; simpl; trivial.
  destruct (Z.eqb_spec (f x) sid) as [E|_]; simpl.
  - rewrite IH. destruct (Z.eqb_spec (f x) k); [congruence | reflexivity].
  - now rewrite IH.
Qed.

Lemma wf_delete_student_row sid (s s' : store) :
  wf_store s -> delete_student_row sid s = Ok s' -> wf_store s'.
Proof.
  intros W E. injection E as <-. destruct W. constructor; store_simpl; trivial.
  - now apply NoDup_map_filter.
  - now apply NoDup_map_filter.
  - now apply NoDup_filter.
  - intros d Hd. apply filter_In in Hd. destruct Hd as [Hd Hne].
    unfold has_student. store_simpl. rewrite existsb_filter_other.
    + now apply wf_details_fk0.
    + apply negb_true_iff, Z.eqb_neq in Hne. trivial.
  - intros e He. apply filter_In in He. destruct He as [He Hne].
    destruct (wf_enrollment_fk0 e He) as [H1 H2]. split; trivial.
    unfold has_student. store_simpl. rewrite existsb_filter_other; trivial.
    now apply negb_true_iff, Z.eqb_neq in Hne.
Qed.

Lemma wf_delete_course_row cid (s s' : store) :
  wf_store s -> delete_course_row cid s = Ok s' -> wf_store s'.
Proof.
  intros W E. injection E as <-. destruct W. constructor; store_simpl; trivial.
  - now apply NoDup_map_filter.
  - now apply (NoDup_map_filter (fun c => coll_key (db_collation s) (CourseName c))).
  - now apply NoDup_filter.
  - intros e He. apply filter_In in He. destruct He as [He Hne].
    destruct (wf_enrollment_fk0 e He) as [H1 H2]. split; trivial.
    unfold has_course. store_simpl. rewrite existsb_filter_other; trivial.
    now apply negb_true_iff, Z.eqb_neq in Hne.
  - intros c Hc. apply filter_In in Hc. now apply wf_auto_increment0.
Qed.

Lemma map_update_absent {A} (f : A -> Z) (k : Z) (g : A -> A) (l : list A) :
  ~ In k (map f l) ->
  map (fun x => if Z.eqb (f x) k then g x else x) l = l.
Proof.
  induction l as [|x l IH]; simpl; intros H; trivial.
  destruct (Z.eqb_spec (f x) k) as [E|_]; [tauto|]. f_equal. apply IH. tauto.
Qed.

Lemma rename_keeps_names (c : collation) (cid : Z) (name : str) (l : list Course) :
  NoDup (map CourseID l) ->
  NoDup (map (fun x => coll_key c (CourseName x)) l) ->
  (forall x, In x l -> CourseID x <> cid ->
             coll_key c (CourseName x) <> coll_key c name) ->
  NoDup (map (fun x => coll_key c (CourseName x))
           (map (fun x => if Z.eqb (CourseID x) cid then mkCourse cid name else x) l)).
Proof.
  induction l as [|x l IH]; simpl; intros Hid Hn Hother; trivial.
  inversion Hid as [|? ? Hx Hl]; subst. inversion Hn as [|? ? Hnx Hnl]; subst.
  destruct (Z.eqb_spec (CourseID x) cid) as [E|NE].
  - rewrite map_update_absent by congruence. simpl. constructor; trivial.
    intros Hin. apply in_map_iff in Hin. destruct Hin as [y [Ey Hy]].
    apply (Hother y); [now right | | trivial].
    intros Eid. apply Hx. rewrite E, <- Eid. now apply in_map.
  - constructor.
    + intros Hin. apply in_map_iff in Hin. destruct Hin as [y' [Ey Hy]].
      apply in_map_iff in Hy. destruct Hy as [y [<- Hy]].
      destruct (Z.eqb (CourseID y) cid).
      * simpl in Ey. apply (Hother x); [now left | trivial | congruence].
      * apply Hnx. rewrite <- Ey. now apply (in_map (fun x => coll_key c (CourseName x))).
    + apply IH; trivial. intros y Hy. apply Hother. now right.
Qed.

Lemma wf_update_course_name name cid (s s' : store) :
  wf_store s -> update_course_name name cid s = Ok s' -> wf_store s'.
Proof.
  intros W E. unfold update_course_name in E.
  destruct (has_course cid s) eqn:Hc.
  - destruct (existsb _ (courses s)) eqn:Hdup; [discriminate|].
    cbn [andb] in E. injection E as <-. destruct W. constructor; store_simpl; trivial.
    + now rewrite (map_key_update CourseID cid (fun _ => mkCourse cid name)).
    + apply rename_keeps_names; trivial. intros x Hx Hid Hk.
      assert (X : existsb (fun c => negb (Z.eqb (CourseID c) cid)
                             && name_eqb (db_collation s) (CourseName c) name)
                    (courses s) = true).
      { apply existsb_exists. exists x. split; trivial.
        apply andb_true_iff. split.
        - now apply negb_true_iff, Z.eqb_neq.
        - now apply name_eqb_eq. }
      congruence.
    + intros e He. destruct (wf_enrollment_fk0 e He) as [H1 H2]. split; trivial.
      apply has_course_In. apply has_course_In in H2. store_simpl.
      now rewrite (map_key_update CourseID cid (fun _ => mkCourse cid name)).
    + intros c Hin. apply in_map_iff in Hin. destruct Hin as [c0 [<- Hc0]].
      destruct (Z.eqb_spec (CourseID c0) cid) as [Ed|_].
      * simpl. rewrite <- Ed. now apply wf_auto_increment0.
      * now apply wf_auto_increment0.
  - cbn [andb] in E. injection E as <-.
    assert (X : map (fun c => if Z.eqb (CourseID c) cid then mkCourse cid name else c)
                  (courses s) = courses s).
    { apply map_update_absent. intros Hin. apply has_course_In in Hin. congruence. }
    rewrite X. now destruct s.
Qed.

(** *** The computations keep the key constraints *)

Lemma bind_run {A B} (m : M A) (k : A -> M B) (s : store) :
  bind m k s = match result m s with
               | Ok a => k a (run m s)
               | Raise e => (Raise e, run m s)
               end.
Proof.
  unfold bind, result, run. destruct (m s) as [[a|e] s']; reflexivity.
Qed.

Lemma keeps_wf_ret {A} (a : A) : keeps_wf (ret a).
Proof. intros s W. exact W. Qed.

Lemma keeps_wf_raise {A} (e : error) : keeps_wf (@raise A e).
Proof. intros s W. exact W. Qed.

Lemma keeps_wf_bind {A B} (m : M A) (k : A -> M B) :
  keeps_wf m -> (forall a, keeps_wf (k a)) -> keeps_wf (bind m k).
Proof.
  intros Hm Hk s W. unfold run. rewrite bind_run.
  destruct (result m s); simpl.
  - apply Hk, Hm, W.
  - apply Hm, W.
Qed.

Lemma keeps_wf_execute (st : statement) :
  (forall s s', wf_store s -> st s = Ok s' -> wf_store s') -> keeps_wf (execute st).
Proof.
  intros H s W. unfold run, execute. destruct (st s) eqn:E; simpl; eauto.
Qed.

Lemma keeps_wf_fetch_one {A} (q : store -> list A) : keeps_wf (fetch_one q).
Proof. intros s W. exact W. Qed.

Lemma keeps_wf_for_each {A} (l : list A) (body : A -> M unit) :
  (forall a, keeps_wf (body a)) -> keeps_wf (for_each l body).
Proof.
  intros H. induction l as [|a l IH]; simpl.
  - apply keeps_wf_ret.
  - apply keeps_wf_bind; auto.
Qed.

Lemma keeps_wf_ensure_course (name : str) : keeps_wf (ensure_course name).
Proof.
  unfold ensure_course, ensure_course_with. apply keeps_wf_bind.
  - apply keeps_wf_execute, wf_insert_ignore_course.
  - intros _. apply keeps_wf_bind; [apply keeps_wf_fetch_one|].
    intros [cid|]; [apply keeps_wf_ret | apply keeps_wf_raise].
Qed.

Lemma keeps_wf_set_student_courses sid csv : keeps_wf (set_student_courses sid csv).
Proof.
  unfold set_student_courses. apply keeps_wf_bind.
  - apply keeps_wf_execute, wf_delete_student_courses.
  - intros _. apply keeps_wf_bind.
    + apply keeps_wf_for_each. intros c. apply keeps_wf_bind.
      * apply keeps_wf_ensure_course.
      * intros cid. apply keeps_wf_execute, wf_insert_ignore_student_course.
    + intros _. apply keeps_wf_execute, wf_update_details_courses.
Qed.

Lemma keeps_wf_upsert_student_details sid phone csv :
  keeps_wf (upsert_student_details sid phone csv).
Proof.
  unfold upsert_student_details. apply keeps_wf_bind.
  - apply keeps_wf_execute, wf_upsert_details.
  - intros _. apply keeps_wf_set_student_courses.
Qed.

Lemma keeps_wf_perform (op : mutation) : keeps_wf (perform op).
Proof.
  destruct op; simpl.
  - apply keeps_wf_bind; [apply keeps_wf_ensure_course | intros; apply keeps_wf_ret].
  - apply keeps_wf_set_student_courses.
  - apply keeps_wf_upsert_student_details.
  - unfold insert_student. apply keeps_wf_bind.
    + apply keeps_wf_execute, wf_insert_student_row.
    + intros _. apply keeps_wf_upsert_student_details.
  - apply keeps_wf_execute, wf_update_student_row.
  - apply keeps_wf_execute, wf_delete_student_row.
  - unfold create_course.
    apply keeps_wf_bind; [apply keeps_wf_ensure_course | intros; apply keeps_wf_ret].
  - apply keeps_wf_execute, wf_update_course_name.
  - apply keeps_wf_execute, wf_delete_course_row.
Qed.

Lemma reachable_wf (s : store) : reachable s -> wf_store s.
Proof.
  induction 1 as [c|s op _ IH]; [apply wf_empty | now apply keeps_wf_perform].
Qed.

(** ** What [ensure_course] and [set_student_courses] do to the store *)

Lemma existsb_filter_hd {A} (p : A -> bool) (l : list A) :
  existsb p l = true ->
  exists x rest, filter p l = x :: rest /\ In x l /\ p x = true.
Proof.
  induction l as [|y l IH]; simpl; [discriminate|].
  destruct (p y) eqn:Py; simpl; intros H.
  - exists y, (filter p l). auto.
  - destruct (IH H) as [x [rest [E [Hin Px]]]]. exists x, rest. auto.
Qed.

Lemma filter_none {A} (p : A -> bool) (l : list A) :
  existsb p l = false -> filter p l = [].
Proof.
  induction l as [|y l IH]; simpl; trivial.
  destruct (p y); simpl; [discriminate | exact IH].
Qed.

Lemma NoDup_map_inj_in {A B} (f : A -> B) (l : list A) (x y : A) :
  NoDup (map f l) -> In x l -> In y l -> f x = f y -> x = y.
Proof.
  induction l as [|z l IH]; simpl; intros H Hx Hy E; [destruct Hx|].
  inversion H as [|? ? Hz Hl]; subst.
  destruct Hx as [->|Hx], Hy as [->|Hy]; trivial.
  - exfalso. apply Hz. rewrite E. now apply in_map.
  - exfalso. apply Hz. rewrite <- E. now apply in_map.
  - now apply IH.
Qed.

Lemma execute_ok (st : statement) (s s' : store) :
  st s = Ok s' -> execute st s = (Ok tt, s').
Proof. unfold execute. now intros ->. Qed.

Lemma apply_insert_ignore_course (name : str) (s : store) :
  apply_statement (insert_ignore_course name) s =
  if has_course_named name s then s
  else with_auto_increment (auto_increment s + 1)
         (with_courses (courses s ++ [mkCourse (auto_increment s) name]) s).
Proof. reflexivity. Qed.

Lemma apply_insert_ignore_student_course (sid cid : Z) (s : store) :
  apply_statement (insert_ignore_student_course sid cid) s =
  if has_enrollment sid cid s
     || negb (has_student sid s) || negb (has_course cid s)
  then s
  else with_enrollments (enrollments s ++ [mkEnrollment sid cid]) s.
Proof. reflexivity. Qed.

(** The course row a name selects, once a course of that name exists. *)
Lemma course_id_of_row (name : str) (s : store) :
  has_course_named name s = true ->
  exists crow, In crow (courses s)
               /\ coll_key (db_collation s) (CourseName crow)
                  = coll_key (db_collation s) name
               /\ CourseID crow = course_id_of name s.
Proof.
  intros H. unfold has_course_named in H.
  destruct (existsb_filter_hd _ _ H) as [crow [rest [E [Hin Hk]]]].
  exists crow. split; trivial. split; [now apply name_eqb_eq|].
  unfold course_id_of, select_course_id. now rewrite E.
Qed.

Lemma has_course_named_after_insert (name : str) (s : store) :
  has_course_named name (apply_statement (insert_ignore_course name) s) = true.
Proof.
  rewrite apply_insert_ignore_course.
  destruct (has_course_named name s) eqn:H; trivial.
  unfold has_course_named. store_simpl.
  rewrite existsb_app. simpl. now rewrite name_eqb_refl, orb_true_r.
Qed.

Lemma select_after_insert (name : str) (s : store) :
  let s1 := apply_statement (insert_ignore_course name) s in
  hd_error (select_course_id name s1) = Some (course_id_of name s1).
Proof.
  intros s1. pose proof (has_course_named_after_insert name s) as H.
  fold s1 in H. unfold has_course_named in H.
  destruct (existsb_filter_hd _ _ H) as [crow [rest [E _]]].
  unfold course_id_of, select_course_id. now rewrite E.
Qed.

Lemma ensure_course_run (name : str) (s : store) :
  let s1 := apply_statement (insert_ignore_course name) s in
  ensure_course name s = (Ok (course_id_of name s1), s1).
Proof.
  intros s1. unfold ensure_course, ensure_course_with, bind, execute, fetch_one. simpl.
  fold (apply_statement (insert_ignore_course name) s). fold s1.
  pose proof (select_after_insert name s) as H. fold s1 in H.
  change (if has_course_named name s then s
          else with_auto_increment (auto_increment s + 1)
                 (with_courses (courses s ++ [mkCourse (auto_increment s) name]) s))
    with s1.
  now rewrite H.
Qed.

Lemma enroll_body_run (sid : Z) (c : str) (s : store) :
  (cid <- ensure_course c ;; execute (insert_ignore_student_course sid cid)) s
  = (Ok tt, enroll_one sid s c).
Proof.
  unfold bind. rewrite ensure_course_run. reflexivity.
Qed.

Lemma enroll_loop_run (sid : Z) (l : list str) (s : store) :
  for_each l (fun c => cid <- ensure_course c ;;
                       execute (insert_ignore_student_course sid cid)) s
  = (Ok tt, fold_left (enroll_one sid) l s).
Proof.
  revert s. induction l as [|c l IH]; intros s; simpl; trivial.
  unfold bind at 1. rewrite enroll_body_run. apply IH.
Qed.

Lemma set_student_courses_run (sid : Z) (csv : option str) (s : store) :
  set_student_courses sid csv s =
  (Ok tt,
   apply_statement
     (update_details_courses (join comma_space (_normalize_courses csv)) sid)
     (fold_left (enroll_one sid) (_normalize_courses csv)
        (apply_statement (delete_student_courses sid) s))).
Proof.
  unfold set_student_courses, bind at 1. simpl.
  unfold bind at 1. rewrite enroll_loop_run. reflexivity.
Qed.

(** *** The enrollment loop *)

Lemma course_id_of_ext (name : str) (s s' : store) (new : list Course) :
  db_collation s' = db_collation s ->
  courses s' = courses s ++ new ->
  has_course_named name s = true ->
  course_id_of name s' = course_id_of name s.
Proof.
  intros Hc Hn H. unfold course_id_of, select_course_id. rewrite Hn, Hc, filter_app.
  unfold has_course_named in H.
  destruct (existsb_filter_hd _ _ H) as [crow [rest [E _]]]. now rewrite E.
Qed.

Lemma has_course_named_ext (name : str) (s s' : store) (new : list Course) :
  db_collation s' = db_collation s ->
  courses s' = courses s ++ new ->
  has_course_named name s = true ->
  has_course_named name s' = true.
Proof.
  intros Hc Hn H. unfold has_course_named in *. rewrite Hn, Hc, existsb_app, H.
  reflexivity.
Qed.

Lemma has_course_named_same (name : str) (s s' : store) :
  db_collation s' = db_collation s ->
  courses s' = courses s ->
  has_course_named name s' = has_course_named name s.
Proof. intros Hc Hn. unfold has_course_named. now rewrite Hn, Hc. Qed.

Lemma enroll_one_effect (sid : Z) (c : str) (s : store) :
  wf_store s -> has_student sid s = true -> ~ enrolled_in_named sid c s ->
  let s2 := enroll_one sid s c in
  wf_store s2
  /\ db_collation s2 = db_collation s
  /\ students s2 = students s
  /\ details s2 = details s
  /\ (exists new, courses s2 = courses s ++ new
                  /\ (has_course_named c s = true ->
                      new = [] /\ auto_increment s2 = auto_increment s))
  /\ enrollments s2 = enrollments s ++ [mkEnrollment sid (course_id_of c s2)]
  /\ has_course_named c s2 = true.
Proof.
  intros W Hs Hfree s2.
  assert (W2 : wf_store s2).
  { unfold s2, enroll_one, apply_statement.
    apply (keeps_wf_execute _ (wf_insert_ignore_student_course _ _)).
    apply (keeps_wf_execute _ (wf_insert_ignore_course _)). exact W. }
  split; [exact W2|].
  set (s1 := apply_statement (insert_ignore_course c) s).
  assert (H1 : db_collation s1 = db_collation s /\ students s1 = students s
               /\ details s1 = details s /\ enrollments s1 = enrollments s
               /\ exists new, courses s1 = courses s ++ new
                   /\ (has_course_named c s = true ->
                       new = [] /\ auto_increment s1 = auto_increment s)).
  { unfold s1. rewrite apply_insert_ignore_course.
    destruct (has_course_named c s) eqn:Hn.
    - repeat split; trivial. exists []. now rewrite app_nil_r.
    - repeat split; trivial. eexists. split; [reflexivity | discriminate]. }
  destruct H1 as [Hc1 [Hst1 [Hd1 [He1 [new [Hn1 Hnew]]]]]].
  assert (Hnamed : has_course_named c s1 = true)
    by apply has_course_named_after_insert.
  destruct (course_id_of_row c s1 Hnamed) as [crow [Hin [Hk Hid]]].
  assert (W1 : wf_store s1).
  { apply (keeps_wf_execute _ (wf_insert_ignore_course c)). exact W. }
  assert (Hnot : has_enrollment sid (course_id_of c s1) s1 = false).
  { destruct (has_enrollment sid (course_id_of c s1) s1) eqn:X; trivial. exfalso.
    apply existsb_exists in X. destruct X as [e [He Hm]].
    apply andb_true_iff in Hm. destruct Hm as [Hm1 Hm2].
    apply Z.eqb_eq in Hm1, Hm2. rewrite He1 in He.
    destruct (wf_enrollment_fk s W e He) as [_ Hfk].
    apply has_course_In, in_map_iff in Hfk. destruct Hfk as [crow0 [E0 Hin0]].
    assert (crow0 = crow).
    { apply (NoDup_map_inj_in CourseID (courses s1)); [apply W1 | | trivial | congruence].
      rewrite Hn1. apply in_or_app. now left. }
    subst crow0. apply Hfree. exists crow. rewrite Hc1 in Hk.
    repeat split; trivial.
    destruct e as [a b]. simpl in *. subst a. rewrite Hid, <- Hm2. exact He. }
  assert (Hhas : has_student sid s1 = true).
  { unfold has_student. now rewrite Hst1. }
  assert (Hhc : has_course (course_id_of c s1) s1 = true).
  { apply has_course_In. rewrite <- Hid. now apply in_map. }
  assert (E2 : s2 = with_enrollments
                      (enrollments s1 ++ [mkEnrollment sid (course_id_of c s1)]) s1).
  { unfold s2, enroll_one. fold s1. rewrite apply_insert_ignore_student_course.
    now rewrite Hnot, Hhas, Hhc. }
  rewrite E2. store_simpl. repeat split; trivial.
  - now exists new.
  - now rewrite He1.
Qed.

Lemma enroll_one_no_student (sid : Z) (c : str) (s : store) :
  has_student sid s = false ->
  let s2 := enroll_one sid s c in
  has_student sid s2 = false /\ enrollments s2 = enrollments s
  /\ db_collation s2 = db_collation s /\ students s2 = students s
  /\ details s2 = details s
  /\ exists new, courses s2 = courses s ++ new.
Proof.
  intros Hs s2. unfold s2, enroll_one.
  set (s1 := apply_statement (insert_ignore_course c) s).
  assert (H1 : db_collation s1 = db_collation s /\ students s1 = students s
               /\ details s1 = details s /\ enrollments s1 = enrollments s
               /\ exists new, courses s1 = courses s ++ new).
  { unfold s1. rewrite apply_insert_ignore_course.
    destruct (has_course_named c s).
    - repeat split; trivial. exists []. now rewrite app_nil_r.
    - repeat split; trivial. eexists. reflexivity. }
  destruct H1 as [Hc1 [Hst1 [Hd1 [He1 Hn1]]]].
  assert (Hhas : has_student sid s1 = false).
  { unfold has_student. now rewrite Hst1. }
  rewrite apply_insert_ignore_student_course, Hhas.
  rewrite orb_true_r. cbn [orb negb].
  repeat split; trivial.
Qed.

Lemma enroll_loop_no_student (sid : Z) (l : list str) (s : store) :
  has_student sid s = false ->
  let s' := fold_left (enroll_one sid) l s in
  enrollments s' = enrollments s
  /\ db_collation s' = db_collation s /\ students s' = students s
  /\ details s' = details s
  /\ exists new, courses s' = courses s ++ new.
Proof.
  revert s. induction l as [|c l IH]; intros s Hs; simpl.
  - repeat split; trivial. exists []. now rewrite app_nil_r.
  - destruct (enroll_one_no_student sid c s Hs) as [H2 [He [Hc [Hst [Hd [new Hn]]]]]].
    destruct (IH _ H2) as [He' [Hc' [Hst' [Hd' [new' Hn']]]]].
    repeat split; try congruence.
    exists (new ++ new'). now rewrite Hn', Hn, app_assoc.
Qed.

Lemma enroll_loop_effect (sid : Z) (l : list str) (s : store) :
  wf_store s -> has_student sid s = true ->
  NoDup (map (coll_key (db_collation s)) l) ->
  (forall c, In c l -> ~ enrolled_in_named sid c s) ->
  let s' := fold_left (enroll_one sid) l s in
  wf_store s'
  /\ db_collation s' = db_collation s
  /\ students s' = students s
  /\ details s' = details s
  /\ (exists new, courses s' = courses s ++ new
                  /\ ((forall c, In c l -> has_course_named c s = true) ->
                      new = [] /\ auto_increment s' = auto_increment s))
  /\ enrollments s' =
     enrollments s ++ map (fun c => mkEnrollment sid (course_id_of c s')) l
  /\ (forall c, In c l -> has_course_named c s' = true).
Proof.
  revert s. induction l as [|c0 l IH]; intros s W Hs Hnd Hfree; simpl.
  - split; [exact W|]. do 3 (split; [reflexivity|]). split; [|split].
    + exists []. rewrite app_nil_r. auto.
    + now rewrite app_nil_r.
    + intros c [].
  - destruct (enroll_one_effect sid c0 s W Hs (Hfree c0 (or_introl eq_refl)))
      as [W2 [Hc2 [Hst2 [Hd2 [[new [Hn2 Hnew2]] [He2 Hnamed2]]]]]].
    set (s2 := enroll_one sid s c0) in *.
    inversion Hnd as [|? ? Hc0 Hl]; subst.
    assert (Hs2 : has_student sid s2 = true).
    { unfold has_student. now rewrite Hst2. }
    assert (Hfree2 : forall c, In c l -> ~ enrolled_in_named sid c s2).
    { intros c Hc [crow [Hin [Hk He]]].
      rewrite He2 in He. apply in_app_iff in He. destruct He as [He|[He|[]]].
      - destruct (wf_enrollment_fk s W _ He) as [_ Hfk]. simpl in Hfk.
        apply has_course_In, in_map_iff in Hfk. destruct Hfk as [crow0 [E0 Hin0]].
        assert (crow0 = crow).
        { apply (NoDup_map_inj_in CourseID (courses s2)); [apply W2 | | trivial | trivial].
          rewrite Hn2. apply in_or_app. now left. }
        subst crow0. apply (Hfree c (or_intror Hc)). exists crow.
        rewrite Hc2 in Hk. auto.
      - destruct (course_id_of_row c0 s2 Hnamed2) as [crow0 [Hin0 [Hk0 Hid0]]].
        assert (crow0 = crow).
        { apply (NoDup_map_inj_in CourseID (courses s2)); [apply W2 | trivial | trivial |].
          injection He as He. congruence. }
        subst crow0. apply Hc0. rewrite Hc2 in Hk, Hk0.
        rewrite <- Hk0, Hk. now apply in_map. }
    rewrite <- Hc2 in Hl.
    destruct (IH s2 W2 Hs2 Hl Hfree2)
      as [W' [Hc' [Hst' [Hd' [[new' [Hn' Hnew']] [He' Hnamed']]]]]].
    set (s' := fold_left (enroll_one sid) l s2) in *.
    split; [exact W'|]. do 3 (split; [congruence|]). split; [|split].
    + exists (new ++ new'). split; [now rewrite Hn', Hn2, app_assoc|].
      intros Hall. destruct (Hnew2 (Hall c0 (or_introl eq_refl))) as [-> Ha2].
      rewrite app_nil_r in Hn2.
      destruct Hnew' as [-> Ha'].
      * intros c Hc. rewrite (has_course_named_same c s s2); auto.
      * split; [reflexivity | congruence].
    + rewrite He', He2, <- app_assoc. simpl. do 3 f_equal.
      symmetry. now apply (course_id_of_ext c0 s2 s' new').
    + intros c [<-|Hc]; [|now apply Hnamed'].
      now apply (has_course_named_ext c0 s2 s' new').
Qed.

(** *** The whole of [set_student_courses] *)

Lemma normalize_NoDup_keys (c : collation) (csv : option str) :
  NoDup (map (coll_key c) (_normalize_courses csv)).
Proof.
  pose proof (normalize_NoDup csv) as H. destruct c; simpl; trivial.
  rewrite map_id. now apply NoDup_map_inv in H.
Qed.

Lemma filter_key_unique {A} (f : A -> Z) (l : list A) (x : A) :
  NoDup (map f l) -> In x l -> filter (fun y => Z.eqb (f y) (f x)) l = [x].
Proof.
  induction l as [|z l IH]; simpl; intros H Hx; [destruct Hx|].
  inversion H as [|? ? Hz Hl]; subst.
  destruct Hx as [->|Hx].
  - rewrite Z.eqb_refl. f_equal. apply filter_none.
    destruct (existsb _ l) eqn:X; trivial. exfalso. apply Hz.
    apply existsb_Zeqb_map in X. exact X.
  - destruct (Z.eqb_spec (f z) (f x)) as [E|_]; [|now apply IH].
    exfalso. apply Hz. rewrite E. now apply in_map.
Qed.

Lemma flat_map_ext_in {A B} (f g : A -> list B) (l : list A) :
  (forall a, In a l -> f a = g a) -> flat_map f l = flat_map g l.
Proof.
  induction l as [|x l IH]; simpl; intros H; trivial.
  rewrite (H x) by now left. f_equal. apply IH. intros; apply H; now right.
Qed.

Lemma filter_filter_other {A} (f : A -> Z) (a b : Z) (l : list A) :
  a <> b ->
  filter (fun x => Z.eqb (f x) a) (filter (fun x => negb (Z.eqb (f x) b)) l)
  = filter (fun x => Z.eqb (f x) a) l.
Proof.
  intros H. rewrite filter_twice. apply filter_ext. intros x.
  destruct (Z.eqb_spec (f x) b) as [E|_]; simpl; trivial.
  destruct (Z.eqb_spec (f x) a); [congruence | reflexivity].
Qed.

Lemma filter_filter_same {A} (f : A -> Z) (a : Z) (l : list A) :
  filter (fun x => Z.eqb (f x) a) (filter (fun x => negb (Z.eqb (f x) a)) l) = [].
Proof.
  rewrite filter_twice. induction l as [|x l IH]; simpl; trivial.
  destruct (Z.eqb (f x) a); simpl; exact IH.
Qed.

Lemma filter_negb_idem {A} (p : A -> bool) (l : list A) :
  filter (fun x => negb (p x)) (filter (fun x => negb (p x)) l)
  = filter (fun x => negb (p x)) l.
Proof.
  rewrite filter_twice. apply filter_ext. intros x. now destruct (p x).
Qed.

Lemma find_update {A} (f : A -> Z) (k k' : Z) (g : A -> A) (l : list A) :
  (forall x, f (g x) = f x) ->
  find (fun x => Z.eqb (f x) k') (map (fun x => if Z.eqb (f x) k then g x else x) l)
  = match find (fun x => Z.eqb (f x) k') l with
    | Some x => Some (if Z.eqb (f x) k then g x else x)
    | None => None
    end.
Proof.
  intros Hg. induction l as [|x l IH]; simpl; trivial.
  destruct (Z.eqb (f x) k) eqn:E; [rewrite Hg|];
    destruct (Z.eqb (f x) k'); rewrite ?E; trivial.
Qed.

Lemma details_of_some (sid : Z) (s : store) (d : StudentDetails) :
  details_of sid s = Some d -> d_StudentID d = sid /\ In d (details s).
Proof.
  intros H. apply find_some in H. destruct H as [H1 H2].
  now apply Z.eqb_eq in H2.
Qed.

(** The stored name a normalized name selects. *)
Lemma selected_course_names (c : str) (s : store) :
  wf_store s -> has_course_named c s = true ->
  exists n, course_names_of (course_id_of c s) s = [n]
            /\ coll_key (db_collation s) n = coll_key (db_collation s) c.
Proof.
  intros W H. destruct (course_id_of_row c s H) as [crow [Hin [Hk Hid]]].
  exists (CourseName crow). split; trivial.
  unfold course_names_of. rewrite <- Hid.
  now rewrite (filter_key_unique CourseID (courses s) crow (wf_course_pk s W) Hin).
Qed.

Lemma selected_names_keys (sid : Z) (l : list str) (s : store) :
  wf_store s -> (forall c, In c l -> has_course_named c s = true) ->
  map (coll_key (db_collation s))
    (flat_map (fun e => course_names_of (sc_CourseID e) s)
       (map (fun c => mkEnrollment sid (course_id_of c s)) l))
  = map (coll_key (db_collation s)) l.
Proof.
  intros W. induction l as [|c l IH]; intros H; simpl; trivial.
  destruct (selected_course_names c s W (H c (or_introl eq_refl))) as [n [E Hk]].
  rewrite E. simpl. rewrite Hk. f_equal. apply IH. intros; apply H; now right.
Qed.

Lemma course_names_of_ext (cid : Z) (s s' : store) (new : list Course) :
  wf_store s' -> courses s' = courses s ++ new -> has_course cid s = true ->
  course_names_of cid s' = course_names_of cid s.
Proof.
  intros W' Hn Hc. unfold course_names_of. rewrite Hn, filter_app.
  rewrite (filter_none _ new); [now rewrite app_nil_r|].
  destruct (existsb _ new) eqn:X; trivial. exfalso.
  apply existsb_Zeqb_map in X. apply has_course_In in Hc.
  pose proof (wf_course_pk s' W') as Hnd. rewrite Hn, map_app in Hnd.
  apply NoDup_app_remove_l in Hnd as Hnd2.
  clear Hnd2. revert Hnd Hc X. generalize (map CourseID (courses s)) (map CourseID new).
  intros a b Hnd Ha Hb. induction a as [|x a IH]; [destruct Ha|].
  simpl in Hnd. inversion Hnd as [|? ? Hx Hl]; subst.
  destruct Ha as [->|Ha]; [|now apply IH].
  apply Hx. apply in_or_app. now right.
Qed.

Lemma enrolled_names_frame (sid : Z) (s s' : store) (new : list Course) :
  wf_store s -> wf_store s' -> courses s' = courses s ++ new ->
  student_enrollments sid s' = student_enrollments sid s ->
  enrolled_names sid s' = enrolled_names sid s.
Proof.
  intros W W' Hn He. unfold enrolled_names. rewrite He.
  apply flat_map_ext_in. intros e Hin.
  apply (course_names_of_ext _ s s' new); trivial.
  apply filter_In in Hin. now apply (wf_enrollment_fk s W).
Qed.

Lemma set_student_courses_effect (sid : Z) (csv : option str) (s : store) :
  wf_store s -> has_student sid s = true ->
  let l := _normalize_courses csv in
  let s' := run (set_student_courses sid csv) s in
  wf_store s'
  /\ db_collation s' = db_collation s
  /\ students s' = students s
  /\ details s' =
     map (fun d => if Z.eqb (d_StudentID d) sid
                   then mkDetails (d_StudentID d) (PhoneNumber d)
                          (Some (join comma_space l))
                   else d) (details s)
  /\ (exists new, courses s' = courses s ++ new
                  /\ ((forall c, In c l -> has_course_named c s = true) ->
                      new = [] /\ auto_increment s' = auto_increment s))
  /\ enrollments s' =
     filter (fun e => negb (Z.eqb (sc_StudentID e) sid)) (enrollments s)
     ++ map (fun c => mkEnrollment sid (course_id_of c s')) l
  /\ (forall c, In c l -> has_course_named c s' = true).
Proof.
  intros W Hs l s'.
  assert (Es' : s' = apply_statement (update_details_courses (join comma_space l) sid)
                       (fold_left (enroll_one sid) l
                          (apply_statement (delete_student_courses sid) s))).
  { unfold s', run. now rewrite set_student_courses_run. }
  set (sd := apply_statement (delete_student_courses sid) s) in *.
  assert (Wd : wf_store sd).
  { apply (keeps_wf_execute _ (wf_delete_student_courses sid)). exact W. }
  assert (Hfree : forall c, In c l -> ~ enrolled_in_named sid c sd).
  { intros c _ [crow [_ [_ He]]]. unfold sd, apply_statement, run in He. simpl in He.
    apply filter_In in He. simpl in He. rewrite Z.eqb_refl in He. now destruct He. }
  destruct (enroll_loop_effect sid l sd Wd Hs (normalize_NoDup_keys _ csv) Hfree)
    as [W' [Hc' [Hst' [Hd' [Hn' [He' Hnamed']]]]]].
  set (sl := fold_left (enroll_one sid) l sd) in *.
  rewrite Es'. unfold apply_statement, run. simpl. store_simpl.
  split; [|split; [|split; [|split; [|split; [|split]]]]]; trivial.
  - apply (keeps_wf_execute _ (wf_update_details_courses (join comma_space l) sid) sl W').
  - now rewrite Hd'.
Qed.

Lemma set_student_courses_no_student (sid : Z) (csv : option str) (s : store) :
  has_student sid s = false ->
  let s' := run (set_student_courses sid csv) s in
  enrollments s' = filter (fun e => negb (Z.eqb (sc_StudentID e) sid)) (enrollments s)
  /\ db_collation s' = db_collation s /\ students s' = students s
  /\ details s' =
     map (fun d => if Z.eqb (d_StudentID d) sid
                   then mkDetails (d_StudentID d) (PhoneNumber d)
                          (Some (join comma_space (_normalize_courses csv)))
                   else d) (details s)
  /\ exists new, courses s' = courses s ++ new.
Proof.
  intros Hs s'. unfold s', run. rewrite set_student_courses_run. simpl.
  destruct (enroll_loop_no_student sid (_normalize_courses csv)
              (apply_statement (delete_student_courses sid) s) Hs)
    as [He [Hc [Hst [Hd Hn]]]].
  store_simpl. rewrite He, Hd. auto.
Qed.

(** *** What the synchronizer leaves alone, whatever the store *)

Lemma enroll_one_frame (sid : Z) (c : str) (s : store) :
  let s2 := enroll_one sid s c in
  db_collation s2 = db_collation s
  /\ students s2 = students s
  /\ details s2 = details s
  /\ (exists new, courses s2 = courses s ++ new
                  /\ (has_course_named c s = true ->
                      new = [] /\ auto_increment s2 = auto_increment s))
  /\ has_course_named c s2 = true.
Proof.
  intros s2. unfold s2, enroll_one.
  pose proof (has_course_named_after_insert c s) as Hnamed.
  set (s1 := apply_statement (insert_ignore_course c) s) in *.
  assert (H1 : db_collation s1 = db_collation s /\ students s1 = students s
               /\ details s1 = details s
               /\ exists new, courses s1 = courses s ++ new
                   /\ (has_course_named c s = true ->
                       new = [] /\ auto_increment s1 = auto_increment s)).
  { unfold s1. rewrite apply_insert_ignore_course.
    destruct (has_course_named c s) eqn:Hn.
    - repeat split; trivial. exists []. now rewrite app_nil_r.
    - repeat split; trivial. eexists. split; [reflexivity | discriminate]. }
  destruct H1 as [Hc1 [Hst1 [Hd1 Hn1]]].
  rewrite apply_insert_ignore_student_course.
  destruct (_ || _ || _); store_simpl; auto.
Qed.

Lemma enroll_loop_frame (sid : Z) (l : list str) (s : store) :
  let s' := fold_left (enroll_one sid) l s in
  db_collation s' = db_collation s
  /\ students s' = students s
  /\ details s' = details s
  /\ (exists new, courses s' = courses s ++ new
                  /\ ((forall c, In c l -> has_course_named c s = true) ->
                      new = [] /\ auto_increment s' = auto_increment s))
  /\ (forall c, In c l -> has_course_named c s' = true).
Proof.
  revert s. induction l as [|c0 l IH]; intros s; simpl.
  - do 3 (split; [reflexivity|]). split.
    + exists []. rewrite app_nil_r. auto.
    + intros c [].
  - destruct (enroll_one_frame sid c0 s) as [Hc2 [Hst2 [Hd2 [[new [Hn2 Hnew2]] Hnamed2]]]].
    set (s2 := enroll_one sid s c0) in *.
    destruct (IH s2) as [Hc' [Hst' [Hd' [[new' [Hn' Hnew']] Hnamed']]]].
    set (s' := fold_left (enroll_one sid) l s2) in *.
    do 3 (split; [congruence|]). split.
    + exists (new ++ new'). split; [now rewrite Hn', Hn2, app_assoc|].
      intros Hall. destruct (Hnew2 (Hall c0 (or_introl eq_refl))) as [-> Ha2].
      rewrite app_nil_r in Hn2.
      destruct Hnew' as [-> Ha'].
      * intros c Hc. rewrite (has_course_named_same c s s2); auto.
      * split; [reflexivity | congruence].
    + intros c [<-|Hc]; [|now apply Hnamed'].
      now apply (has_course_named_ext c0 s2 s' new').
Qed.

Lemma set_student_courses_frame (sid : Z) (csv : option str) (s : store) :
  let l := _normalize_courses csv in
  let s' := run (set_student_courses sid csv) s in
  result (set_student_courses sid csv) s = Ok tt
  /\ db_collation s' = db_collation s
  /\ students s' = students s
  /\ details s' =
     map (fun d => if Z.eqb (d_StudentID d) sid
                   then mkDetails (d_StudentID d) (PhoneNumber d)
                          (Some (join comma_space l))
                   else d) (details s)
  /\ (exists new, courses s' = courses s ++ new
                  /\ ((forall c, In c l -> has_course_named c s = true) ->
                      new = [] /\ auto_increment s' = auto_increment s))
  /\ (forall c, In c l -> has_course_named c s' = true).
Proof.
  intros l s'. unfold s', run, result. rewrite set_student_courses_run. cbn [fst snd].
  destruct (enroll_loop_frame sid l (apply_statement (delete_student_courses sid) s))
    as [Hc [Hst [Hd [Hn Hnamed]]]].
  fold l. set (sl := fold_left (enroll_one sid) l _) in *.
  split; [reflexivity|].
  change (apply_statement (update_details_courses (join comma_space l) sid) sl)
    with (with_details
            (map (fun d => if Z.eqb (d_StudentID d) sid
                           then mkDetails (d_StudentID d) (PhoneNumber d)
                                  (Some (join comma_space l))
                           else d) (details sl)) sl).
  store_simpl. rewrite Hd. auto.
Qed.

Lemma store_ext (a b : store) :
  db_collation a = db_collation b -> students a = students b ->
  details a = details b -> courses a = courses b ->
  enrollments a = enrollments b -> auto_increment a = auto_increment b -> a = b.
Proof. destruct a, b; simpl; intros; subst; reflexivity. Qed.

Lemma update_courses_twice (sid : Z) (v : option str) (l : list StudentDetails) :
  let upd := fun d => if Z.eqb (d_StudentID d) sid
                      then mkDetails (d_StudentID d) (PhoneNumber d) v else d in
  map upd (map upd l) = map upd l.
Proof.
  intros upd. rewrite map_map. apply map_ext. intros d. unfold upd.
  destruct (Z.eqb (d_StudentID d) sid) eqn:E; simpl; now rewrite E.
Qed.

Lemma filter_map_enrollments_other (sid : Z) (f : str -> Z) (l : list str) :
  filter (fun e => negb (Z.eqb (sc_StudentID e) sid))
    (map (fun c => mkEnrollment sid (f c)) l) = [].
Proof.
  induction l as [|c l IH]; simpl; trivial. now rewrite Z.eqb_refl.
Qed.

Lemma filter_map_enrollments_same (sid : Z) (f : str -> Z) (l : list str) :
  filter (fun e => Z.eqb (sc_StudentID e) sid)
    (map (fun c => mkEnrollment sid (f c)) l)
  = map (fun c => mkEnrollment sid (f c)) l.
Proof.
  induction l as [|c l IH]; simpl; trivial. now rewrite Z.eqb_refl, IH.
Qed.

Lemma course_id_of_same (c : str) (s s' : store) :
  db_collation s' = db_collation s -> courses s' = courses s ->
  course_id_of c s' = course_id_of c s.
Proof. intros Hc Hn. unfold course_id_of, select_course_id. now rewrite Hc, Hn. Qed.

(** Running the synchronizer again on its own result changes nothing. *)
Lemma set_student_courses_twice (sid : Z) (csv : option str) (s : store) :
  wf_store s ->
  run (set_student_courses sid csv) (run (set_student_courses sid csv) s)
  = run (set_student_courses sid csv) s.
Proof.
  intros W. set (s1 := run (set_student_courses sid csv) s).
  set (s2 := run (set_student_courses sid csv) s1).
  set (l := _normalize_courses csv).
  destruct (set_student_courses_frame sid csv s)
    as [_ [Hc1 [Hst1 [Hd1 [_ Hnamed1]]]]]. fold s1 l in Hc1, Hst1, Hd1, Hnamed1.
  destruct (set_student_courses_frame sid csv s1)
    as [_ [Hc2 [Hst2 [Hd2 [[new [Hn2 Hnew]] _]]]]].
  fold s2 l in Hc2, Hst2, Hd2, Hn2, Hnew.
  destruct (Hnew Hnamed1) as [-> Ha]. rewrite app_nil_r in Hn2.
  apply store_ext; trivial.
  - rewrite Hd2, Hd1. apply update_courses_twice.
  - destruct (has_student sid s) eqn:Hs.
    + destruct (set_student_courses_effect sid csv s W Hs) as [W1 [_ [_ [_ [_ [He1 _]]]]]].
      fold s1 l in W1, He1.
      assert (Hs1 : has_student sid s1 = true).
      { unfold has_student. now rewrite Hst1. }
      destruct (set_student_courses_effect sid csv s1 W1 Hs1) as [_ [_ [_ [_ [_ [He2 _]]]]]].
      fold s2 l in He2. rewrite He2. rewrite He1 at 1.
      rewrite filter_app, filter_negb_idem, filter_map_enrollments_other, app_nil_r.
      rewrite He1. f_equal. apply map_ext. intros c. f_equal.
      now apply course_id_of_same.
    + destruct (set_student_courses_no_student sid csv s Hs) as [He1 _]. fold s1 in He1.
      assert (Hs1 : has_student sid s1 = false).
      { unfold has_student. now rewrite Hst1. }
      destruct (set_student_courses_no_student sid csv s1 Hs1) as [He2 _]. fold s2 in He2.
      rewrite He2, He1. apply filter_negb_idem.
Qed.

(** *** The legacy field after a synchronization *)

Lemma details_of_updated (sid k : Z) (v : option str) (s s' : store) :
  details s' =
  map (fun d => if Z.eqb (d_StudentID d) sid
                then mkDetails (d_StudentID d) (PhoneNumber d) v else d) (details s) ->
  details_of k s' =
  match details_of k s with
  | Some d => Some (if Z.eqb (d_StudentID d) sid
                    then mkDetails (d_StudentID d) (PhoneNumber d) v else d)
  | None => None
  end.
Proof.
  intros H. unfold details_of. rewrite H.
  apply (find_update d_StudentID sid k
           (fun d => mkDetails (d_StudentID d) (PhoneNumber d) v)).
  reflexivity.
Qed.

Lemma legacy_after_sync (sid : Z) (csv : option str) (s : store) :
  let s' := run (set_student_courses sid csv) s in
  legacy_courses sid s' =
  match details_of sid s with
  | Some _ => Some (normalize_to_csv csv)
  | None => None
  end
  /\ phone_number sid s' = phone_number sid s
  /\ forall k, k <> sid ->
       legacy_courses k s' = legacy_courses k s
       /\ phone_number k s' = phone_number k s.
Proof.
  intros s'. destruct (set_student_courses_frame sid csv s) as [_ [_ [_ [Hd _]]]].
  fold s' in Hd. unfold legacy_courses, phone_number.
  split; [|split; [|intros k Hk]];
    rewrite !(details_of_updated sid _ _ s s' Hd).
  - destruct (details_of sid s) as [d|] eqn:E; trivial.
    apply details_of_some in E. destruct E as [E _].
    apply Z.eqb_eq in E. now rewrite E.
  - destruct (details_of sid s) as [d|]; trivial.
    now destruct (Z.eqb (d_StudentID d) sid).
  - destruct (details_of k s) as [d|] eqn:E; [|tauto].
    apply details_of_some in E. destruct E as [E _].
    destruct (Z.eqb_spec (d_StudentID d) sid); [congruence | tauto].
Qed.

Lemma student_enrollments_after_sync (sid : Z) (csv : option str) (s : store) :
  wf_store s -> has_student sid s = true ->
  let s' := run (set_student_courses sid csv) s in
  student_enrollments sid s' =
  map (fun c => mkEnrollment sid (course_id_of c s')) (_normalize_courses csv).
Proof.
  intros W Hs s'.
  destruct (set_student_courses_effect sid csv s W Hs) as [_ [_ [_ [_ [_ [He _]]]]]].
  fold s' in He. unfold student_enrollments. rewrite He, filter_app.
  rewrite filter_filter_same. apply filter_map_enrollments_same.
Qed.

Lemma student_enrollments_other_after_sync (sid k : Z) (csv : option str) (s : store) :
  wf_store s -> k <> sid ->
  student_enrollments k (run (set_student_courses sid csv) s) = student_enrollments k s.
Proof.
  intros W Hk. unfold student_enrollments.
  destruct (has_student sid s) eqn:Hs.
  - destruct (set_student_courses_effect sid csv s W Hs) as [_ [_ [_ [_ [_ [He _]]]]]].
    rewrite He, filter_app, filter_filter_other by trivial.
    rewrite (filter_none _ (map _ _)); [apply app_nil_r|]. clear He.
    induction (_normalize_courses csv) as [|c l IH]; simpl; trivial.
    destruct (Z.eqb_spec sid k); [congruence | exact IH].
  - destruct (set_student_courses_no_student sid csv s Hs) as [He _].
    rewrite He. now apply filter_filter_other.
Qed.

Lemma enrolled_names_after_sync (sid : Z) (csv : option str) (s : store) :
  wf_store s -> has_student sid s = true ->
  let s' := run (set_student_courses sid csv) s in
  map (coll_key (db_collation s)) (enrolled_names sid s')
  = map (coll_key (db_collation s)) (_normalize_courses csv).
Proof.
  intros W Hs s'.
  pose proof (student_enrollments_after_sync sid csv s W Hs) as He. fold s' in He.
  destruct (set_student_courses_effect sid csv s W Hs)
    as [W' [Hc [_ [_ [_ [_ Hnamed]]]]]]. fold s' in W', Hc, Hnamed.
  unfold enrolled_names. rewrite He, <- Hc.
  now apply selected_names_keys.
Qed.

(** ** The claims about the synchronizer *)


(** C7. Calling [set_student_courses] twice in succession with the same CSV
    leaves the enrollment rows of the student, the names reached through them
    and the legacy CourseS field as one call leaves them; in fact the whole
    store is the same, and neither call raises. *)
Theorem set_student_courses_idempotent (sid : Z) (csv : option str) (s : store) :
  wf_store s ->
  let once := run (set_student_courses sid csv) s in
  let twice := run (set_student_courses sid csv) once in
  result (set_student_courses sid csv) s = Ok tt
  /\ result (set_student_courses sid csv) once = Ok tt
  /\ student_enrollments sid twice = student_enrollments sid once
  /\ enrolled_names sid twice = enrolled_names sid once
  /\ legacy_courses sid twice = legacy_courses sid once
  /\ twice = once.
Proof.
  intros W once twice.
  assert (E : twice = once) by now apply set_student_courses_twice.
  split; [apply set_student_courses_frame|].
  split; [apply set_student_courses_frame|].
  now rewrite E.
Qed.

(** C5.  [ensure_course] is the body [ensure_course_with] at the
    insert-or-ignore and the lookup of the Course table.  Whatever the store
    answers to these two statements: when the insert is accepted and leaves
    [s1], the call raises StateError exactly when the lookup made on [s1] finds
    no row, and otherwise returns the identifier in the first row found,
    leaving [s1]; when the insert is refused its error is passed on and the
    lookup is not what fails.  A store that answers the lookup with no row
    makes the call raise, so the branch is live in the code.  With the
    unique-name semantics of the store the insert leaves a row of that name:
    the call never raises StateError, and it returns the identifier of a
    course row of [s1] whose name is [name] up to the collation of the column,
    the only such row when the keys of the store hold. *)
Theorem ensure_course_spec (name : str) :
  ensure_course name = ensure_course_with insert_ignore_course select_course_id name
  /\ (forall (insert : str -> statement) (lookup : str -> store -> list Z) s s1,
        insert name s = Ok s1 ->
        (result (ensure_course_with insert lookup name) s = Raise StateError
         <-> lookup name s1 = [])
        /\ (forall cid, result (ensure_course_with insert lookup name) s = Ok cid
                        <-> hd_error (lookup name s1) = Some cid)
        /\ run (ensure_course_with insert lookup name) s = s1)
  /\ (forall (insert : str -> statement) (lookup : str -> store -> list Z) s e,
        insert name s = Raise e ->
        result (ensure_course_with insert lookup name) s = Raise e
        /\ run (ensure_course_with insert lookup name) s = s)
  /\ (forall s, result (ensure_course_with insert_ignore_course (fun _ _ => []) name) s
                = Raise StateError)
  /\ (forall s,
        let s1 := apply_statement (insert_ignore_course name) s in
        insert_ignore_course name s = Ok s1
        /\ has_course_named name s1 = true
        /\ select_course_id name s1 <> []
        /\ result (ensure_course name) s <> Raise StateError
        /\ run (ensure_course name) s = s1
        /\ exists crow,
             In crow (courses s1)
             /\ coll_key (db_collation s1) (CourseName crow)
                = coll_key (db_collation s1) name
             /\ result (ensure_course name) s = Ok (CourseID crow)
             /\ (wf_store s ->
                 forall other, In other (courses s1) ->
                   coll_key (db_collation s1) (CourseName other)
                   = coll_key (db_collation s1) name ->
                   other = crow)).
Proof.
  assert (G : forall (insert : str -> statement) (lookup : str -> store -> list Z) s s1,
             insert name s = Ok s1 ->
             ensure_course_with insert lookup name s
             = match hd_error (lookup name s1) with
               | Some cid => (Ok cid, s1)
               | None => (Raise StateError, s1)
               end).
  { intros insert lookup s s1 E.
    unfold ensure_course_with, bind, execute, fetch_one. rewrite E.
    now destruct (hd_error (lookup name s1)). }
  split; [reflexivity|]. split; [|split; [|split]].
  - intros insert lookup s s1 E. unfold result, run. rewrite (G _ _ _ _ E).
    destruct (lookup name s1) as [|cid rest]; simpl.
    + split; [split; trivial|]. split; [|reflexivity].
      intros cid; split; discriminate.
    + split; [split; discriminate|]. split; [|reflexivity].
      intros c; split; congruence.
  - intros insert lookup s e E. unfold result, run.
    unfold ensure_course_with, bind, execute. rewrite E. now split.
  - intros s. unfold result. now rewrite (G _ _ s _ eq_refl).
  - intros s s1.
    pose proof (ensure_course_run name s) as R. fold s1 in R. cbv zeta in R.
    pose proof (has_course_named_after_insert name s) as Hn. fold s1 in Hn.
    pose proof (select_after_insert name s) as Hs. fold s1 in Hs. cbv zeta in Hs.
    split; [reflexivity|]. split; [exact Hn|].
    split; [intros E; rewrite E in Hs; discriminate Hs|].
    unfold result, run. rewrite R. cbn [fst snd].
    split; [discriminate|]. split; [reflexivity|].
    destruct (course_id_of_row name s1 Hn) as [crow [Hin [Hk Hid]]].
    exists crow. split; [exact Hin|]. split; [exact Hk|].
    split; [now rewrite Hid|].
    intros W other Ho Hko.
    assert (W1 : wf_store s1) by (apply (wf_insert_ignore_course name s); trivial).
    apply (NoDup_map_inj_in (fun c => coll_key (db_collation s1) (CourseName c))
             (courses s1)); trivial; [apply W1 | congruence].
Qed.

(** ** The relational operators *)

Lemma left_join_app {A B} (on : A -> B -> bool) (l1 l2 : list A) (r : list B) :
  left_join on (l1 ++ l2) r = left_join on l1 r ++ left_join on l2 r.
Proof. unfold left_join. apply flat_map_app. Qed.

Lemma left_join_flat_map {X A B} (on : A -> B -> bool) (f : X -> list A)
  (l : list X) (r : list B) :
  left_join on (flat_map f l) r = flat_map (fun x => left_join on (f x) r) l.
Proof.
  induction l as [|x l IH]; simpl; trivial.
  now rewrite left_join_app, IH.
Qed.

Lemma left_join_singletons {A B} (on : A -> B -> bool) (l : list A) (r : list B) :
  left_join on l r = flat_map (fun a => left_join on [a] r) l.
Proof.
  unfold left_join. apply flat_map_ext. intros a. simpl. now rewrite app_nil_r.
Qed.

Lemma left_join_fst {A B} (on : A -> B -> bool) (l : list A) (r : list B)
  (p : A * option B) :
  In p (left_join on l r) -> In (fst p) l.
Proof.
  unfold left_join. intros H. apply in_flat_map in H. destruct H as [a [Ha Hp]].
  destruct (filter (on a) r) as [|b m].
  - destruct Hp as [<-|[]]. exact Ha.
  - apply in_map_iff in Hp. destruct Hp as [b' [<- _]]. exact Ha.
Qed.

Lemma left_join_not_nil {A B} (on : A -> B -> bool) (a : A) (l : list A) (r : list B) :
  left_join on (a :: l) r <> [].
Proof.
  unfold left_join. simpl. destruct (filter (on a) r); simpl; discriminate.
Qed.

Lemma filter_flat_map {X A} (keep : A -> bool) (rows : X -> list A) (l : list X) :
  filter keep (flat_map rows l) = flat_map (fun x => filter keep (rows x)) l.
Proof.
  induction l as [|x l IH]; simpl; trivial. now rewrite filter_app, IH.
Qed.

Lemma filter_nothing {A} (p : A -> bool) (l : list A) :
  (forall x, In x l -> p x = false) -> filter p l = [].
Proof.
  induction l as [|x l IH]; simpl; intros H; trivial.
  rewrite (H x) by now left. apply IH. intros; apply H; now right.
Qed.

(** *** [distinct] *)

Lemma distinct_In {A} (eqb : A -> A -> bool) (l : list A) (x : A) :
  In x (distinct eqb l) -> In x l.
Proof.
  revert x. induction l as [|y l IH]; simpl; intros x H; trivial.
  destruct H as [->|H]; [now left|]. apply filter_In in H. right. now apply IH.
Qed.

Lemma distinct_block {A} (eqb : A -> A -> bool) (k : A) (b r : list A) :
  eqb k k = true -> (forall a, In a b -> a = k) ->
  distinct eqb (k :: b ++ r) = k :: filter (fun y => negb (eqb k y)) (distinct eqb r).
Proof.
  intros Hk. induction b as [|a b IH]; intros Hb; [reflexivity|].
  rewrite (Hb a) by now left.
  change (distinct eqb (k :: (k :: b) ++ r))
    with (k :: filter (fun y => negb (eqb k y)) (distinct eqb (k :: b ++ r))).
  rewrite IH by (intros; apply Hb; now right).
  simpl. rewrite Hk. simpl. f_equal. apply filter_negb_idem.
Qed.

(** Grouping a list made of blocks, each with a key of its own. *)
Lemma group_by_blocks {X A K} (keqb : K -> K -> bool) (key : A -> K)
  (id : K -> Z) (rows : X -> list A) (k : X -> K) (l : list X) :
  (forall a b, keqb a b = true -> id a = id b) ->
  (forall x, In x l -> keqb (k x) (k x) = true) ->
  (forall x, In x l -> rows x <> [] /\ forall a, In a (rows x) -> key a = k x) ->
  NoDup (map (fun x => id (k x)) l) ->
  group_by keqb key (flat_map rows l) = map (fun x => (k x, rows x)) l.
Proof.
  intros Hid. induction l as [|x l IH]; intros Hrefl Hrows Hnd; [reflexivity|].
  inversion Hnd as [|? ? Hx Hl]; subst.
  assert (IH' := IH (fun y Hy => Hrefl y (or_intror Hy))
                    (fun y Hy => Hrows y (or_intror Hy)) Hl). clear IH.
  destruct (Hrows x (or_introl eq_refl)) as [Hne Hkey].
  assert (Hother : forall a, In a (flat_map rows l) -> keqb (k x) (key a) = false
                                                       /\ keqb (key a) (k x) = false).
  { intros a Ha. apply in_flat_map in Ha. destruct Ha as [y [Hy Hay]].
    destruct (Hrows y (or_intror Hy)) as [_ Hky]. rewrite (Hky a Hay).
    split.
    - destruct (keqb (k x) (k y)) eqn:E; trivial. exfalso. apply Hx.
      apply Hid in E. rewrite E. now apply (in_map (fun x => id (k x))).
    - destruct (keqb (k y) (k x)) eqn:E; trivial. exfalso. apply Hx.
      apply Hid in E. rewrite <- E. now apply (in_map (fun x => id (k x))). }
  unfold group_by in *. cbn [flat_map map]. rewrite map_app.
  destruct (rows x) as [|a0 b] eqn:Erows; [congruence|].
  cbn [map app].
  rewrite (Hkey a0) by now left.
  rewrite distinct_block.
  - rewrite filter_all.
    + cbn [map]. f_equal.
      * f_equal. cbn [filter]. rewrite (Hkey a0) by now left.
        rewrite (Hrefl x) by now left. f_equal.
        rewrite filter_app, filter_all, filter_nothing.
        -- apply app_nil_r.
        -- intros a Ha. now apply Hother.
        -- intros a Ha. rewrite Hkey by now right. apply Hrefl. now left.
      * rewrite <- IH'. apply map_ext_in. intros k' Hk'. f_equal.
        apply distinct_In, in_map_iff in Hk'. destruct Hk' as [a' [<- Ha']].
        change (a0 :: b ++ flat_map rows l) with ((a0 :: b) ++ flat_map rows l).
        rewrite filter_app, filter_nothing; trivial.
        intros a Ha. rewrite (Hkey a Ha). now apply Hother.
    + intros k' Hk'. apply distinct_In, in_map_iff in Hk'.
      destruct Hk' as [a' [<- Ha']]. apply negb_true_iff. now apply Hother.
  - apply Hrefl. now left.
  - intros a Ha. apply in_map_iff in Ha. destruct Ha as [a' [<- Ha']].
    apply Hkey. now right.
Qed.

(** *** [order_by] *)

Lemma insert_sorted_perm {A} (leb : A -> A -> bool) (x : A) (l : list A) :
  Permutation (insert_sorted leb x l) (x :: l).
Proof.
  induction l as [|y l IH]; simpl; [reflexivity|].
  destruct (leb x y); [reflexivity|].
  rewrite IH. apply perm_swap.
Qed.

Lemma order_by_perm {A} (leb : A -> A -> bool) (l : list A) :
  Permutation (order_by leb l) l.
Proof.
  induction l as [|x l IH]; simpl; [reflexivity|].
  unfold order_by in *. simpl. rewrite insert_sorted_perm. now constructor.
Qed.

Lemma order_by_In {A} (leb : A -> A -> bool) (l : list A) (x : A) :
  In x (order_by leb l) <-> In x l.
Proof.
  split; apply Permutation_in; [|symmetry]; apply order_by_perm.
Qed.

Lemma insert_sorted_sorted {A} (leb : A -> A -> bool) (x : A) (l : list A) :
  (forall a b, leb a b = false -> leb b a = true) ->
  Sorted (fun a b => leb a b = true) l ->
  Sorted (fun a b => leb a b = true) (insert_sorted leb x l).
Proof.
  intros Htot. induction l as [|y l IH]; simpl; intros H.
  - repeat constructor.
  - destruct (leb x y) eqn:E.
    + constructor; trivial. now constructor.
    + inversion H as [|? ? Hs Hh]; subst. constructor; [now apply IH|].
      destruct l as [|z l]; simpl.
      * constructor. now apply Htot.
      * destruct (leb x z); constructor; [now apply Htot|].
        now inversion Hh.
Qed.

Lemma order_by_sorted {A} (leb : A -> A -> bool) (l : list A) :
  (forall a b, leb a b = false -> leb b a = true) ->
  Sorted (fun a b => leb a b = true) (order_by leb l).
Proof.
  intros Htot. induction l as [|x l IH]; simpl; [constructor|].
  now apply insert_sorted_sorted.
Qed.

Lemma order_by_single {A} (leb : A -> A -> bool) (x : A) : order_by leb [x] = [x].
Proof. reflexivity. Qed.

Lemma str_leb_total (a b : str) : str_leb a b = false -> str_leb b a = true.
Proof.
  revert b. induction a as [|x a IH]; intros [|y b]; simpl; try congruence.
  destruct (N.ltb_spec x y); [discriminate|].
  destruct (N.ltb_spec y x); [trivial|]. apply IH.
Qed.

Lemma str_leb_trans (a b c : str) :
  str_leb a b = true -> str_leb b c = true -> str_leb a c = true.
Proof.
  revert b c. induction a as [|x a IH]; intros [|y b] [|z c]; simpl; try congruence.
  destruct (N.ltb_spec x y), (N.ltb_spec y z), (N.ltb_spec x z); try lia;
    destruct (N.ltb_spec y x), (N.ltb_spec z y), (N.ltb_spec z x);
    try lia; try congruence.
  apply IH.
Qed.

Lemma str_leb_antisym (a b : str) :
  str_leb a b = true -> str_leb b a = true -> a = b.
Proof.
  revert b. induction a as [|x a IH]; intros [|y b]; simpl; try congruence.
  destruct (N.ltb_spec x y), (N.ltb_spec y x); try lia; try congruence.
  intros H1 H2. assert (x = y) by lia. subst. f_equal. now apply IH.
Qed.

(** ** The SELECT of [list_students] *)

Lemma filter_find_unique {A} (f : A -> Z) (k : Z) (l : list A) :
  NoDup (map f l) ->
  filter (fun y => Z.eqb (f y) k) l =
  match find (fun y => Z.eqb (f y) k) l with
  | Some d => [d]
  | None => []
  end.
Proof.
  induction l as [|z l IH]; simpl; intros H; trivial.
  inversion H as [|? ? Hz Hl]; subst.
  destruct (Z.eqb_spec (f z) k) as [E|_]; [|now apply IH].
  f_equal. apply filter_none.
  destruct (existsb _ l) eqn:X; trivial. exfalso. apply Hz.
  apply existsb_Zeqb_map in X. now rewrite E.
Qed.

Lemma details_join_one (s : store) (x : Student) :
  wf_store s ->
  left_join on_details [x] (details s) = [(x, details_of (StudentID x) s)].
Proof.
  intros W. unfold left_join, on_details, details_of. simpl.
  rewrite (filter_find_unique d_StudentID _ _ (wf_details_pk s W)).
  now destruct (find _ (details s)).
Qed.

Lemma student_rows_eq (s : store) (x : Student) :
  wf_store s ->
  student_rows s x =
  left_join on_course
    (left_join on_enrollment [(x, details_of (StudentID x) s)] (enrollments s))
    (courses s).
Proof. intros W. unfold student_rows. now rewrite details_join_one. Qed.

Lemma student_rows_spec (s : store) (x : Student) (r : joined_row) :
  wf_store s -> In r (student_rows s x) ->
  jr_student r = x /\ jr_details r = details_of (StudentID x) s.
Proof.
  intros W H. rewrite student_rows_eq in H by trivial.
  apply left_join_fst, left_join_fst in H. destruct H as [H|[]].
  unfold jr_student, jr_details. rewrite <- H. auto.
Qed.

Lemma student_rows_not_nil (s : store) (x : Student) :
  wf_store s -> student_rows s x <> [].
Proof.
  intros W. rewrite student_rows_eq by trivial.
  destruct (left_join on_enrollment _ _) as [|a l] eqn:E.
  - now apply left_join_not_nil in E.
  - apply left_join_not_nil.
Qed.

Lemma course_join_block (s : store)
  (r : (Student * option StudentDetails) * option StudentCourse) :
  group_course_names (left_join on_course [r] (courses s)) =
  match snd r with
  | Some e => course_names_of (sc_CourseID e) s
  | None => []
  end.
Proof.
  unfold left_join, group_course_names. cbn [flat_map]. rewrite app_nil_r.
  destruct r as [r0 [e|]]; unfold on_course; cbn [snd].
  - unfold course_names_of.
    destruct (filter _ (courses s)) as [|c m]; [reflexivity|].
    generalize (c :: m). intros k.
    induction k as [|y k IHk]; simpl; [reflexivity | now rewrite IHk].
  - now rewrite filter_nothing.
Qed.

Lemma course_join_names (s : store)
  (l : list ((Student * option StudentDetails) * option StudentCourse)) :
  group_course_names (left_join on_course l (courses s)) =
  flat_map (fun r => match snd r with
                     | Some e => course_names_of (sc_CourseID e) s
                     | None => []
                     end) l.
Proof.
  induction l as [|r l IH]; [reflexivity|].
  change (r :: l) with ([r] ++ l). rewrite left_join_app.
  assert (Happ : forall a b, group_course_names (a ++ b)
                             = group_course_names a ++ group_course_names b)
    by (intros; apply flat_map_app).
  rewrite Happ, IH, (course_join_block s r). reflexivity.
Qed.

Lemma student_rows_names (s : store) (x : Student) :
  wf_store s ->
  group_course_names (student_rows s x) = enrolled_names (StudentID x) s.
Proof.
  intros W. rewrite student_rows_eq by trivial. rewrite course_join_names.
  unfold left_join, on_enrollment, enrolled_names, student_enrollments.
  cbn [flat_map fst]. rewrite app_nil_r.
  destruct (filter _ (enrollments s)) as [|e m]; [reflexivity|].
  rewrite flat_map_concat_map, map_map. cbn [snd].
  now rewrite <- flat_map_concat_map.
Qed.

Lemma student_join_rows (s : store) :
  student_join s = flat_map (student_rows s) (students s).
Proof.
  unfold student_join, student_rows.
  rewrite (left_join_singletons on_details), !left_join_flat_map. reflexivity.
Qed.

Lemma option_eqb_refl (o : option str) : option_eqb str_eqb o o = true.
Proof. destruct o; simpl; trivial. apply str_eqb_refl. Qed.

Lemma group_key_eqb_refl (k : group_key) : group_key_eqb k k = true.
Proof.
  destruct k as [[[[[i n] a] e] p] c]. simpl.
  now rewrite !Z.eqb_refl, !str_eqb_refl, !option_eqb_refl.
Qed.

Lemma group_key_eqb_id (a b : group_key) :
  group_key_eqb a b = true ->
  fst (fst (fst (fst (fst a)))) = fst (fst (fst (fst (fst b)))).
Proof.
  destruct a as [[[[[i n] a] e] p] c], b as [[[[[i' n'] a'] e'] p'] c']. simpl.
  intros H. repeat (apply andb_true_iff in H; destruct H as [H _]).
  now apply Z.eqb_eq.
Qed.

(** The GROUP BY key of the rows of a student. *)
Lemma student_rows_key (s : store) (x : Student) (r : joined_row) :
  wf_store s -> In r (student_rows s x) ->
  student_group_key r =
  (StudentID x, Name x, Age x, Email x,
   phone_number (StudentID x) s, legacy_courses (StudentID x) s).
Proof.
  intros W H. destruct (student_rows_spec s x r W H) as [E1 E2].
  unfold student_group_key, phone_number, legacy_courses. now rewrite E1, E2.
Qed.

Lemma students_grouped (s : store) (l : list Student) :
  wf_store s -> NoDup (map StudentID l) ->
  map (student_row_of_group (db_collation s))
    (group_by group_key_eqb student_group_key (flat_map (student_rows s) l))
  = map (student_report s) l.
Proof.
  intros W Hnd.
  rewrite (group_by_blocks group_key_eqb student_group_key
             (fun k => fst (fst (fst (fst (fst k))))) (student_rows s)
             (fun x => (StudentID x, Name x, Age x, Email x,
                        phone_number (StudentID x) s,
                        legacy_courses (StudentID x) s)) l).
  - rewrite map_map. apply map_ext. intros x.
    unfold student_row_of_group, student_report, courses_value. cbn [fst snd].
    now rewrite student_rows_names.
  - apply group_key_eqb_id.
  - intros x _. apply group_key_eqb_refl.
  - intros x _. split; [now apply student_rows_not_nil|].
    intros r Hr. now apply student_rows_key.
  - exact Hnd.
Qed.

Lemma select_students_all (s : store) :
  wf_store s ->
  select_students None s =
  order_by (fun a b => Z.leb (r_StudentID b) (r_StudentID a))
    (map (student_report s) (students s)).
Proof.
  intros W. unfold select_students. rewrite student_join_rows.
  rewrite students_grouped; trivial. apply W.
Qed.

Lemma select_students_one (i : Z) (s : store) :
  wf_store s ->
  select_students (Some i) s =
  match find (fun x => Z.eqb (StudentID x) i) (students s) with
  | Some x => [student_report s x]
  | None => []
  end.
Proof.
  intros W. unfold select_students. rewrite student_join_rows.
  assert (E : filter (fun r => Z.eqb (StudentID (jr_student r)) i)
                (flat_map (student_rows s) (students s))
              = flat_map (student_rows s)
                  (filter (fun x => Z.eqb (StudentID x) i) (students s))).
  { rewrite filter_flat_map. induction (students s) as [|x l IH]; simpl; trivial.
    rewrite IH. destruct (Z.eqb (StudentID x) i) eqn:Ex.
    - simpl. f_equal. apply filter_all. intros r Hr.
      destruct (student_rows_spec s x r W Hr) as [-> _]. exact Ex.
    - rewrite filter_nothing; trivial. intros r Hr.
      destruct (student_rows_spec s x r W Hr) as [-> _]. exact Ex. }
  rewrite E, students_grouped; trivial.
  - rewrite (filter_find_unique StudentID _ _ (wf_student_pk s W)).
    now destruct (find _ (students s)).
  - apply NoDup_map_filter, W.
Qed.

(** *** The aggregation [GROUP_CONCAT(DISTINCT ... ORDER BY ...)] *)

Lemma name_leb_total (c : collation) (a b : str) :
  name_leb c a b = false -> name_leb c b a = true.
Proof. apply str_leb_total. Qed.

Lemma distinct_keys_NoDup (c : collation) (l : list str) :
  NoDup (map (coll_key c) (distinct (name_eqb c) l)).
Proof.
  induction l as [|y l IH]; simpl; constructor.
  - intros H. apply in_map_iff in H. destruct H as [z [E H]].
    apply filter_In in H. destruct H as [_ H].
    apply negb_true_iff in H. unfold name_eqb in H. rewrite E, str_eqb_refl in H.
    discriminate.
  - now apply NoDup_map_filter.
Qed.

Lemma distinct_keys_cover (c : collation) (l : list str) (x : str) :
  In x l ->
  exists y, In y (distinct (name_eqb c) l) /\ coll_key c y = coll_key c x.
Proof.
  induction l as [|z l IH]; simpl; intros H; [destruct H|].
  destruct H as [->|H]; [exists x; split; [now left | trivial]|].
  destruct (IH H) as [y [Hy E]].
  destruct (name_eqb c z y) eqn:F.
  - exists z. split; [now left|]. apply name_eqb_eq in F. congruence.
  - exists y. split; trivial. right. apply filter_In. split; trivial. now rewrite F.
Qed.

Lemma courses_value_cases (sid : Z) (s : store) :
  let agg := join comma_space
               (order_by (name_leb (db_collation s))
                  (distinct (name_eqb (db_collation s)) (enrolled_names sid s))) in
  courses_value sid s = if nonempty agg then Some agg else legacy_courses sid s.
Proof.
  unfold courses_value, group_concat_distinct.
  destruct (enrolled_names sid s) as [|n l]; [reflexivity|].
  cbn zeta. destruct (join comma_space _); reflexivity.
Qed.

Lemma find_unique {A} (f : A -> Z) (l : list A) (x : A) :
  NoDup (map f l) -> In x l -> find (fun y => Z.eqb (f y) (f x)) l = Some x.
Proof.
  intros H Hx. pose proof (filter_key_unique f l x H Hx) as E.
  rewrite (filter_find_unique f (f x) l H) in E.
  destruct (find _ l); [now injection E as -> | discriminate].
Qed.

Lemma get_student_run (i : Z) (s : store) :
  get_student i s =
  (Ok (match select_students (Some i) s with
       | r :: _ => Some r
       | [] => None
       end), s).
Proof. reflexivity. Qed.

Lemma get_student_found (s : store) (x : Student) :
  wf_store s -> In x (students s) ->
  result (get_student (StudentID x)) s = Ok (Some (student_report s x)).
Proof.
  intros W Hx. unfold result. rewrite get_student_run. cbn [fst].
  rewrite select_students_one by trivial.
  now rewrite (find_unique StudentID _ x (wf_student_pk s W) Hx).
Qed.

(** ** The claims about the listings *)

Lemma listed_student (s : store) (x : Student) :
  wf_store s -> In x (students s) ->
  let sid := StudentID x in
  let c := db_collation s in
  let names := enrolled_names sid s in
  let listed := order_by (name_leb c) (distinct (name_eqb c) names) in
  let agg := join comma_space listed in
  result (get_student sid) s = Ok (Some (student_report s x))
  /\ (exists rows, result (list_students None) s = Ok rows
                   /\ In (student_report s x) rows
                   /\ forall r, In r rows ->
                        exists y, In y (students s) /\ r = student_report s y)
  /\ r_Courses (student_report s x)
     = (if nonempty agg then Some agg else legacy_courses sid s)
  /\ (names = [] -> r_Courses (student_report s x) = legacy_courses sid s)
  /\ Sorted (fun a b => name_leb c a b = true) listed
  /\ NoDup (map (coll_key c) listed)
  /\ (forall n, In n listed -> In n names)
  /\ (forall n, In n names -> exists m, In m listed /\ coll_key c m = coll_key c n)
  /\ (c = CaseInsensitive -> NoDup (map casefold listed)).
Proof.
  intros W Hx sid c names listed agg.
  assert (Hnd : NoDup (map (coll_key c) listed)).
  { unfold listed. eapply Permutation_NoDup.
    - apply Permutation_map. symmetry. apply order_by_perm.
    - apply distinct_keys_NoDup. }
  split; [now apply get_student_found|].
  split; [|split; [|split; [|split; [|split; [|split; [|split]]]]]]; trivial.
  - exists (select_students None s). split; [reflexivity|].
    rewrite select_students_all by trivial. split.
    + apply order_by_In. now apply in_map.
    + intros r Hr. apply order_by_In, in_map_iff in Hr.
      destruct Hr as [y [<- Hy]]. now exists y.
  - apply courses_value_cases.
  - intros E. cbn [student_report r_Courses]. fold sid.
    unfold courses_value. fold names. now rewrite E.
  - apply order_by_sorted. intros a b. apply name_leb_total.
  - intros n Hn. apply order_by_In in Hn. now apply distinct_In in Hn.
  - intros n Hn. destruct (distinct_keys_cover c names n Hn) as [m [Hm E]].
    exists m. split; trivial. now apply order_by_In.
  - intros E. now rewrite E in Hnd.
Qed.

(** C4 (as amended). For a Student row of a store that satisfies its key constraints,
    [get_student] returns, and [list_students] lists, one record whose Courses
    value is the comma-space-joined list of the course names reached through
    the enrollment rows of the student, made distinct and ordered by the
    collation of CourseName (so deduplicated ignoring case when the collation
    ignores case), whenever that text is not empty, and the legacy CourseS field
    otherwise, in particular when the student has no enrollment row.  The
    legacy field plays no part in the first case.  A student with CourseS
    "Biology" and no enrollment row is reported with Courses "Biology". *)
Theorem list_students_courses :
  (forall (s : store) (x : Student),
      wf_store s -> In x (students s) ->
      let sid := StudentID x in
      let c := db_collation s in
      let names := enrolled_names sid s in
      let listed := order_by (name_leb c) (distinct (name_eqb c) names) in
      let agg := join comma_space listed in
      result (get_student sid) s = Ok (Some (student_report s x))
      /\ (exists rows, result (list_students None) s = Ok rows
                       /\ In (student_report s x) rows
                       /\ forall r, In r rows ->
                            exists y, In y (students s) /\ r = student_report s y)
      /\ r_Courses (student_report s x)
         = (if nonempty agg then Some agg else legacy_courses sid s)
      /\ (names = [] -> r_Courses (student_report s x) = legacy_courses sid s)
      /\ Sorted (fun a b => name_leb c a b = true) listed
      /\ NoDup (map (coll_key c) listed)
      /\ (forall n, In n listed -> In n names)
      /\ (forall n, In n names ->
             exists m, In m listed /\ coll_key c m = coll_key c n)
      /\ (c = CaseInsensitive -> NoDup (map casefold listed)))
  /\ (forall c : collation,
        student_enrollments 1 (biology_store c) = []
        /\ legacy_courses 1 (biology_store c) = Some (py "Biology")
        /\ result (get_student 1) (biology_store c)
           = Ok (Some (mkStudentRow 1 (py "Alice") 20 (py "a@x.com")
                         (Some (py "555-1234")) (Some (py "Biology"))))
        /\ result (list_students None) (biology_store c)
           = Ok [mkStudentRow 1 (py "Alice") 20 (py "a@x.com")
                   (Some (py "555-1234")) (Some (py "Biology"))]).
Proof.
  split; [apply listed_student|].
  intros c. destruct c; repeat split; reflexivity.
Qed.

(** C10. In a store that satisfies its key constraints [get_student] returns
    None exactly when no Student row has the identifier, and otherwise the
    record of the one Student row that has it; the listing filtered by an
    identifier never holds more than one row; the store is left as it was. *)
Theorem get_student_spec (i : Z) (s : store) :
  wf_store s ->
  (result (get_student i) s = Ok None <-> ~ In i (map StudentID (students s)))
  /\ (forall x, In x (students s) -> StudentID x = i ->
                result (get_student i) s = Ok (Some (student_report s x)))
  /\ (exists rows, result (list_students (Some i)) s = Ok rows
                   /\ (List.length rows <= 1)%nat
                   /\ forall r, In r rows -> r_StudentID r = i)
  /\ run (get_student i) s = s.
Proof.
  intros W. split; [|split; [|split]].
  - unfold result. rewrite get_student_run. cbn [fst].
    rewrite select_students_one by trivial.
    destruct (find _ (students s)) as [x|] eqn:E.
    + split; [discriminate|]. intros H. exfalso. apply H.
      apply find_some in E. destruct E as [Hx Hi]. apply Z.eqb_eq in Hi.
      rewrite <- Hi. now apply in_map.
    + split; trivial. intros _ H. apply in_map_iff in H. destruct H as [x [Hi Hx]].
      apply (find_none _ _ E) in Hx. apply Z.eqb_neq in Hx. congruence.
  - intros x Hx <-. now apply get_student_found.
  - exists (select_students (Some i) s). split; [reflexivity|].
    rewrite select_students_one by trivial.
    destruct (find _ (students s)) as [x|] eqn:E; simpl.
    + split; [lia|]. intros r [<-|[]]. apply find_some in E. simpl.
      now apply Z.eqb_eq.
    + split; [lia|]. intros r [].
  - reflexivity.
Qed.

(** ** The SELECT of [list_courses] *)

Lemma NoDup_map_inj_on {Row Key} (key : Row -> Key) (l : list Row)
  (Hinj : forall r1 r2, In r1 l -> In r2 l -> key r1 = key r2 -> r1 = r2)
  (H : NoDup l) : NoDup (map key l).
Proof.
  induction l as [|z l IH]; simpl; [constructor|].
  inversion H as [|? ? Hz Hl]; subst. constructor.
  - intros Hin. apply in_map_iff in Hin. destruct Hin as [y [E Hy]].
    assert (y = z) by (apply Hinj; simpl; auto). now subst.
  - apply IH; trivial. intros r1 r2 H1 H2. apply Hinj; simpl; auto.
Qed.

Lemma course_students_NoDup (cid : Z) (s : store) :
  wf_store s ->
  NoDup (map sc_StudentID
           (filter (fun e => Z.eqb (sc_CourseID e) cid) (enrollments s))).
Proof.
  intros W. apply NoDup_map_inj_on.
  - intros [a b] [a' b'] Hx Hy E. apply filter_In in Hx, Hy. simpl in *.
    destruct Hx as [_ Hx], Hy as [_ Hy]. apply Z.eqb_eq in Hx, Hy. congruence.
  - apply NoDup_filter, W.
Qed.

Lemma enrolled_students_count (cid : Z) (s : store) :
  wf_store s ->
  List.length (enrolled_students cid s)
  = List.length (filter (fun e => Z.eqb (sc_CourseID e) cid) (enrollments s)).
Proof.
  intros W. unfold enrolled_students.
  rewrite nodup_fixed_point by now apply course_students_NoDup.
  apply length_map.
Qed.

Lemma course_block_spec (s : store) (c : Course) :
  let block := left_join on_course_enrollment [c] (enrollments s) in
  block <> []
  /\ (forall r, In r block -> course_group_key r = (CourseID c, CourseName c))
  /\ count_enrollment block
     = Z.of_nat (List.length
                   (filter (fun e => Z.eqb (sc_CourseID e) (CourseID c)) (enrollments s))).
Proof.
  intros block. split; [apply left_join_not_nil|]. split.
  - intros r Hr. apply left_join_fst in Hr. destruct Hr as [Hr|[]].
    unfold course_group_key. now rewrite <- Hr.
  - unfold block, left_join, count_enrollment, on_course_enrollment.
    cbn [flat_map]. rewrite app_nil_r.
    destruct (filter _ (enrollments s)) as [|e m]; [reflexivity|].
    f_equal. generalize (e :: m). intros k.
    induction k as [|y k IHk]; simpl; [reflexivity | now rewrite IHk].
Qed.

Lemma course_group_eqb_refl (k : Z * str) : course_group_eqb k k = true.
Proof. unfold course_group_eqb. now rewrite Z.eqb_refl, str_eqb_refl. Qed.

Lemma select_courses_eq (s : store) :
  wf_store s ->
  select_courses s =
  order_by (fun a b => name_leb (db_collation s) (r_CourseName a) (r_CourseName b))
    (map (course_report s) (courses s)).
Proof.
  intros W. unfold select_courses. f_equal.
  rewrite (left_join_singletons on_course_enrollment).
  rewrite (group_by_blocks course_group_eqb course_group_key fst
             (fun c => left_join on_course_enrollment [c] (enrollments s))
             (fun c => (CourseID c, CourseName c)) (courses s)).
  - rewrite map_map. apply map_ext. intros c.
    unfold course_row_of_group, course_report. cbn [fst snd]. f_equal.
    destruct (course_block_spec s c) as [_ [_ E]]. rewrite E.
    now rewrite enrolled_students_count.
  - intros a b H. unfold course_group_eqb in H.
    apply andb_true_iff in H. destruct H as [H _]. now apply Z.eqb_eq.
  - intros c _. apply course_group_eqb_refl.
  - intros c _. destruct (course_block_spec s c) as [H1 [H2 _]]. now split.
  - apply W.
Qed.


(** ** The details upsert *)

Lemma find_after_upsert_map (sid : Z) (v : StudentDetails) (l : list StudentDetails) :
  d_StudentID v = sid ->
  existsb (fun d => Z.eqb (d_StudentID d) sid) l = true ->
  find (fun d => Z.eqb (d_StudentID d) sid)
    (map (fun d => if Z.eqb (d_StudentID d) sid then v else d) l) = Some v.
Proof.
  intros Hv. induction l as [|d l IH]; simpl; [discriminate|].
  destruct (Z.eqb (d_StudentID d) sid) eqn:E; simpl.
  - intros _. rewrite Hv, Z.eqb_refl. reflexivity.
  - intros H. rewrite E. now apply IH.
Qed.

Lemma find_after_append (sid : Z) (v : StudentDetails) (l : list StudentDetails) :
  d_StudentID v = sid ->
  existsb (fun d => Z.eqb (d_StudentID d) sid) l = false ->
  find (fun d => Z.eqb (d_StudentID d) sid) (l ++ [v]) = Some v.
Proof.
  intros Hv. induction l as [|d l IH]; simpl.
  - intros _. rewrite Hv, Z.eqb_refl. reflexivity.
  - destruct (Z.eqb (d_StudentID d) sid); simpl; [discriminate | exact IH].
Qed.

Lemma upsert_details_row (sid : Z) (phone csv : option str) (s su : store) :
  upsert_details sid phone csv s = Ok su ->
  details_of sid su = Some (mkDetails sid phone csv).
Proof.
  unfold upsert_details, details_of.
  destruct (has_details sid s) eqn:E.
  - intros H. injection H as <-. store_simpl. now apply find_after_upsert_map.
  - destruct (has_student sid s); [|discriminate].
    intros H. injection H as <-. store_simpl. now apply find_after_append.
Qed.

Lemma upsert_student_details_run (sid : Z) (phone : str) (csv : option str)
  (s : store) :
  upsert_student_details sid phone csv s =
  match upsert_details sid (Some phone) csv s with
  | Ok su => set_student_courses sid csv su
  | Raise e => (Raise e, s)
  end.
Proof.
  unfold upsert_student_details, bind, execute.
  now destruct (upsert_details sid (Some phone) csv s).
Qed.

Lemma upsert_student_details_effect (sid : Z) (phone : str) (csv : option str)
  (s : store) :
  result (upsert_student_details sid phone csv) s = Ok tt ->
  let su := apply_statement (upsert_details sid (Some phone) csv) s in
  let s' := run (upsert_student_details sid phone csv) s in
  upsert_details sid (Some phone) csv s = Ok su
  /\ s' = run (set_student_courses sid csv) su
  /\ details_of sid su = Some (mkDetails sid (Some phone) csv)
  /\ details_of sid s' = Some (mkDetails sid (Some phone) (Some (normalize_to_csv csv))).
Proof.
  intros H su s'. unfold result in H. unfold s', su, apply_statement, run, execute.
  rewrite upsert_student_details_run in *.
  destruct (upsert_details sid (Some phone) csv s) as [su'|e] eqn:E;
    [|discriminate]. cbn [snd].
  pose proof (upsert_details_row _ _ _ _ _ E) as Hrow.
  split; [reflexivity|]. split; [reflexivity|]. split; [exact Hrow|].
  destruct (set_student_courses_frame sid csv su') as [_ [_ [_ [Hd _]]]].
  change (snd (set_student_courses sid csv su'))
    with (run (set_student_courses sid csv) su').
  rewrite (details_of_updated sid sid _ su' _ Hd), Hrow. simpl.
  now rewrite Z.eqb_refl.
Qed.

(** C6. Whenever [upsert_student_details] completes, the StudentDetails row of
    the student holds the given phone number, and its CourseS field, written
    first with the raw CSV by the upsert, holds in the end the normalized
    comma-space-joined list.  In a store with no student yet, of either
    collation, after insert_student(1, "Alice", 20, "a@x.com", "555-1234",
    "Bio, bio, Chem") the record get_student(1) returns has Courses "Bio, Chem"
    and PhoneNumber "555-1234". *)
Theorem upsert_student_details_spec :
  (forall (sid : Z) (phone : str) (csv : option str) (s : store),
      result (upsert_student_details sid phone csv) s = Ok tt ->
      let su := apply_statement (upsert_details sid (Some phone) csv) s in
      let s' := run (upsert_student_details sid phone csv) s in
      legacy_courses sid su = csv
      /\ phone_number sid su = Some phone
      /\ s' = run (set_student_courses sid csv) su
      /\ phone_number sid s' = Some phone
      /\ legacy_courses sid s' = Some (normalize_to_csv csv))
  /\ (forall c : collation,
        let call := insert_student 1%Z (py "Alice") 20%Z (py "a@x.com")
                      (py "555-1234") (Some (py "Bio, bio, Chem")) in
        result call (empty_store c) = Ok tt
        /\ result (get_student 1%Z) (run call (empty_store c))
           = Ok (Some (mkStudentRow 1%Z (py "Alice") 20%Z (py "a@x.com")
                         (Some (py "555-1234")) (Some (py "Bio, Chem"))))
        /\ legacy_courses 1%Z (run call (empty_store c)) = Some (py "Bio, Chem")).
Proof.
  split.
  - intros sid phone csv s H su s'.
    destruct (upsert_student_details_effect sid phone csv s H) as [_ [E [H1 H2]]].
    fold su in H1, E. fold s' in H2, E.
    unfold legacy_courses, phone_number. rewrite H1, H2. auto.
  - intros c call. destruct c; repeat split; vm_compute; reflexivity.
Qed.

(** ** The invariant between StudentCourse and CourseS *)

Lemma in_sync_same (k : Z) (s s' : store) :
  student_enrollments k s' = student_enrollments k s ->
  enrolled_names k s' = enrolled_names k s ->
  legacy_courses k s' = legacy_courses k s ->
  in_sync k s -> in_sync k s'.
Proof.
  unfold in_sync, legacy_names. intros _ -> ->. trivial.
Qed.

Lemma enrolled_names_same (k : Z) (s s' : store) :
  enrollments s' = enrollments s -> courses s' = courses s ->
  student_enrollments k s' = student_enrollments k s
  /\ enrolled_names k s' = enrolled_names k s.
Proof.
  intros He Hc. unfold enrolled_names, student_enrollments, course_names_of.
  now rewrite He, Hc.
Qed.

Lemma legacy_same (k : Z) (s s' : store) :
  details s' = details s -> legacy_courses k s' = legacy_courses k s.
Proof. intros H. unfold legacy_courses, details_of. now rewrite H. Qed.

Lemma details_of_none (sid : Z) (s : store) :
  wf_store s -> has_student sid s = false -> details_of sid s = None.
Proof.
  intros W Hs. destruct (details_of sid s) as [d|] eqn:E; trivial.
  apply details_of_some in E. destruct E as [Hi Hin].
  pose proof (wf_details_fk s W d Hin) as H. rewrite Hi in H. congruence.
Qed.

Lemma sync_establishes (sid : Z) (csv : option str) (s : store) :
  wf_store s ->
  (has_student sid s = true -> has_details sid s = true) ->
  in_sync sid (run (set_student_courses sid csv) s).
Proof.
  intros W Hd. unfold in_sync, legacy_names.
  destruct (legacy_after_sync sid csv s) as [Hl _]. rewrite Hl.
  destruct (has_student sid s) eqn:Hs.
  - specialize (Hd eq_refl). unfold has_details in Hd. unfold details_of.
    destruct (find _ (details s)) as [d|] eqn:E.
    + rewrite normalize_of_rendering.
      pose proof (enrolled_names_after_sync sid csv s W Hs) as Hk.
      intros k. destruct (db_collation s); cbn [coll_key] in Hk.
      * rewrite !map_id in Hk. now rewrite Hk.
      * change (map casefold (enrolled_names sid (run (set_student_courses sid csv) s))
                = map casefold (_normalize_courses csv)) in Hk.
        now rewrite Hk.
    + exfalso. apply existsb_exists in Hd. destruct Hd as [d [Hin Hd]].
      apply (find_none _ _ E) in Hin. congruence.
  - rewrite (details_of_none sid s W Hs).
    destruct (set_student_courses_no_student sid csv s Hs) as [He _].
    unfold enrolled_names, student_enrollments. rewrite He, filter_filter_same.
    intros k. reflexivity.
Qed.

Lemma sync_preserves_other (sid k : Z) (csv : option str) (s : store) :
  wf_store s -> k <> sid -> in_sync k s ->
  in_sync k (run (set_student_courses sid csv) s).
Proof.
  intros W Hk. pose proof (student_enrollments_other_after_sync sid k csv s W Hk) as He.
  apply in_sync_same; trivial.
  - destruct (set_student_courses_frame sid csv s) as [_ [_ [_ [_ [[new [Hn _]] _]]]]].
    apply (enrolled_names_frame k s _ new); trivial.
    now apply keeps_wf_set_student_courses.
  - now apply legacy_after_sync.
Qed.

Lemma find_other_update {A} (f : A -> Z) (sid k : Z) (v : A) (l : list A) :
  k <> sid -> f v = sid ->
  find (fun x => Z.eqb (f x) k) (map (fun x => if Z.eqb (f x) sid then v else x) l)
  = find (fun x => Z.eqb (f x) k) l.
Proof.
  intros Hk Hv. induction l as [|x l IH]; simpl; trivial.
  destruct (Z.eqb_spec (f x) sid) as [E|_].
  - rewrite Hv, IH. destruct (Z.eqb_spec sid k), (Z.eqb_spec (f x) k); congruence.
  - now rewrite IH.
Qed.

Lemma find_other_append {A} (f : A -> Z) (sid k : Z) (v : A) (l : list A) :
  k <> sid -> f v = sid ->
  find (fun x => Z.eqb (f x) k) (l ++ [v]) = find (fun x => Z.eqb (f x) k) l.
Proof.
  intros Hk Hv. induction l as [|x l IH]; simpl.
  - rewrite Hv. destruct (Z.eqb_spec sid k); congruence.
  - now rewrite IH.
Qed.

Lemma find_other_filter {A} (f : A -> Z) (sid k : Z) (l : list A) :
  k <> sid ->
  find (fun x => Z.eqb (f x) k) (filter (fun x => negb (Z.eqb (f x) sid)) l)
  = find (fun x => Z.eqb (f x) k) l.
Proof.
  intros Hk. induction l as [|x l IH]; simpl; trivial.
  destruct (Z.eqb_spec (f x) sid) as [E|_]; simpl.
  - rewrite IH. destruct (Z.eqb_spec (f x) k); congruence.
  - now rewrite IH.
Qed.

Lemma existsb_key_update {A} (f : A -> Z) (sid k : Z) (v : A) (l : list A) :
  f v = sid ->
  existsb (fun x => Z.eqb (f x) k) (map (fun x => if Z.eqb (f x) sid then v else x) l)
  = existsb (fun x => Z.eqb (f x) k) l.
Proof.
  intros Hv. induction l as [|x l IH]; simpl; trivial.
  rewrite IH. f_equal.
  destruct (Z.eqb_spec (f x) sid) as [E|_]; trivial. now rewrite Hv, E.
Qed.

Lemma upsert_details_frame (sid : Z) (phone csv : option str) (s su : store) :
  upsert_details sid phone csv s = Ok su ->
  db_collation su = db_collation s /\ students su = students s
  /\ courses su = courses s /\ enrollments su = enrollments s
  /\ has_details sid su = true
  /\ (forall k, has_details k s = true -> has_details k su = true)
  /\ (forall k, k <> sid -> legacy_courses k su = legacy_courses k s).
Proof.
  unfold upsert_details, legacy_courses, details_of.
  destruct (has_details sid s) eqn:E.
  - intros H. injection H as <-. store_simpl. do 4 (split; [reflexivity|]).
    assert (Hids : forall k,
               existsb (fun d => Z.eqb (d_StudentID d) k)
                 (map (fun d => if Z.eqb (d_StudentID d) sid
                                then mkDetails sid phone csv else d) (details s))
               = existsb (fun d => Z.eqb (d_StudentID d) k) (details s))
      by (intros k; apply existsb_key_update; reflexivity).
    split; [now rewrite Hids|]. split; [intros k; now rewrite Hids|].
    intros k Hk.
    now rewrite (find_other_update d_StudentID sid k (mkDetails sid phone csv)).
  - destruct (has_student sid s); [|discriminate].
    intros H. injection H as <-. store_simpl. do 4 (split; [reflexivity|]).
    split; [|split].
    + rewrite existsb_app. simpl. now rewrite Z.eqb_refl, orb_true_r.
    + intros k Hk. now rewrite existsb_app, Hk.
    + intros k Hk.
      now rewrite (find_other_append d_StudentID sid k (mkDetails sid phone csv)).
Qed.

Lemma upsert_preserves_sync (sid : Z) (phone : str) (csv : option str) (s : store) :
  wf_store s -> (forall k, in_sync k s) ->
  forall k, in_sync k (run (upsert_student_details sid phone csv) s).
Proof.
  intros W H k. unfold run. rewrite upsert_student_details_run.
  destruct (upsert_details sid (Some phone) csv s) as [su|e] eqn:E; [|apply H].
  change (in_sync k (run (set_student_courses sid csv) su)).
  assert (Wu : wf_store su) by (eapply wf_upsert_details; eauto).
  destruct (upsert_details_frame _ _ _ _ _ E) as [_ [_ [Hc [He [Hd [_ Hl]]]]]].
  destruct (Z.eq_dec k sid) as [->|Hk].
  - apply sync_establishes; trivial.
  - apply sync_preserves_other; trivial.
    destruct (enrolled_names_same k s su He Hc) as [H1 H2].
    apply (in_sync_same k s su); auto.
Qed.

Lemma delete_student_sync (sid : Z) (s : store) :
  (forall k, in_sync k s) -> forall k, in_sync k (run (delete_student sid) s).
Proof.
  intros H k. unfold run, delete_student, execute, delete_student_row. cbn [snd].
  destruct (Z.eq_dec k sid) as [->|Hk].
  - unfold in_sync, legacy_names, enrolled_names, student_enrollments.
    store_simpl. rewrite filter_filter_same.
    assert (E : legacy_courses sid
                  (with_students
                     (filter (fun x => negb (Z.eqb (StudentID x) sid)) (students s))
                     (with_details
                        (filter (fun d => negb (Z.eqb (d_StudentID d) sid)) (details s))
                        (with_enrollments
                           (filter (fun e => negb (Z.eqb (sc_StudentID e) sid))
                              (enrollments s)) s))) = None).
    { unfold legacy_courses, details_of. store_simpl.
      destruct (find _ (filter _ (details s))) as [d|] eqn:F; trivial.
      apply find_some in F. destruct F as [Hd Ed]. apply filter_In in Hd.
      destruct Hd as [_ Hd]. apply Z.eqb_eq in Ed. rewrite Ed, Z.eqb_refl in Hd.
      discriminate. }
    rewrite E. intros k. reflexivity.
  - apply (in_sync_same k s); trivial.
    + unfold student_enrollments. store_simpl. now apply filter_filter_other.
    + unfold enrolled_names, student_enrollments, course_names_of. store_simpl.
      now rewrite filter_filter_other.
    + unfold legacy_courses, details_of. store_simpl.
      now rewrite find_other_filter.
Qed.

Lemma ensure_course_sync (name : str) (s : store) :
  wf_store s -> (forall k, in_sync k s) ->
  forall k, in_sync k (run (ensure_course name) s).
Proof.
  intros W H k. unfold run. rewrite ensure_course_run. cbn [snd].
  assert (W' : wf_store (apply_statement (insert_ignore_course name) s)).
  { apply (keeps_wf_execute _ (wf_insert_ignore_course name)), W. }
  rewrite apply_insert_ignore_course in *.
  destruct (has_course_named name s); [apply H|].
  apply (in_sync_same k s); trivial.
  eapply (enrolled_names_frame k s _ _ W W'); reflexivity.
Qed.

(** Every call other than the two course edits keeps the invariant. *)
Lemma perform_preserves_sync (op : mutation) (s : store) :
  wf_store s -> students_have_details s -> course_edit op = false ->
  (forall k, in_sync k s) -> forall k, in_sync k (run (perform op) s).
Proof.
  intros W Hd Hop H. destruct op; try discriminate; cbn [perform].
  - intros k. unfold run. rewrite bind_run.
    destruct (result (ensure_course name) s); now apply ensure_course_sync.
  - intros k. destruct (Z.eq_dec k sid) as [->|Hk].
    + apply sync_establishes; trivial. apply Hd.
    + now apply sync_preserves_other.
  - now apply upsert_preserves_sync.
  - intros k. unfold insert_student, run. rewrite bind_run.
    unfold result, run, execute.
    destruct (insert_student_row sid name age email s) as [si|e] eqn:E; cbn [fst snd];
      [|apply H].
    change (in_sync k (run (upsert_student_details sid phone csv) si)).
    assert (Wi : wf_store si) by (eapply wf_insert_student_row; eauto).
    apply upsert_preserves_sync; trivial.
    unfold insert_student_row in E. destruct (has_student sid s); [discriminate|].
    injection E as <-. exact H.
  - exact H.
  - now apply delete_student_sync.
  - intros k. unfold create_course, run. rewrite bind_run.
    destruct (result (ensure_course (strip name)) s); now apply ensure_course_sync.
Qed.

(** *** Every reachable store has a details row for every student *)

Lemma existsb_key_map {A} (f : A -> Z) (sid k : Z) (g : A -> A) (l : list A) :
  (forall x, f (g x) = f x) ->
  existsb (fun x => Z.eqb (f x) k) (map (fun x => if Z.eqb (f x) sid then g x else x) l)
  = existsb (fun x => Z.eqb (f x) k) l.
Proof.
  intros Hg. induction l as [|x l IH]; simpl; trivial.
  rewrite IH. f_equal. destruct (Z.eqb (f x) sid); trivial. now rewrite Hg.
Qed.

Lemma sync_keeps_details (sid : Z) (csv : option str) (s : store) :
  students_have_details s ->
  students_have_details (run (set_student_courses sid csv) s).
Proof.
  intros H k. destruct (set_student_courses_frame sid csv s) as [_ [_ [Hst [Hd _]]]].
  unfold has_student, has_details. rewrite Hst, Hd.
  rewrite (existsb_key_map d_StudentID sid k
             (fun d => mkDetails (d_StudentID d) (PhoneNumber d)
                         (Some (join comma_space (_normalize_courses csv)))))
    by reflexivity.
  apply H.
Qed.

Lemma upsert_keeps_details (sid : Z) (phone : str) (csv : option str) (s : store) :
  students_have_details s ->
  students_have_details (run (upsert_student_details sid phone csv) s).
Proof.
  intros H. unfold run. rewrite upsert_student_details_run.
  destruct (upsert_details sid (Some phone) csv s) as [su|e] eqn:E; [|exact H].
  apply sync_keeps_details. intros k Hk.
  destruct (upsert_details_frame _ _ _ _ _ E) as [_ [Hst [_ [_ [_ [Hmono _]]]]]].
  apply Hmono, H. unfold has_student in *. now rewrite <- Hst.
Qed.

Lemma insert_keeps_details sid name age email phone csv (s : store) :
  students_have_details s ->
  students_have_details (run (insert_student sid name age email phone csv) s).
Proof.
  intros H. unfold insert_student, run. rewrite bind_run.
  unfold result, run, execute.
  destruct (insert_student_row sid name age email s) as [si|e] eqn:E; cbn [fst snd];
    [|exact H].
  unfold insert_student_row in E. destruct (has_student sid s) eqn:Hs; [discriminate|].
  injection E as <-.
  set (si := with_students (students s ++ [mkStudent sid name age email]) s).
  rewrite upsert_student_details_run.
  assert (Hsi : has_student sid si = true).
  { unfold has_student, si. store_simpl. rewrite existsb_app. simpl.
    now rewrite Z.eqb_refl, orb_true_r. }
  destruct (upsert_details sid (Some phone) csv si) as [su|e] eqn:E.
  - apply sync_keeps_details. intros k Hk.
    destruct (upsert_details_frame _ _ _ _ _ E) as [_ [Hst [_ [_ [Hd [Hmono _]]]]]].
    unfold has_student in Hk. rewrite Hst in Hk. unfold si in Hk. store_simpl.
    rewrite existsb_app in Hk. apply orb_true_iff in Hk. destruct Hk as [Hk|Hk].
    + apply Hmono. now apply H.
    + simpl in Hk. rewrite orb_false_r in Hk. apply Z.eqb_eq in Hk. now subst.
  - exfalso. unfold upsert_details in E. rewrite Hsi in E.
    now destruct (has_details sid si).
Qed.

Lemma run_then_ret {A B} (m : M A) (b : B) (s : store) :
  run (bind m (fun _ => ret b)) s = run m s.
Proof. unfold run, bind, ret. now destruct (m s) as [[a|e] s']. Qed.

Lemma run_ensure_course (name : str) (s : store) :
  run (ensure_course name) s =
  if has_course_named name s then s
  else with_auto_increment (auto_increment s + 1)
         (with_courses (courses s ++ [mkCourse (auto_increment s) name]) s).
Proof. unfold run. now rewrite ensure_course_run. Qed.

Lemma perform_keeps_details (op : mutation) (s : store) :
  students_have_details s -> students_have_details (run (perform op) s).
Proof.
  intros H. destruct op; cbn [perform].
  - rewrite run_then_ret, run_ensure_course. now destruct (has_course_named name s).
  - now apply sync_keeps_details.
  - now apply upsert_keeps_details.
  - now apply insert_keeps_details.
  - intros k. unfold run, update_student, execute, update_student_row. cbn [snd].
    rewrite has_student_update. apply H.
  - intros k Hk. unfold run, delete_student, execute, delete_student_row in *.
    cbn [snd] in *. unfold has_student, has_details in *. store_simpl.
    destruct (Z.eq_dec k sid) as [->|Hne].
    + exfalso. apply existsb_exists in Hk. destruct Hk as [x [Hx Hk]].
      apply filter_In in Hx. destruct Hx as [_ Hx]. now rewrite Hk in Hx.
    + rewrite (existsb_filter_other StudentID) in Hk by trivial.
      rewrite (existsb_filter_other d_StudentID) by trivial. exact (H k Hk).
  - unfold create_course. rewrite run_then_ret, run_ensure_course.
    now destruct (has_course_named (strip name) s).
  - unfold run, rename_course, execute.
    now destruct (update_course_name (strip name) cid s) eqn:E;
      [unfold update_course_name in E; destruct (_ && _); [discriminate|];
       injection E as <- |].
  - exact H.
Qed.

Lemma reachable_details (s : store) : reachable s -> students_have_details s.
Proof.
  induction 1 as [c|s op _ IH]; [intros k Hk; discriminate|].
  now apply perform_keeps_details.
Qed.

Lemma reachable_without_course_edit_reachable (s : store) :
  reachable_without_course_edit s -> reachable s.
Proof. induction 1; now constructor. Qed.

(** C2 (as amended).  In every store reachable through the public calls other
    than [rename_course] and [delete_course], for every student, the course
    names reached through StudentCourse are, up to case and order, the names
    the CourseS field implies, with no exception; and on every reachable
    store each public call other than those two keeps this invariant. *)
Theorem legacy_sync_invariant :
  (forall s, reachable_without_course_edit s -> forall sid, in_sync sid s)
  /\ (forall s op, reachable s -> course_edit op = false ->
                   (forall sid, in_sync sid s) ->
                   forall sid, in_sync sid (run (perform op) s)).
Proof.
  assert (P : forall s op, reachable s -> course_edit op = false ->
                (forall sid, in_sync sid s) ->
                forall sid, in_sync sid (run (perform op) s)).
  { intros s op R Hop H.
    apply perform_preserves_sync; auto using reachable_wf, reachable_details. }
  split; [|exact P].
  induction 1 as [c|s op R IH Hop]; [intros sid k; reflexivity|].
  apply P; trivial. now apply reachable_without_course_edit_reachable.
Qed.

(** * Further properties of the repository *)

(** ** More on the normalizer *)

Lemma split_app_any (sep : codepoint) (a b : str) :
  split sep (a ++ sep :: b) = split sep a ++ split sep b.
Proof.
  induction a as [|c a IH]; simpl.
  - now rewrite N.eqb_refl.
  - destruct (N.eqb_spec c sep) as [_|_]; [now rewrite IH|].
    rewrite IH. pose proof (split_not_nil sep a) as Hne.
    destruct (split sep a) as [|t ts]; [congruence | reflexivity].
Qed.

Lemma split_parts_chars (sep : codepoint) (s p : str) (c : codepoint) :
  In p (split sep s) -> In c p -> In c s.
Proof.
  revert p. induction s as [|x s IH]; simpl; intros p Hp Hc.
  - destruct Hp as [<-|[]]. destruct Hc.
  - destruct (N.eqb_spec x sep) as [_|_].
    + destruct Hp as [<-|Hp]; [destruct Hc|]. right. now apply (IH p).
    + pose proof (split_not_nil sep s) as Hne.
      destruct (split sep s) as [|t ts]; [congruence|].
      destruct Hp as [<-|Hp].
      * destruct Hc as [<-|Hc]; [now left|]. right. apply (IH t); [now left | trivial].
      * right. apply (IH p); [now right | trivial].
Qed.

Lemma split_covers (sep : codepoint) (s : str) (c : codepoint) :
  In c s -> c <> sep -> exists p, In p (split sep s) /\ In c p.
Proof.
  induction s as [|x s IH]; simpl; intros Hc Hne; [destruct Hc|].
  destruct (N.eqb_spec x sep) as [E|NE].
  - destruct Hc as [<-|Hc]; [congruence|].
    destruct (IH Hc Hne) as [p [Hp Hcp]]. exists p. split; [now right | trivial].
  - pose proof (split_not_nil sep s) as Hnil.
    destruct (split sep s) as [|t ts]; [congruence|].
    destruct Hc as [<-|Hc].
    + exists (x :: t). split; now left.
    + destruct (IH Hc Hne) as [p [[<-|Hp] Hcp]].
      * exists (x :: t). split; [now left | now right].
      * exists p. split; [now right | trivial].
Qed.

Lemma dropwhile_all {A} (p : A -> bool) (l : list A) :
  (forall x, In x l -> p x = true) -> dropwhile p l = [].
Proof.
  induction l as [|x l IH]; simpl; intros H; trivial.
  rewrite (H x) by now left. apply IH. intros; apply H; now right.
Qed.

Lemma dropwhile_keeps {A} (p : A -> bool) (l : list A) (x : A) :
  In x l -> p x = false -> In x (dropwhile p l).
Proof.
  induction l as [|y l IH]; simpl; intros Hx Px; [destruct Hx|].
  destruct (p y) eqn:Py; [|exact Hx].
  destruct Hx as [->|Hx]; [congruence | now apply IH].
Qed.

Lemma strip_blank (p : str) :
  (forall c, In c p -> is_space c = true) -> strip p = [].
Proof.
  intros H. unfold strip, lstrip. now rewrite dropwhile_all.
Qed.

Lemma strip_keeps (p : str) (c : codepoint) :
  In c p -> is_space c = false -> In c (strip p).
Proof.
  intros Hc Hs. unfold strip, rstrip, lstrip.
  rewrite <- in_rev. apply dropwhile_keeps; trivial.
  rewrite <- in_rev. now apply dropwhile_keeps.
Qed.

Lemma keep_first_seen_nil (l : list str) : keep_first_seen l = [] -> l = [].
Proof. destruct l; [trivial | discriminate]. Qed.

(** X1. The normalizer returns the empty list exactly for the inputs that hold
    nothing but commas and white space (the empty string among them). *)
Theorem normalize_empty_iff_blank (s : str) :
  _normalize_courses (Some s) = []
  <-> forall c, In c s -> c = comma \/ is_space c = true.
Proof.
  rewrite normalize_keep_first_seen. split.
  - intros H c Hc. apply keep_first_seen_nil in H.
    destruct (N.eq_dec c comma) as [->|Hne]; [now left|]. right.
    destruct (is_space c) eqn:Hs; trivial. exfalso.
    destruct (split_covers comma s c Hc Hne) as [p [Hp Hcp]].
    pose proof (strip_keeps p c Hcp Hs) as Hin.
    assert (X : In (strip p) (tokens (Some s))).
    { unfold tokens. apply filter_In. split; [now apply in_map|].
      destruct (strip p); [destruct Hin | reflexivity]. }
    rewrite H in X. destruct X.
  - intros H. unfold tokens.
    rewrite filter_nothing; [reflexivity|].
    intros t Ht. apply in_map_iff in Ht. destruct Ht as [p [<- Hp]].
    rewrite strip_blank; [reflexivity|].
    intros c Hc. destruct (H c (split_parts_chars comma s p c Hp Hc)) as [->|Hs]; trivial.
    now apply split_parts_no_sep in Hp.
Qed.

Lemma tokens_app (a b : str) :
  tokens (Some (a ++ comma :: b)) = tokens (Some a) ++ tokens (Some b).
Proof.
  unfold tokens. now rewrite split_app_any, map_app, filter_app.
Qed.

Lemma keep_first_seen_app (l1 l2 : list str) :
  keep_first_seen (l1 ++ l2) =
  keep_first_seen l1
  ++ filter (fun y => negb (existsb (fun x => same_fold x y) l1)) (keep_first_seen l2).
Proof.
  induction l1 as [|x l1 IH]; simpl.
  - symmetry. now apply filter_all.
  - f_equal. rewrite IH, filter_app. f_equal.
    rewrite filter_twice. apply filter_ext. intros y.
    rewrite negb_orb. apply andb_comm.
Qed.

Lemma existsb_keep_first_seen (l : list str) (y : str) :
  existsb (fun x => same_fold x y) (keep_first_seen l)
  = existsb (fun x => same_fold x y) l.
Proof.
  destruct (existsb (fun x => same_fold x y) l) eqn:E.
  - apply existsb_exists in E. destruct E as [x [Hx Hxy]].
    destruct (keep_first_seen_covers l x Hx) as [z [Hz Ez]].
    apply existsb_exists. exists z. split; trivial.
    unfold same_fold in *. now rewrite Ez.
  - destruct (existsb _ (keep_first_seen l)) eqn:F; trivial.
    apply existsb_exists in F. destruct F as [x [Hx Hxy]].
    apply keep_first_seen_In in Hx.
    assert (X : existsb (fun x => same_fold x y) l = true)
      by (apply existsb_exists; eauto).
    congruence.
Qed.

Lemma keep_first_seen_twice (l : list str) :
  keep_first_seen (l ++ l) = keep_first_seen l.
Proof.
  rewrite keep_first_seen_app. rewrite filter_nothing; [apply app_nil_r|].
  intros y Hy. apply negb_false_iff. apply keep_first_seen_In in Hy.
  apply existsb_exists. exists y. split; trivial. apply str_eqb_refl.
Qed.

(** X2. Appending a comma and a second CSV to a CSV keeps the normalized names
    of the first in place and adds after them, in order, the normalized names
    of the second that the first does not already have up to case; repeating a
    CSV after itself changes nothing. *)
Theorem normalize_append (a b : str) :
  _normalize_courses (Some (a ++ comma :: b)) =
    _normalize_courses (Some a)
    ++ filter (fun y => negb (existsb (fun x => same_fold x y)
                                (_normalize_courses (Some a))))
         (_normalize_courses (Some b))
  /\ _normalize_courses (Some (a ++ comma :: a)) = _normalize_courses (Some a).
Proof.
  rewrite !normalize_keep_first_seen, !tokens_app. split.
  - rewrite keep_first_seen_app. f_equal. apply filter_ext. intros y.
    now rewrite existsb_keep_first_seen.
  - apply keep_first_seen_twice.
Qed.

(** ** The course registrar and the course edits *)

Lemma course_id_of_unique (name : str) (s : store) (crow : Course) :
  wf_store s -> In crow (courses s) ->
  coll_key (db_collation s) (CourseName crow) = coll_key (db_collation s) name ->
  course_id_of name s = CourseID crow.
Proof.
  intros W Hin Hk.
  assert (Hn : has_course_named name s = true).
  { unfold has_course_named. apply existsb_exists. exists crow. split; trivial.
    now apply name_eqb_eq. }
  destruct (course_id_of_row name s Hn) as [crow' [Hin' [Hk' Hid']]].
  rewrite <- Hid'. f_equal.
  apply (NoDup_map_inj_in (fun c => coll_key (db_collation s) (CourseName c))
           (courses s)); trivial; [apply W | congruence].
Qed.

Lemma course_id_of_created (name : str) (s : store) :
  has_course_named name s = false ->
  course_id_of name
    (with_auto_increment (auto_increment s + 1)
       (with_courses (courses s ++ [mkCourse (auto_increment s) name]) s))
  = auto_increment s.
Proof.
  intros H. unfold course_id_of, select_course_id. store_simpl.
  rewrite filter_app, (filter_none _ (courses s)) by exact H.
  simpl. now rewrite name_eqb_refl.
Qed.

(** X3. [ensure_course] gets or creates: when a course of the name exists (up to
    the collation of the column) it changes nothing and, in a store that
    satisfies its keys, returns the identifier of that course; otherwise it
    appends one course of that name under the next identifier and returns it.
    A second call with the same name returns the same identifier and changes
    nothing. *)
Theorem ensure_course_get_or_create (name : str) (s : store) :
  let s1 := run (ensure_course name) s in
  (has_course_named name s = true -> s1 = s)
  /\ (has_course_named name s = false ->
      s1 = with_auto_increment (auto_increment s + 1)
             (with_courses (courses s ++ [mkCourse (auto_increment s) name]) s)
      /\ result (ensure_course name) s = Ok (auto_increment s))
  /\ (wf_store s ->
      forall crow, In crow (courses s) ->
        name_eqb (db_collation s) (CourseName crow) name = true ->
        result (ensure_course name) s = Ok (CourseID crow))
  /\ result (ensure_course name) s1 = result (ensure_course name) s
  /\ run (ensure_course name) s1 = s1.
Proof.
  intros s1. unfold s1. rewrite run_ensure_course.
  assert (Hres : forall t, result (ensure_course name) t
                           = Ok (course_id_of name (run (ensure_course name) t))).
  { intros t. unfold result, run. now rewrite ensure_course_run. }
  split; [|split; [|split; [|split]]].
  - now intros ->.
  - intros H. rewrite H. split; trivial.
    rewrite Hres, run_ensure_course, H. now rewrite course_id_of_created.
  - intros W crow Hin Hk. apply name_eqb_eq in Hk.
    assert (Hn : has_course_named name s = true).
    { unfold has_course_named. apply existsb_exists. exists crow. split; trivial.
      now apply name_eqb_eq. }
    rewrite Hres, run_ensure_course, Hn. f_equal.
    now apply course_id_of_unique.
  - pose proof (has_course_named_after_insert name s) as Hn.
    rewrite apply_insert_ignore_course in Hn.
    rewrite (Hres s), Hres, !run_ensure_course.
    destruct (has_course_named name s) eqn:E; rewrite Hn; reflexivity.
  - pose proof (has_course_named_after_insert name s) as Hn.
    rewrite apply_insert_ignore_course in Hn.
    rewrite run_ensure_course. now rewrite Hn.
Qed.

(** X4. [create_course] never raises and has no guard on the name: it ensures
    the course of the trimmed name, so a name of white space only creates (or
    finds) the course with the empty name.  It leaves students, details and
    enrollments alone, gives the same store for a name and for its trimmed
    form, and a second call changes nothing. *)
Theorem create_course_effect (name : str) (s : store) :
  let s' := run (create_course name) s in
  result (create_course name) s = Ok tt
  /\ s' = run (ensure_course (strip name)) s
  /\ s' = run (create_course (strip name)) s
  /\ has_course_named (strip name) s' = true
  /\ run (create_course name) s' = s'
  /\ students s' = students s /\ details s' = details s
  /\ enrollments s' = enrollments s
  /\ ((forall c, In c name -> is_space c = true) ->
      has_course_named [] s' = true
      /\ (has_course_named [] s = false ->
          courses s' = courses s ++ [mkCourse (auto_increment s) []])).
Proof.
  intros s'.
  assert (E : s' = run (ensure_course (strip name)) s)
    by (unfold s', create_course; apply run_then_ret).
  assert (Hn : has_course_named (strip name) s' = true).
  { rewrite E, run_ensure_course.
    pose proof (has_course_named_after_insert (strip name) s) as Hn.
    now rewrite apply_insert_ignore_course in Hn. }
  split; [|split; [exact E|split; [|split; [exact Hn|split; [|split; [|split; [|split]]]]]]].
  - unfold result, create_course, bind. now rewrite ensure_course_run.
  - rewrite E. unfold create_course. rewrite run_then_ret. now rewrite strip_idem.
  - unfold create_course. rewrite run_then_ret, run_ensure_course. now rewrite Hn.
  - rewrite E, run_ensure_course. now destruct (has_course_named (strip name) s).
  - rewrite E, run_ensure_course. now destruct (has_course_named (strip name) s).
  - rewrite E, run_ensure_course. now destruct (has_course_named (strip name) s).
  - intros Hb. rewrite (strip_blank name Hb) in *. split; [exact Hn|].
    intros Hno. rewrite E, run_ensure_course, Hno. reflexivity.
Qed.

Lemma rename_course_run (cid : Z) (name : str) (s : store) :
  rename_course cid name s =
  match update_course_name (strip name) cid s with
  | Ok s' => (Ok tt, s')
  | Raise e => (Raise e, s)
  end.
Proof. reflexivity. Qed.

Lemma filter_other_update {A} (f : A -> Z) (cid k : Z) (v : A) (l : list A) :
  k <> cid -> f v = cid ->
  filter (fun x => Z.eqb (f x) k) (map (fun x => if Z.eqb (f x) cid then v else x) l)
  = filter (fun x => Z.eqb (f x) k) l.
Proof.
  intros Hk Hv. induction l as [|x l IH]; simpl; trivial.
  destruct (Z.eqb_spec (f x) cid) as [E|NE].
  - rewrite Hv, IH. destruct (Z.eqb_spec cid k), (Z.eqb_spec (f x) k); congruence.
  - now rewrite IH.
Qed.

(** X5. [rename_course] trims the new name and changes the Course table only:
    students, details (so every legacy CourseS) and enrollments stay, and so do
    the course identifiers.  It is refused, with the store unchanged, exactly
    when the course exists and another course has the name already; on an
    identifier no course has it returns without a change.  After a rename that
    went through in a store satisfying its keys, the course carries the trimmed
    name, every other course its old one, and [ensure_course] of the trimmed
    name finds the renamed course and creates nothing. *)
Theorem rename_course_effect (cid : Z) (name : str) (s : store) :
  let s' := run (rename_course cid name) s in
  let taken := existsb (fun c => negb (Z.eqb (CourseID c) cid)
                                 && name_eqb (db_collation s) (CourseName c) (strip name))
                 (courses s) in
  students s' = students s /\ details s' = details s
  /\ enrollments s' = enrollments s
  /\ map CourseID (courses s') = map CourseID (courses s)
  /\ (result (rename_course cid name) s = Raise IntegrityError
      <-> has_course cid s = true /\ taken = true)
  /\ (result (rename_course cid name) s <> Ok tt -> s' = s)
  /\ (has_course cid s = false ->
      result (rename_course cid name) s = Ok tt /\ s' = s)
  /\ (wf_store s -> has_course cid s = true ->
      result (rename_course cid name) s = Ok tt ->
      course_names_of cid s' = [strip name]
      /\ (forall k, k <> cid -> course_names_of k s' = course_names_of k s)
      /\ result (ensure_course (strip name)) s' = Ok cid
      /\ run (ensure_course (strip name)) s' = s').
Proof.
  intros s' taken. unfold s', result, run. rewrite rename_course_run.
  unfold update_course_name. fold taken.
  destruct (has_course cid s) eqn:Hc; destruct taken eqn:Ht; cbn [andb fst snd];
    store_simpl.
  - repeat split; try tauto; try congruence; discriminate.
  - split; [reflexivity|]. split; [reflexivity|]. split; [reflexivity|].
    split; [now rewrite (map_key_update CourseID cid (fun _ => mkCourse cid (strip name)))|].
    split; [split; [discriminate | intros [_ H]; discriminate]|].
    split; [congruence|]. split; [discriminate|].
    intros W _ _.
    set (s1 := with_courses
                 (map (fun c => if Z.eqb (CourseID c) cid
                                then mkCourse cid (strip name) else c) (courses s)) s).
    assert (W1 : wf_store s1).
    { apply (wf_update_course_name (strip name) cid s); trivial.
      unfold update_course_name. fold taken. now rewrite Hc, Ht. }
    assert (Hin : In (mkCourse cid (strip name)) (courses s1)).
    { apply has_course_In, in_map_iff in Hc. destruct Hc as [c0 [E0 H0]].
      unfold s1. store_simpl. apply in_map_iff. exists c0. split; trivial.
      apply Z.eqb_eq in E0. now rewrite E0. }
    split; [|split; [|split]].
    + unfold course_names_of.
      pose proof (filter_key_unique CourseID (courses s1) (mkCourse cid (strip name))
                    (wf_course_pk s1 W1) Hin) as F.
      cbn [CourseID] in F. now rewrite F.
    + intros k Hk. unfold course_names_of, s1. store_simpl.
      now rewrite (filter_other_update CourseID cid k).
    + unfold result. rewrite ensure_course_run. cbn [fst]. f_equal.
      assert (Hn : has_course_named (strip name) s1 = true).
      { unfold has_course_named. apply existsb_exists. eexists. split; [exact Hin|].
        apply name_eqb_refl. }
      rewrite apply_insert_ignore_course, Hn.
      now apply (course_id_of_unique (strip name) s1 (mkCourse cid (strip name))).
    + rewrite ensure_course_run. cbn [snd].
      assert (Hn : has_course_named (strip name) s1 = true).
      { unfold has_course_named. apply existsb_exists. eexists. split; [exact Hin|].
        apply name_eqb_refl. }
      now rewrite apply_insert_ignore_course, Hn.
  - assert (X : map (fun c => if Z.eqb (CourseID c) cid
                              then mkCourse cid (strip name) else c) (courses s)
                = courses s).
    { apply map_update_absent. intros Hin. apply has_course_In in Hin. congruence. }
    rewrite X.
    assert (Es : with_courses (courses s) s = s) by now destruct s.
    rewrite Es. repeat split; try tauto; try congruence; try discriminate.
    intros [H _]; discriminate.
  - assert (X : map (fun c => if Z.eqb (CourseID c) cid
                              then mkCourse cid (strip name) else c) (courses s)
                = courses s).
    { apply map_update_absent. intros Hin. apply has_course_In in Hin. congruence. }
    rewrite X.
    assert (Es : with_courses (courses s) s = s) by now destruct s.
    rewrite Es. repeat split; try tauto; try congruence; try discriminate.
    intros [H _]; discriminate.
Qed.

(** ** Listing, updating and deleting students *)

Lemma student_report_eq (s s' : store) (x : Student) :
  db_collation s' = db_collation s ->
  enrolled_names (StudentID x) s' = enrolled_names (StudentID x) s ->
  details_of (StudentID x) s' = details_of (StudentID x) s ->
  student_report s' x = student_report s x.
Proof.
  intros Hc Hn Hd.
  unfold student_report, courses_value, phone_number, legacy_courses.
  now rewrite Hc, Hn, Hd.
Qed.

Lemma report_ids (s : store) (l : list Student) :
  map r_StudentID (map (student_report s) l) = map StudentID l.
Proof. rewrite map_map. reflexivity. Qed.

Lemma get_student_missing (i : Z) (s : store) :
  wf_store s -> ~ In i (map StudentID (students s)) ->
  result (get_student i) s = Ok None.
Proof.
  intros W H. unfold result. rewrite get_student_run. cbn [fst].
  rewrite select_students_one by trivial.
  destruct (find _ (students s)) as [x|] eqn:E; trivial.
  exfalso. apply H. apply find_some in E. destruct E as [Hx Hi].
  apply Z.eqb_eq in Hi. rewrite <- Hi. now apply in_map.
Qed.

(** X6. In a store that satisfies its keys [list_students] with no filter
    returns one record per Student row, in descending order of StudentID with
    no identifier twice, and leaves the store as it was. *)
Theorem list_students_order (s : store) :
  wf_store s ->
  exists rows,
    list_students None s = (Ok rows, s)
    /\ Permutation rows (map (student_report s) (students s))
    /\ List.length rows = List.length (students s)
    /\ NoDup (map r_StudentID rows)
    /\ Sorted (fun a b => Z.leb (r_StudentID b) (r_StudentID a) = true) rows.
Proof.
  intros W. exists (select_students None s). split; [reflexivity|].
  rewrite select_students_all by trivial.
  set (leb := fun a b => Z.leb (r_StudentID b) (r_StudentID a)).
  assert (P : Permutation (order_by leb (map (student_report s) (students s)))
                (map (student_report s) (students s))) by apply order_by_perm.
  split; [exact P|]. split; [|split].
  - rewrite (Permutation_length P). apply length_map.
  - eapply Permutation_NoDup; [apply Permutation_map; symmetry; exact P|].
    rewrite report_ids. apply W.
  - apply order_by_sorted. intros a b. unfold leb. intros H.
    apply Z.leb_gt in H. apply Z.leb_le. lia.
Qed.

(** X7. In a store that satisfies its keys [get_student] of an identifier
    returns a record exactly when the unfiltered listing holds that record
    under that identifier. *)
Theorem get_student_in_listing (s : store) (i : Z) (r : student_row) :
  wf_store s ->
  (result (get_student i) s = Ok (Some r)
   <-> exists rows, result (list_students None) s = Ok rows
                    /\ In r rows /\ r_StudentID r = i).
Proof.
  intros W. unfold result at 1. rewrite get_student_run. cbn [fst].
  rewrite select_students_one by trivial. split.
  - destruct (find _ (students s)) as [x|] eqn:E; [|discriminate].
    intros H. injection H as <-. apply find_some in E. destruct E as [Hx Hi].
    exists (select_students None s). split; [reflexivity|].
    rewrite select_students_all by trivial. split.
    + apply order_by_In. now apply in_map.
    + simpl. now apply Z.eqb_eq.
  - intros [rows [E [Hin Hi]]]. unfold result, list_students, fetch_all in E.
    cbn [fst] in E. injection E as <-.
    rewrite select_students_all in Hin by trivial.
    apply order_by_In, in_map_iff in Hin. destruct Hin as [x [<- Hx]].
    simpl in Hi. subst i.
    now rewrite (find_unique StudentID _ x (wf_student_pk s W) Hx).
Qed.

Lemma update_student_run (sid : Z) (name : str) (age : Z) (email : str) (s : store) :
  update_student sid name age email s =
  (Ok tt,
   with_students
     (map (fun x => if Z.eqb (StudentID x) sid
                    then mkStudent sid name age email else x) (students s)) s).
Proof. reflexivity. Qed.

(** X8. [update_student] never raises and writes the Student table only.  On
    an identifier no student has it changes nothing.  In a store that satisfies
    its keys, [get_student] afterwards returns the new name, age and email with
    the phone number and the Courses value it had, and the records of the other
    students are as before. *)
Theorem update_student_effect (sid : Z) (name : str) (age : Z) (email : str)
  (s : store) :
  let s' := run (update_student sid name age email) s in
  result (update_student sid name age email) s = Ok tt
  /\ details s' = details s /\ courses s' = courses s
  /\ enrollments s' = enrollments s
  /\ map StudentID (students s') = map StudentID (students s)
  /\ (has_student sid s = false -> s' = s)
  /\ (wf_store s -> has_student sid s = true ->
      result (get_student sid) s'
      = Ok (Some (mkStudentRow sid name age email
                    (phone_number sid s) (courses_value sid s))))
  /\ (wf_store s -> forall y, In y (students s) -> StudentID y <> sid ->
      result (get_student (StudentID y)) s' = result (get_student (StudentID y)) s).
Proof.
  intros s'. unfold s', run, result. rewrite update_student_run. cbn [fst snd].
  set (s1 := with_students _ s).
  assert (W1 : wf_store s -> wf_store s1).
  { intros W. now apply (wf_update_student_row name age email sid s). }
  split; [reflexivity|]. do 3 (split; [reflexivity|]).
  split; [|split; [|split]].
  - unfold s1. store_simpl.
    now rewrite (map_key_update StudentID sid (fun _ => mkStudent sid name age email)).
  - intros Hs. unfold s1. rewrite map_update_absent.
    + now destruct s.
    + intros Hin. apply has_student_In in Hin. congruence.
  - intros W Hs.
    assert (Hin : In (mkStudent sid name age email) (students s1)).
    { apply has_student_In, in_map_iff in Hs. destruct Hs as [x [Ex Hx]].
      unfold s1. store_simpl. apply in_map_iff. exists x. split; trivial.
      apply Z.eqb_eq in Ex. now rewrite Ex. }
    apply (get_student_found s1 (mkStudent sid name age email) (W1 W) Hin).
  - intros W y Hy Hne.
    assert (Hin : In y (students s1)).
    { unfold s1. store_simpl. apply in_map_iff. exists y. split; trivial.
      destruct (Z.eqb_spec (StudentID y) sid); [congruence | reflexivity]. }
    change (result (get_student (StudentID y)) s1 = result (get_student (StudentID y)) s).
    rewrite (get_student_found s1 y (W1 W) Hin), (get_student_found s y W Hy).
    reflexivity.
Qed.

Lemma delete_student_run (sid : Z) (s : store) :
  delete_student sid s =
  (Ok tt,
   with_students (filter (fun x => negb (Z.eqb (StudentID x) sid)) (students s))
     (cascade_student sid s)).
Proof. reflexivity. Qed.

(** X9. [delete_student] never raises and never touches the Course table.  In a
    store that satisfies its keys, afterwards [get_student] of the identifier
    returns None, no details or enrollment row of the student is left, and the
    listing is the listing before without the record of that identifier: the
    records of the other students are unchanged. *)
Theorem delete_student_effect (sid : Z) (s : store) :
  wf_store s ->
  let s' := run (delete_student sid) s in
  result (delete_student sid) s = Ok tt
  /\ courses s' = courses s
  /\ result (get_student sid) s' = Ok None
  /\ details_of sid s' = None
  /\ student_enrollments sid s' = []
  /\ (forall r, In r (select_students None s')
                <-> In r (select_students None s) /\ r_StudentID r <> sid).
Proof.
  intros W s'. unfold s', run, result. rewrite delete_student_run. cbn [fst snd].
  set (s1 := with_students _ (cascade_student sid s)).
  assert (W1 : wf_store s1) by now apply (wf_delete_student_row sid s).
  assert (Hrep : forall y, StudentID y <> sid -> student_report s1 y = student_report s y).
  { intros y Hy. apply student_report_eq; trivial.
    - unfold enrolled_names, student_enrollments, course_names_of, s1. store_simpl.
      now rewrite filter_filter_other.
    - unfold details_of, s1. store_simpl. now rewrite find_other_filter. }
  split; [reflexivity|]. split; [reflexivity|]. split; [|split; [|split]].
  - change (result (get_student sid) s1 = Ok None).
    apply (get_student_missing sid s1 W1).
    unfold s1. store_simpl. intros Hin. apply in_map_iff in Hin.
    destruct Hin as [x [Ex Hx]]. apply filter_In in Hx. destruct Hx as [_ Hx].
    apply negb_true_iff, Z.eqb_neq in Hx. congruence.
  - unfold details_of, s1. store_simpl.
    destruct (find _ (filter _ (details s))) as [d|] eqn:E; trivial.
    apply find_some in E. destruct E as [Hd Ed]. apply filter_In in Hd.
    destruct Hd as [_ Hd]. apply Z.eqb_eq in Ed. rewrite Ed, Z.eqb_refl in Hd.
    discriminate.
  - unfold student_enrollments, s1. store_simpl. apply filter_filter_same.
  - intros r. rewrite !select_students_all by trivial. rewrite !order_by_In.
    unfold s1 at 2. store_simpl. split.
    + intros H. apply in_map_iff in H. destruct H as [y [<- Hy]].
      apply filter_In in Hy. destruct Hy as [Hy Hne].
      apply negb_true_iff, Z.eqb_neq in Hne.
      split; [|exact Hne]. rewrite (Hrep y Hne). now apply in_map.
    + intros [H Hne]. apply in_map_iff in H. destruct H as [y [<- Hy]].
      simpl in Hne. rewrite <- (Hrep y Hne). apply in_map.
      apply filter_In. split; trivial. now apply negb_true_iff, Z.eqb_neq.
Qed.

(** ** More on the synchronizer and on [insert_student] *)

Lemma enrolled_names_none (sid : Z) (s : store) :
  student_enrollments sid s = [] -> enrolled_names sid s = [].
Proof. unfold enrolled_names. now intros ->. Qed.

Lemma details_of_other_after_sync (sid k : Z) (csv : option str) (s : store) :
  k <> sid ->
  details_of k (run (set_student_courses sid csv) s) = details_of k s.
Proof.
  intros Hk. destruct (set_student_courses_frame sid csv s) as [_ [_ [_ [Hd _]]]].
  rewrite (details_of_updated sid k _ s _ Hd).
  destruct (details_of k s) as [d|] eqn:E; trivial.
  apply details_of_some in E. destruct E as [E _].
  destruct (Z.eqb_spec (d_StudentID d) sid); [congruence | reflexivity].
Qed.

Lemma phone_after_sync (sid : Z) (csv : option str) (s : store) :
  phone_number sid (run (set_student_courses sid csv) s) = phone_number sid s.
Proof. now destruct (legacy_after_sync sid csv s) as [_ [H _]]. Qed.

(** X10. With a CSV that normalizes to nothing (None, the empty string, commas
    and white space) [set_student_courses] deletes the enrollment rows of the
    student, writes the empty string to CourseS and changes nothing else; in a
    store that satisfies its keys a student with a details row is then reported
    with the empty string as Courses. *)
Theorem set_student_courses_clear (sid : Z) (csv : option str) (s : store) :
  _normalize_courses csv = [] ->
  let s' := run (set_student_courses sid csv) s in
  set_student_courses sid csv s =
    (Ok tt,
     with_details
       (map (fun d => if Z.eqb (d_StudentID d) sid
                      then mkDetails (d_StudentID d) (PhoneNumber d) (Some [])
                      else d) (details s))
       (with_enrollments
          (filter (fun e => negb (Z.eqb (sc_StudentID e) sid)) (enrollments s)) s))
  /\ student_enrollments sid s' = []
  /\ courses s' = courses s
  /\ (wf_store s -> has_details sid s = true ->
      forall x, In x (students s) -> StudentID x = sid ->
        result (get_student sid) s'
        = Ok (Some (mkStudentRow sid (Name x) (Age x) (Email x)
                      (phone_number sid s) (Some [])))).
Proof.
  intros Hnil s'.
  assert (E : set_student_courses sid csv s =
    (Ok tt,
     with_details
       (map (fun d => if Z.eqb (d_StudentID d) sid
                      then mkDetails (d_StudentID d) (PhoneNumber d) (Some [])
                      else d) (details s))
       (with_enrollments
          (filter (fun e => negb (Z.eqb (sc_StudentID e) sid)) (enrollments s)) s))).
  { rewrite set_student_courses_run, Hnil. reflexivity. }
  assert (He : student_enrollments sid s' = []).
  { unfold s', run. rewrite E. unfold student_enrollments. store_simpl.
    apply filter_filter_same. }
  split; [exact E|]. split; [exact He|]. split.
  - unfold s', run. now rewrite E.
  - intros W Hd x Hx Hid.
    assert (W' : wf_store s') by now apply keeps_wf_set_student_courses.
    assert (Hx' : In x (students s')).
    { unfold s', run. now rewrite E. }
    subst sid. rewrite (get_student_found s' x W' Hx').
    unfold student_report, courses_value. do 3 f_equal.
    + apply phone_after_sync.
    + rewrite (enrolled_names_none _ _ He). cbn [group_concat_distinct nullif_empty coalesce].
      destruct (legacy_after_sync (StudentID x) csv s) as [Hl _]. fold s' in Hl.
      rewrite Hl. unfold has_details in Hd. unfold details_of.
      destruct (find _ (details s)) eqn:F.
      * unfold normalize_to_csv. now rewrite Hnil.
      * exfalso. apply existsb_exists in Hd. destruct Hd as [d [Hin Hd]].
        apply (find_none _ _ F) in Hin. congruence.
Qed.

(** X11. In a store that satisfies its keys, setting the courses of one student
    leaves the Student table, every existing course row, the student's own
    phone number and the record of every other student as they were. *)
Theorem set_student_courses_others (sid : Z) (csv : option str) (s : store) :
  wf_store s ->
  let s' := run (set_student_courses sid csv) s in
  students s' = students s
  /\ (exists new, courses s' = courses s ++ new)
  /\ phone_number sid s' = phone_number sid s
  /\ (forall y, In y (students s) -> StudentID y <> sid ->
        result (get_student (StudentID y)) s' = result (get_student (StudentID y)) s).
Proof.
  intros W s'.
  destruct (set_student_courses_frame sid csv s)
    as [_ [Hc [Hst [_ [[new [Hn _]] _]]]]]. fold s' in Hc, Hst, Hn.
  assert (W' : wf_store s') by now apply keeps_wf_set_student_courses.
  split; [exact Hst|]. split; [now exists new|]. split; [apply phone_after_sync|].
  intros y Hy Hne.
  assert (Hy' : In y (students s')) by now rewrite Hst.
  rewrite (get_student_found s' y W' Hy'), (get_student_found s y W Hy).
  do 2 f_equal. apply student_report_eq; trivial.
  - apply (enrolled_names_frame _ s s' new); trivial.
    now apply student_enrollments_other_after_sync.
  - now apply details_of_other_after_sync.
Qed.

Lemma insert_student_run sid name age email phone csv (s : store) :
  insert_student sid name age email phone csv s =
  if has_student sid s then (Raise IntegrityError, s)
  else upsert_student_details sid phone csv
         (with_students (students s ++ [mkStudent sid name age email]) s).
Proof.
  unfold insert_student, bind, execute, insert_student_row.
  now destruct (has_student sid s).
Qed.

Lemma distinct_fixed (c : collation) (l : list str) :
  NoDup (map (coll_key c) l) -> distinct (name_eqb c) l = l.
Proof.
  induction l as [|x l IH]; simpl; intros H; trivial.
  inversion H as [|? ? Hx Hl]; subst. rewrite (IH Hl). f_equal.
  apply filter_all. intros y Hy. apply negb_true_iff.
  destruct (name_eqb c x y) eqn:E; trivial. apply name_eqb_eq in E.
  exfalso. apply Hx. rewrite E. now apply in_map.
Qed.

Lemma join_nonempty (l : list str) :
  l <> [] -> (forall t, In t l -> t <> []) -> nonempty (join comma_space l) = true.
Proof.
  intros Hl Ht. destruct l as [|x r]; [congruence|].
  assert (Hx : x <> []) by (apply Ht; now left).
  destruct x as [|c x]; [congruence|]. now destruct r.
Qed.

Lemma courses_value_binary (sid : Z) (s : store) (l : list str) :
  db_collation s = Binary -> enrolled_names sid s = l ->
  NoDup l -> (forall t, In t l -> t <> []) ->
  legacy_courses sid s = Some (join comma_space l) ->
  courses_value sid s = Some (join comma_space (order_by (name_leb Binary) l)).
Proof.
  intros Hc Hn Hnd Hne Hl. rewrite courses_value_cases. cbn zeta.
  rewrite Hc, Hn, distinct_fixed by (simpl; now rewrite map_id).
  destruct l as [|x r]; [now rewrite Hl|].
  rewrite join_nonempty; trivial.
  - intros E. apply (f_equal (@List.length _)) in E.
    rewrite (Permutation_length (order_by_perm (name_leb Binary) (x :: r))) in E.
    discriminate.
  - intros t H. apply order_by_In in H. now apply Hne.
Qed.

(** X12. [insert_student] with an identifier that is taken raises
    IntegrityError before anything is written.  With a new identifier it
    returns normally, and in a store that satisfies its keys [get_student] then
    returns the given name, age, email and phone number; the names reached
    through the new enrollment rows are the normalized names up to the
    collation, CourseS holds their comma-space rendering, and under the exact
    collation the Courses value is the normalized names in code-point order
    joined by comma and space. *)
Theorem insert_student_round_trip sid name age email phone csv (s : store) :
  let call := insert_student sid name age email phone csv in
  let s' := run call s in
  let l := _normalize_courses csv in
  (has_student sid s = true -> call s = (Raise IntegrityError, s))
  /\ (has_student sid s = false ->
      result call s = Ok tt
      /\ legacy_courses sid s' = Some (join comma_space l)
      /\ (wf_store s ->
          result (get_student sid) s'
          = Ok (Some (mkStudentRow sid name age email (Some phone)
                        (courses_value sid s')))
          /\ map (coll_key (db_collation s)) (enrolled_names sid s')
             = map (coll_key (db_collation s)) l
          /\ (db_collation s = Binary ->
              courses_value sid s'
              = Some (join comma_space (order_by (name_leb Binary) l))))).
Proof.
  intros call s' l. unfold s', call, result, run. rewrite insert_student_run.
  split; [now intros ->|]. intros Hs. rewrite Hs.
  set (si := with_students (students s ++ [mkStudent sid name age email]) s).
  assert (Hsi : has_student sid si = true).
  { unfold has_student, si. store_simpl. rewrite existsb_app. simpl.
    now rewrite Z.eqb_refl, orb_true_r. }
  assert (Hok : fst (upsert_student_details sid phone csv si) = Ok tt).
  { rewrite upsert_student_details_run. unfold upsert_details. rewrite Hsi.
    destruct (has_details sid si); apply set_student_courses_frame. }
  destruct (upsert_student_details_effect sid phone csv si Hok)
    as [Eu [E' [_ Hd']]].
  change (snd (upsert_student_details sid phone csv si))
    with (run (upsert_student_details sid phone csv) si) in *.
  set (su := apply_statement (upsert_details sid (Some phone) csv) si) in *.
  set (sf := run (upsert_student_details sid phone csv) si) in *.
  assert (Hleg : legacy_courses sid sf = Some (join comma_space l)).
  { unfold legacy_courses. now rewrite Hd'. }
  split; [exact Hok|]. split; [exact Hleg|].
  intros W.
  assert (Wi : wf_store si).
  { apply (wf_insert_student_row sid name age email s); trivial.
    unfold insert_student_row. now rewrite Hs. }
  assert (Wu : wf_store su) by (eapply wf_upsert_details; eauto).
  destruct (upsert_details_frame _ _ _ _ _ Eu) as [Hcu [Hstu _]].
  assert (Hsu : has_student sid su = true).
  { unfold has_student. now rewrite Hstu. }
  assert (Wf : wf_store sf) by (rewrite E'; now apply keeps_wf_set_student_courses).
  assert (Hnames : map (coll_key (db_collation s)) (enrolled_names sid sf)
                   = map (coll_key (db_collation s)) l).
  { rewrite E'. change (db_collation s) with (db_collation si). rewrite <- Hcu.
    now apply enrolled_names_after_sync. }
  split; [|split; [exact Hnames|]].
  - assert (Hin : In (mkStudent sid name age email) (students sf)).
    { rewrite E'.
      destruct (set_student_courses_frame sid csv su) as [_ [_ [Hst _]]].
      rewrite Hst, Hstu. unfold si. store_simpl. apply in_or_app. right. now left. }
    pose proof (get_student_found sf _ Wf Hin) as G.
    cbn [StudentID] in G. unfold result in G. rewrite G. do 2 f_equal.
    unfold student_report. cbn [StudentID Name Age Email]. f_equal.
    unfold phone_number. now rewrite Hd'.
  - intros Hb. apply courses_value_binary; trivial.
    + rewrite E'.
      destruct (set_student_courses_frame sid csv su) as [_ [Hc _]].
      rewrite Hc, Hcu. exact Hb.
    + rewrite Hb in Hnames. cbn [coll_key] in Hnames.
      now rewrite !map_id in Hnames.
    + pose proof (normalize_NoDup csv) as H. now apply NoDup_map_inv in H.
    + intros t Ht. now apply normalize_elements in Ht.
Qed.

(** ** Deleting a course *)

Lemma delete_course_run (cid : Z) (s : store) :
  delete_course cid s =
  (Ok tt,
   with_courses (filter (fun c => negb (Z.eqb (CourseID c) cid)) (courses s))
     (cascade_course cid s)).
Proof. reflexivity. Qed.

(** X13. [delete_course] never raises and leaves students and details (so every
    legacy CourseS) alone.  In a store that satisfies its keys, afterwards no
    course and no enrollment row has the identifier, and [list_courses] returns
    the rows it returned before without the row of that identifier, the
    student counts of the other courses unchanged. *)
Theorem delete_course_effect (cid : Z) (s : store) :
  wf_store s ->
  let s' := run (delete_course cid) s in
  result (delete_course cid) s = Ok tt
  /\ students s' = students s /\ details s' = details s
  /\ has_course cid s' = false
  /\ (forall e, In e (enrollments s') -> sc_CourseID e <> cid)
  /\ (forall r, In r (select_courses s')
                <-> In r (select_courses s) /\ r_CourseID r <> cid).
Proof.
  intros W s'. unfold s', run, result. rewrite delete_course_run. cbn [fst snd].
  set (s1 := with_courses _ (cascade_course cid s)).
  assert (W1 : wf_store s1) by now apply (wf_delete_course_row cid s).
  assert (Hrep : forall c, CourseID c <> cid -> course_report s1 c = course_report s c).
  { intros c Hc. unfold course_report, enrolled_students, s1. store_simpl.
    now rewrite (filter_filter_other sc_CourseID). }
  split; [reflexivity|]. split; [reflexivity|]. split; [reflexivity|].
  split; [|split].
  - unfold has_course, s1. store_simpl.
    destruct (existsb _ (filter _ (courses s))) eqn:E; trivial.
    apply existsb_exists in E. destruct E as [c [Hc Ec]].
    apply filter_In in Hc. destruct Hc as [_ Hc]. now rewrite Ec in Hc.
  - intros e He. unfold s1 in He. store_simpl. apply filter_In in He.
    destruct He as [_ He]. now apply negb_true_iff, Z.eqb_neq in He.
  - intros r. rewrite !select_courses_eq by trivial. rewrite !order_by_In.
    unfold s1 at 2. store_simpl. split.
    + intros H. apply in_map_iff in H. destruct H as [c [<- Hc]].
      apply filter_In in Hc. destruct Hc as [Hc Hne].
      apply negb_true_iff, Z.eqb_neq in Hne.
      split; [|exact Hne]. rewrite (Hrep c Hne). now apply in_map.
    + intros [H Hne]. apply in_map_iff in H. destruct H as [c [<- Hc]].
      simpl in Hne. rewrite <- (Hrep c Hne). apply in_map.
      apply filter_In. split; trivial. now apply negb_true_iff, Z.eqb_neq.
Qed.

(** ** What holds in every reachable store *)







(** ** Setting the courses and reading them back; saving the details twice *)

(** X15. In a store that satisfies its keys, after [set_student_courses] on a
    student that has a details row, [get_student] returns the student with the
    phone number it had; the names reached through the enrollment rows are the
    normalized names up to the collation, and under the exact collation the
    Courses value is the normalized names in code-point order joined by comma
    and space (the empty string when there is none). *)
Theorem set_student_courses_round_trip (sid : Z) (csv : option str) (s : store)
  (x : Student) :
  wf_store s -> In x (students s) -> StudentID x = sid ->
  has_details sid s = true ->
  let s' := run (set_student_courses sid csv) s in
  let l := _normalize_courses csv in
  result (get_student sid) s'
  = Ok (Some (mkStudentRow sid (Name x) (Age x) (Email x)
                (phone_number sid s) (courses_value sid s')))
  /\ map (coll_key (db_collation s)) (enrolled_names sid s')
     = map (coll_key (db_collation s)) l
  /\ (db_collation s = Binary ->
      courses_value sid s' = Some (join comma_space (order_by (name_leb Binary) l))).
Proof.
  intros W Hx Hid Hd s' l.
  assert (Hs : has_student sid s = true).
  { apply has_student_In. rewrite <- Hid. now apply in_map. }
  destruct (set_student_courses_frame sid csv s) as [_ [Hc [Hst _]]].
  fold s' in Hc, Hst.
  assert (W' : wf_store s') by now apply keeps_wf_set_student_courses.
  assert (Hx' : In x (students s')) by now rewrite Hst.
  pose proof (enrolled_names_after_sync sid csv s W Hs) as Hn. fold s' l in Hn.
  split; [|split; [exact Hn|]].
  - pose proof (get_student_found s' x W' Hx') as G. rewrite Hid in G. rewrite G.
    unfold student_report. rewrite Hid. do 3 f_equal. apply phone_after_sync.
  - intros Hb. apply courses_value_binary.
    + now rewrite Hc.
    + rewrite Hb in Hn. cbn [coll_key] in Hn. now rewrite !map_id in Hn.
    + pose proof (normalize_NoDup csv) as H. now apply NoDup_map_inv in H.
    + intros t Ht. now apply normalize_elements in Ht.
    + destruct (legacy_after_sync sid csv s) as [Hl _]. fold s' in Hl. rewrite Hl.
      unfold has_details in Hd. unfold details_of.
      destruct (find _ (details s)) eqn:F; [reflexivity|].
      exfalso. apply existsb_exists in Hd. destruct Hd as [d [Hin Hd']].
      apply (find_none _ _ F) in Hin. congruence.
Qed.

Lemma enroll_one_without_details (sid : Z) (c : str) (s : store) :
  with_details [] (enroll_one sid s c) = enroll_one sid (with_details [] s) c.
Proof.
  unfold enroll_one. rewrite !apply_insert_ignore_course.
  change (has_course_named c (with_details [] s)) with (has_course_named c s).
  destruct (has_course_named c s).
  - rewrite !apply_insert_ignore_student_course.
    change (has_enrollment sid (course_id_of c (with_details [] s)) (with_details [] s))
      with (has_enrollment sid (course_id_of c s) s).
    change (has_student sid (with_details [] s)) with (has_student sid s).
    change (has_course (course_id_of c (with_details [] s)) (with_details [] s))
      with (has_course (course_id_of c s) s).
    now destruct (_ || _ || _).
  - set (s1 := with_auto_increment _ (with_courses _ s)).
    change (with_auto_increment (auto_increment (with_details [] s) + 1)
              (with_courses
                 (courses (with_details [] s)
                  ++ [mkCourse (auto_increment (with_details [] s)) c])
                 (with_details [] s)))
      with (with_details [] s1).
    rewrite !apply_insert_ignore_student_course.
    change (has_enrollment sid (course_id_of c (with_details [] s1)) (with_details [] s1))
      with (has_enrollment sid (course_id_of c s1) s1).
    change (has_student sid (with_details [] s1)) with (has_student sid s1).
    change (has_course (course_id_of c (with_details [] s1)) (with_details [] s1))
      with (has_course (course_id_of c s1) s1).
    now destruct (_ || _ || _).
Qed.

Lemma enroll_loop_without_details (sid : Z) (l : list str) (s : store) :
  with_details [] (fold_left (enroll_one sid) l s)
  = fold_left (enroll_one sid) l (with_details [] s).
Proof.
  revert s. induction l as [|c l IH]; intros s; simpl; trivial.
  now rewrite IH, enroll_one_without_details.
Qed.

(** The synchronizer reads the details table nowhere: two stores that differ
    in it only are left differing in it only. *)
Lemma sync_without_details (sid : Z) (csv : option str) (a b : store) :
  with_details [] a = with_details [] b ->
  with_details [] (run (set_student_courses sid csv) a)
  = with_details [] (run (set_student_courses sid csv) b).
Proof.
  intros H. unfold run. rewrite !set_student_courses_run. cbn [snd].
  set (l := _normalize_courses csv).
  change (with_details [] (fold_left (enroll_one sid) l
                             (apply_statement (delete_student_courses sid) a))
          = with_details [] (fold_left (enroll_one sid) l
                               (apply_statement (delete_student_courses sid) b))).
  rewrite !enroll_loop_without_details. f_equal.
  change (with_enrollments
            (filter (fun e => negb (Z.eqb (sc_StudentID e) sid))
               (enrollments (with_details [] a))) (with_details [] a)
          = with_enrollments
              (filter (fun e => negb (Z.eqb (sc_StudentID e) sid))
                 (enrollments (with_details [] b))) (with_details [] b)).
  now rewrite H.
Qed.

Lemma without_details_eq (a b : store) :
  with_details [] a = with_details [] b -> details a = details b -> a = b.
Proof.
  destruct a, b. unfold with_details. simpl. intros H Hd. injection H as -> -> -> -> ->.
  now subst.
Qed.

(** X16. In a store that satisfies its keys, calling [upsert_student_details]
    a second time with the same phone number and CSV leaves the store as the
    first call left it, and returns as the first call did. *)
Theorem upsert_student_details_idempotent (sid : Z) (phone : str)
  (csv : option str) (s : store) :
  wf_store s ->
  let once := run (upsert_student_details sid phone csv) s in
  run (upsert_student_details sid phone csv) once = once
  /\ result (upsert_student_details sid phone csv) once
     = result (upsert_student_details sid phone csv) s.
Proof.
  intros W once. unfold once, run, result.
  rewrite (upsert_student_details_run sid phone csv s).
  destruct (upsert_details sid (Some phone) csv s) as [su|e] eqn:E.
  - change (snd (set_student_courses sid csv su))
      with (run (set_student_courses sid csv) su).
    set (s1 := run (set_student_courses sid csv) su).
    assert (Wu : wf_store su) by (eapply wf_upsert_details; eauto).
    assert (W1 : wf_store s1) by now apply keeps_wf_set_student_courses.
    destruct (set_student_courses_frame sid csv su) as [R1 [_ [_ [Hd1 _]]]].
    fold s1 in Hd1.
    set (upd := fun d => if Z.eqb (d_StudentID d) sid
                         then mkDetails (d_StudentID d) (PhoneNumber d)
                                (Some (join comma_space (_normalize_courses csv)))
                         else d) in *.
    set (put := fun d => if Z.eqb (d_StudentID d) sid
                         then mkDetails sid (Some phone) csv else d).
    assert (Hrows : forall d, In d (details su) -> d_StudentID d = sid ->
                              d = mkDetails sid (Some phone) csv).
    { intros d Hd Hi. unfold upsert_details in E.
      destruct (has_details sid s) eqn:Hh.
      - injection E as <-. store_simpl. apply in_map_iff in Hd.
        destruct Hd as [d0 [<- Hd0]].
        destruct (Z.eqb_spec (d_StudentID d0) sid); [reflexivity | congruence].
      - destruct (has_student sid s); [|discriminate]. injection E as <-.
        store_simpl. apply in_app_iff in Hd. destruct Hd as [Hd|[<-|[]]]; trivial.
        exfalso. assert (X : existsb (fun d => Z.eqb (d_StudentID d) sid) (details s)
                             = true).
        { apply existsb_exists. exists d. split; trivial. now apply Z.eqb_eq. }
        congruence. }
    assert (Hh1 : has_details sid s1 = true).
    { unfold has_details. rewrite Hd1.
      rewrite (existsb_key_map d_StudentID sid sid
                 (fun d => mkDetails (d_StudentID d) (PhoneNumber d)
                             (Some (join comma_space (_normalize_courses csv)))))
        by reflexivity.
      now destruct (upsert_details_frame _ _ _ _ _ E) as [_ [_ [_ [_ [H _]]]]]. }
    rewrite (upsert_student_details_run sid phone csv s1).
    unfold upsert_details. rewrite Hh1. fold put.
    set (su2 := with_details (map put (details s1)) s1).
    change (snd (set_student_courses sid csv su2))
      with (run (set_student_courses sid csv) su2).
    destruct (set_student_courses_frame sid csv su2) as [R2 [_ [_ [Hd2 _]]]].
    fold upd in Hd2. unfold result in R1, R2.
    split; [|now rewrite R1, R2].
    assert (Hidem : run (set_student_courses sid csv) s1 = s1)
      by (apply set_student_courses_twice; exact Wu).
    apply without_details_eq.
    + transitivity (with_details [] (run (set_student_courses sid csv) s1));
        [apply sync_without_details; reflexivity | now rewrite Hidem].
    + rewrite Hd2. unfold su2. store_simpl. rewrite Hd1, !map_map.
      apply map_ext_in. intros d Hd. unfold put, upd.
      destruct (Z.eqb_spec (d_StudentID d) sid) as [Hi|Hne]; simpl.
      * rewrite Hi, Z.eqb_refl. simpl. rewrite Z.eqb_refl.
        now rewrite (Hrows d Hd Hi).
      * destruct (Z.eqb_spec (d_StudentID d) sid); [congruence|].
        destruct (Z.eqb_spec (d_StudentID d) sid); [congruence | reflexivity].
  - cbn [fst snd]. rewrite (upsert_student_details_run sid phone csv s), E.
    now split.
Qed.
End Repository.

(** * The sample stores, and the theorems at work on them *)

Lemma math_store_reachable (c : collation) : reachable nofold (math_store c).
Proof.
  replace (math_store c)
    with (run (perform nofold
                 (InsertStudent 1 (py "Alice") 20 (py "a@x.com") (py "555-1234")
                    (Some (py "Math")))) (empty_store c))
    by (destruct c; reflexivity).
  apply reach_step, reach_empty.
Qed.

Lemma renamed_store_reachable (c : collation) : reachable nofold (renamed_store c).
Proof.
  replace (renamed_store c)
    with (run (perform nofold (RenameCourse 1 (py "Physics"))) (math_store c))
    by (destruct c; reflexivity).
  apply reach_step, math_store_reachable.
Qed.

Lemma math_art_store_reachable (c : collation) : reachable nofold (math_art_store c).
Proof.
  replace (math_art_store c)
    with (run (perform nofold
                 (InsertStudent 1 (py "Alice") 20 (py "a@x.com") (py "555-1234")
                    (Some (py "Math, Art")))) (empty_store c))
    by (destruct c; reflexivity).
  apply reach_step, reach_empty.
Qed.

Lemma art_left_store_reachable (c : collation) : reachable nofold (art_left_store c).
Proof.
  replace (art_left_store c)
    with (run (perform nofold (DeleteCourse 1)) (math_art_store c))
    by (destruct c; reflexivity).
  apply reach_step, math_art_store_reachable.
Qed.

Lemma biology_store_reachable (c : collation) : reachable nofold (biology_store c).
Proof.
  replace (biology_store c)
    with (run (perform nofold (DeleteCourse 1))
            (run (perform nofold
                    (InsertStudent 1 (py "Alice") 20 (py "a@x.com") (py "555-1234")
                       (Some (py "Biology")))) (empty_store c)))
    by (destruct c; reflexivity).
  apply reach_step, reach_step, reach_empty.
Qed.

Lemma campus_store_reachable (c : collation) : reachable nofold (campus_store c).
Proof.
  replace (campus_store c)
    with (run (perform nofold (CreateCourse (py " Zoology ")))
            (run (perform nofold
                    (InsertStudent 2 (py "Bob") 21 (py "b@x.com") (py "555-9876")
                       (Some (py "Math"))))
               (math_art_store c)))
    by (destruct c; reflexivity).
  apply reach_step, reach_step, math_art_store_reachable.
Qed.

Lemma art_twice_store_reachable : reachable nofold art_twice_store.
Proof.
  replace art_twice_store
    with (run (perform nofold (RenameCourse 2 (py "art")))
            (run (perform nofold
                    (InsertStudent 1 (py "Alice") 20 (py "a@x.com") (py "555-1234")
                       (Some (py "Art, Math")))) (empty_store Binary)))
    by reflexivity.
  apply reach_step, reach_step, reach_empty.
Qed.

Lemma fold_set_differs (a b : str) :
  casefold nofold a <> casefold nofold b -> ~ fold_set_eq nofold [a] [b].
Proof.
  intros Hne H. destruct (H (casefold nofold a)) as [H1 _].
  destruct (H1 (or_introl eq_refl)) as [E|[]]. now apply Hne.
Qed.



(** The counterexample of C4: in a store that compares names exactly, Alice is
    enrolled in the courses Art and art, which differ in case only; the store
    is reachable and satisfies its keys, and both listings report her with
    Courses "Art, art", not deduplicated ignoring case. *)
Lemma list_students_case_variants :
  reachable nofold art_twice_store
  /\ wf_store nofold art_twice_store
  /\ enrolled_names 1 art_twice_store = [py "Art"; py "art"]
  /\ py "Art" <> py "art"
  /\ casefold nofold (py "Art") = casefold nofold (py "art")
  /\ result (get_student nofold 1) art_twice_store
     = Ok (Some (mkStudentRow 1 (py "Alice") 20 (py "a@x.com")
                   (Some (py "555-1234")) (Some (py "Art, art"))))
  /\ result (list_students nofold None) art_twice_store
     = Ok [mkStudentRow 1 (py "Alice") 20 (py "a@x.com")
             (Some (py "555-1234")) (Some (py "Art, art"))].
Proof.
  split; [apply art_twice_store_reachable|].
  split; [apply reachable_wf, art_twice_store_reachable|].
  split; [reflexivity|]. split; [discriminate|].
  repeat (split; [reflexivity|]). reflexivity.
Qed.

(** A student with no enrollment row and no details row is in sync. *)
Lemma no_rows_in_sync (sid : Z) (s : store) :
  (forall e, In e (enrollments s) -> sc_StudentID e <> sid) ->
  (forall d, In d (details s) -> d_StudentID d <> sid) ->
  in_sync nofold sid s.
Proof.
  intros He Hd.
  unfold in_sync, legacy_names, legacy_courses, details_of, enrolled_names,
    student_enrollments.
  rewrite filter_nothing by (intros e Hin; apply Z.eqb_neq; now apply He).
  destruct (find _ (details s)) as [d|] eqn:F.
  - apply find_some in F. destruct F as [Hin E]. apply Z.eqb_eq in E.
    now apply Hd in Hin.
  - intros k. reflexivity.
Qed.

(** The counterexample of C2: the store with Alice enrolled in Math is
    reachable and has the invariant; after rename_course(1, "Physics") the join
    table is not empty, the name reached through it is Physics and CourseS
    still says Math.  In the same way, after delete_course(1) on the store with
    Math and Art, the join reaches Art only while CourseS still says
    "Math, Art". *)
Lemma legacy_sync_broken_by_course_edit :
  (reachable nofold (math_store Binary)
   /\ (forall sid, in_sync nofold sid (math_store Binary))
   /\ run (rename_course nofold 1 (py "Physics")) (math_store Binary) = renamed_store Binary
   /\ reachable nofold (renamed_store Binary)
   /\ ~ join_table_empty (renamed_store Binary)
   /\ enrolled_names 1 (renamed_store Binary) = [py "Physics"]
   /\ legacy_courses 1 (renamed_store Binary) = Some (py "Math")
   /\ ~ in_sync nofold 1 (renamed_store Binary))
  /\ (reachable nofold (math_art_store Binary)
      /\ (forall sid, in_sync nofold sid (math_art_store Binary))
      /\ run (delete_course 1) (math_art_store Binary) = art_left_store Binary
      /\ reachable nofold (art_left_store Binary)
      /\ ~ join_table_empty (art_left_store Binary)
      /\ enrolled_names 1 (art_left_store Binary) = [py "Art"]
      /\ legacy_courses 1 (art_left_store Binary) = Some (py "Math, Art")
      /\ ~ in_sync nofold 1 (art_left_store Binary)).
Proof.
  split.
  - split; [apply math_store_reachable|]. split.
    { intros sid. destruct (Z.eq_dec sid 1) as [->|Hne].
      - intros k. reflexivity.
      - apply no_rows_in_sync; intros x Hx; simpl in Hx;
          repeat (destruct Hx as [<-|Hx]; [simpl; congruence|]); destruct Hx. }
    split; [reflexivity|]. split; [apply renamed_store_reachable|].
    split; [discriminate|].
    split; [reflexivity|]. split; [reflexivity|].
    apply fold_set_differs. vm_compute. discriminate.
  - split; [apply math_art_store_reachable|]. split.
    { intros sid. destruct (Z.eq_dec sid 1) as [->|Hne].
      - intros k. vm_compute. tauto.
      - apply no_rows_in_sync; intros x Hx; simpl in Hx;
          repeat (destruct Hx as [<-|Hx]; [simpl; congruence|]); destruct Hx. }
    split; [reflexivity|]. split; [apply art_left_store_reachable|].
    split; [discriminate|].
    split; [reflexivity|]. split; [reflexivity|].
    intros H.
    destruct (H (py "math")) as [_ H2].
    assert (X : In (py "math") (map (casefold nofold)
                                  (legacy_names nofold 1 (art_left_store Binary))))
      by (vm_compute; auto).
    apply H2 in X. vm_compute in X. destruct X as [X|[]]. discriminate X.
Qed.

(** The witness of C4: Alice, enrolled in Math and Art, is listed with
    "Art, Math", whatever her legacy field says. *)
Lemma list_students_courses_witness :
  wf_store nofold (math_art_store CaseInsensitive)
  /\ In (mkStudent 1 (py "Alice") 20 (py "a@x.com"))
       (students (math_art_store CaseInsensitive))
  /\ result (get_student nofold 1) (math_art_store CaseInsensitive)
     = Ok (Some (mkStudentRow 1 (py "Alice") 20 (py "a@x.com")
                   (Some (py "555-1234")) (Some (py "Art, Math")))).
Proof.
  assert (W : wf_store nofold (math_art_store CaseInsensitive))
    by apply reachable_wf, math_art_store_reachable.
  split; [exact W|]. split; [now left|].
  destruct (proj1 (list_students_courses nofold) (math_art_store CaseInsensitive)
              (mkStudent 1 (py "Alice") 20 (py "a@x.com")) W (or_introl eq_refl))
    as [H _].
  exact H.
Defined.

(** The witness of C7 *)
Lemma set_student_courses_idempotent_witness :
  wf_store nofold (math_store CaseInsensitive)
  /\ run (set_student_courses nofold 1 (Some (py "art, Math, ART")))
       (run (set_student_courses nofold 1 (Some (py "art, Math, ART")))
          (math_store CaseInsensitive))
     = run (set_student_courses nofold 1 (Some (py "art, Math, ART")))
         (math_store CaseInsensitive).
Proof.
  assert (W : wf_store nofold (math_store CaseInsensitive))
    by apply reachable_wf, math_store_reachable.
  split; [exact W|].
  apply (set_student_courses_idempotent nofold 1 (Some (py "art, Math, ART"))
           (math_store CaseInsensitive) W).
Defined.


(** The witness of C10 *)
Lemma get_student_spec_witness :
  wf_store nofold (campus_store Binary)
  /\ result (get_student nofold 7) (campus_store Binary) = Ok None
  /\ result (get_student nofold 2) (campus_store Binary)
     = Ok (Some (mkStudentRow 2 (py "Bob") 21 (py "b@x.com")
                   (Some (py "555-9876")) (Some (py "Math")))).
Proof.
  assert (W : wf_store nofold (campus_store Binary))
    by apply reachable_wf, campus_store_reachable.
  split; [exact W|].
  destruct (get_student_spec nofold 7 (campus_store Binary) W) as [[_ H7] _].
  destruct (get_student_spec nofold 2 (campus_store Binary) W) as [_ [H2 _]].
  split.
  - apply H7. simpl. intros [H|[H|[]]]; discriminate H.
  - apply (H2 (mkStudent 2 (py "Bob") 21 (py "b@x.com"))); [right; now left | reflexivity].
Defined.

(** * The further properties at work on the sample stores *)

Lemma campus_store_wf (c : collation) : wf_store nofold (campus_store c).
Proof. apply reachable_wf, campus_store_reachable. Qed.

Lemma math_store_wf (c : collation) : wf_store nofold (math_store c).
Proof. apply reachable_wf, math_store_reachable. Qed.

(** The witness of X6: the campus lists Bob (2) before Alice (1). *)
Lemma list_students_order_witness :
  wf_store nofold (campus_store Binary)
  /\ exists rows,
       list_students nofold None (campus_store Binary) = (Ok rows, campus_store Binary)
       /\ map r_StudentID rows = [2; 1]%Z
       /\ NoDup (map r_StudentID rows).
Proof.
  pose proof (campus_store_wf Binary) as W. split; [exact W|].
  destruct (list_students_order nofold (campus_store Binary) W)
    as [rows [E [_ [_ [Hnd _]]]]].
  exists rows. split; [exact E|].
  assert (Er : rows = select_students nofold None (campus_store Binary))
    by (unfold list_students, fetch_all in E; congruence).
  split; [rewrite Er; reflexivity | exact Hnd].
Defined.

(** The witness of X7: Bob's record is in the listing, so get_student(2)
    returns it. *)
Lemma get_student_in_listing_witness :
  wf_store nofold (campus_store Binary)
  /\ result (get_student nofold 2) (campus_store Binary)
     = Ok (Some (mkStudentRow 2 (py "Bob") 21 (py "b@x.com")
                   (Some (py "555-9876")) (Some (py "Math")))).
Proof.
  pose proof (campus_store_wf Binary) as W. split; [exact W|].
  apply (proj2 (get_student_in_listing nofold (campus_store Binary) 2 _ W)).
  exists (select_students nofold None (campus_store Binary)).
  split; [reflexivity|]. split; [left; reflexivity | reflexivity].
Defined.

(** The witness of X9: after delete_student(1) the campus has no student 1. *)
Lemma delete_student_effect_witness :
  wf_store nofold (campus_store Binary)
  /\ result (get_student nofold 1) (run (delete_student 1) (campus_store Binary))
     = Ok None
  /\ student_enrollments 1 (run (delete_student 1) (campus_store Binary)) = [].
Proof.
  pose proof (campus_store_wf Binary) as W. split; [exact W|].
  destruct (delete_student_effect nofold 1 (campus_store Binary) W)
    as [_ [_ [H [_ [He _]]]]].
  split; [exact H | exact He].
Defined.

(** The witness of X10: None clears the courses of Alice. *)
Lemma set_student_courses_clear_witness :
  _normalize_courses nofold None = []
  /\ student_enrollments 1 (run (set_student_courses nofold 1 None) (math_store Binary))
     = []
  /\ legacy_courses 1 (run (set_student_courses nofold 1 None) (math_store Binary))
     = Some [].
Proof.
  split; [reflexivity|].
  destruct (set_student_courses_clear nofold 1 None (math_store Binary) eq_refl)
    as [_ [He _]].
  split; [exact He | reflexivity].
Defined.

(** The witness of X11: setting Alice's courses leaves Bob's record alone. *)
Lemma set_student_courses_others_witness :
  wf_store nofold (campus_store Binary)
  /\ result (get_student nofold 2)
       (run (set_student_courses nofold 1 (Some (py "Zoology, Latin")))
          (campus_store Binary))
     = Ok (Some (mkStudentRow 2 (py "Bob") 21 (py "b@x.com")
                   (Some (py "555-9876")) (Some (py "Math")))).
Proof.
  pose proof (campus_store_wf Binary) as W. split; [exact W|].
  destruct (set_student_courses_others nofold 1 (Some (py "Zoology, Latin"))
              (campus_store Binary) W) as [_ [_ [_ H]]].
  transitivity (result (get_student nofold 2) (campus_store Binary));
    [|reflexivity].
  apply (H (mkStudent 2 (py "Bob") 21 (py "b@x.com"))).
  - right. now left.
  - discriminate.
Defined.

(** The witness of X13: after delete_course(1) the campus lists Art and
    Zoology. *)
Lemma delete_course_effect_witness :
  wf_store nofold (campus_store Binary)
  /\ has_course 1 (run (delete_course 1) (campus_store Binary)) = false
  /\ map r_CourseName
       (select_courses nofold (run (delete_course 1) (campus_store Binary)))
     = [py "Art"; py "Zoology"].
Proof.
  pose proof (campus_store_wf Binary) as W. split; [exact W|].
  destruct (delete_course_effect nofold 1 (campus_store Binary) W)
    as [_ [_ [_ [H _]]]].
  split; [exact H | reflexivity].
Defined.


(** The witness of X15: Alice set to "Zoo, art, Art" is reported with
    "Zoo, art" under the exact collation. *)
Lemma set_student_courses_round_trip_witness :
  wf_store nofold (math_store Binary)
  /\ In (mkStudent 1 (py "Alice") 20 (py "a@x.com")) (students (math_store Binary))
  /\ has_details 1 (math_store Binary) = true
  /\ result (get_student nofold 1)
       (run (set_student_courses nofold 1 (Some (py "Zoo, art, Art")))
          (math_store Binary))
     = Ok (Some (mkStudentRow 1 (py "Alice") 20 (py "a@x.com")
                   (Some (py "555-1234")) (Some (py "Zoo, art")))).
Proof.
  pose proof (math_store_wf Binary) as W. split; [exact W|].
  assert (Hin : In (mkStudent 1 (py "Alice") 20 (py "a@x.com"))
                  (students (math_store Binary))) by now left.
  split; [exact Hin|]. split; [reflexivity|].
  destruct (set_student_courses_round_trip nofold 1 (Some (py "Zoo, art, Art"))
              (math_store Binary) _ W Hin eq_refl eq_refl) as [H [_ Hb]].
  rewrite H, (Hb eq_refl). reflexivity.
Defined.

(** The witness of X16 *)
Lemma upsert_student_details_idempotent_witness :
  wf_store nofold (math_store CaseInsensitive)
  /\ run (upsert_student_details nofold 1 (py "555-0000") (Some (py "art, Math")))
       (run (upsert_student_details nofold 1 (py "555-0000") (Some (py "art, Math")))
          (math_store CaseInsensitive))
     = run (upsert_student_details nofold 1 (py "555-0000") (Some (py "art, Math")))
         (math_store CaseInsensitive).
Proof.
  pose proof (math_store_wf CaseInsensitive) as W. split; [exact W|].
  exact (proj1 (upsert_student_details_idempotent nofold 1 (py "555-0000")
                  (Some (py "art, Math")) (math_store CaseInsensitive) W)).
Defined.
